(** * Adaptive list discovery, pagination and record persistence of the
      shopping scraper, and the JSONL de-duplication utility.

    A shallow embedding of [shopping.py] and [deduplicate_jsonl.py].
    Python strings are [string]s of code points below 256, Python lists are
    [list]s, insertion-ordered dicts are association lists, and the browser
    driver is an explicit interface whose operations may raise. *)

From Stdlib Require Import List Bool Arith ZArith Lia String Ascii Permutation.
Import ListNotations.
Local Open Scope string_scope.
Local Open Scope list_scope.
Local Open Scope nat_scope.

Set Implicit Arguments.
Local Set Warnings "-register-all,-notation-for-abbreviation".

(* ================================================================== *)
(** * Python built-ins used by the scripts *)
(* ================================================================== *)

Module Py.

(** [str.isspace] on one code point below 256: TAB..CR, FS..US, space,
    NEL and NBSP. *)
Definition isspace (c : ascii) : bool :=
  let n := nat_of_ascii c in
  ((9 <=? n) && (n <=? 13)) || ((28 <=? n) && (n <=? 32))
  || (n =? 133) || (n =? 160).

(** Truthiness of a [str]: non-empty. *)
Definition truthy (s : string) : bool :=
  match s with EmptyString => false | String _ _ => true end.

Definition flush (acc : string) : list string :=
  if truthy acc then [acc] else [].

(** [s.split()] with no separator: maximal runs of non-whitespace. *)
Fixpoint split_from (acc s : string) : list string :=
  match s with
  | EmptyString => flush acc
  | String c s' =>
      if isspace c then flush acc ++ split_from EmptyString s'
      else split_from (String.append acc (String c EmptyString)) s'
  end.

Definition split (s : string) : list string := split_from EmptyString s.

Fixpoint lstrip (s : string) : string :=
  match s with
  | EmptyString => EmptyString
  | String c s' => if isspace c then lstrip s' else s
  end.

Fixpoint rstrip (s : string) : string :=
  match s with
  | EmptyString => EmptyString
  | String c s' =>
      match rstrip s' with
      | EmptyString => if isspace c then EmptyString else String c EmptyString
      | r => String c r
      end
  end.

(** [s.strip()]. *)
Definition strip (s : string) : string := rstrip (lstrip s).

Definition lower_char (c : ascii) : ascii :=
  let n := nat_of_ascii c in
  if (65 <=? n) && (n <=? 90) then ascii_of_nat (n + 32) else c.

(** [s.lower()] on the ASCII letters. *)
Fixpoint lower (s : string) : string :=
  match s with
  | EmptyString => EmptyString
  | String c s' => String (lower_char c) (lower s')
  end.

Fixpoint prefix (p s : string) : bool :=
  match p, s with
  | EmptyString, _ => true
  | String a p', String b s' => Ascii.eqb a b && prefix p' s'
  | String _ _, EmptyString => false
  end.

(** [p in s] for strings. *)
Fixpoint contains (p s : string) : bool :=
  prefix p s ||
  match s with
  | EmptyString => false
  | String _ s' => contains p s'
  end.

Section Sorting.
Variable A : Type.
(** [before x y]: [x], met earlier in the input, stays in front of [y]. *)
Variable before : A -> A -> bool.

Fixpoint insert (x : A) (l : list A) : list A :=
  match l with
  | [] => [x]
  | y :: l' => if before x y then x :: l else y :: insert x l'
  end.

(** A stable sort: an element overtakes exactly those it is not
    [before]. *)
Definition sort_by (l : list A) : list A := fold_right insert [] l.
End Sorting.

(** [sorted(l)] on strings. *)
Definition sorted (l : list string) : list string := sort_by String.leb l.

(** [sorted(l, key=k, reverse=True)] with a key in [nat]: descending,
    equal keys keep their input order. *)
Definition sorted_desc (A : Type) (k : A -> nat) (l : list A) : list A :=
  sort_by (fun x y => k y <=? k x) l.

(** Insertion-ordered [dict]. *)
Section Dict.
Variables K V : Type.
Variable eqb : K -> K -> bool.

Fixpoint get (d : list (K * V)) (k : K) : option V :=
  match d with
  | [] => None
  | (k', v) :: d' => if eqb k k' then Some v else get d' k
  end.

(** [d[k] = v]: overwrite in place, or append a new key at the end. *)
Fixpoint set (d : list (K * V)) (k : K) (v : V) : list (K * V) :=
  match d with
  | [] => [(k, v)]
  | (k', v') :: d' =>
      if eqb k k' then (k', v) :: d' else (k', v') :: set d' k v
  end.
End Dict.

End Py.

(* ================================================================== *)
(** * Class signatures and the frequency count of [find_products] *)
(* ================================================================== *)

(** [filter(None, classes_str.split())]. *)
Definition class_tokens (classes_str : string) : list string :=
  filter Py.truthy (Py.split classes_str).

(** [tuple(sorted(filter(None, classes_str.split())))]. *)
Definition class_signature (classes_str : string) : list string :=
  Py.sorted (class_tokens classes_str).

Definition sig_eqb (a b : list string) : bool :=
  if list_eq_dec string_dec a b then true else false.

(** What the counting loop reads from one page element: [is_displayed()]
    and [get_attribute("class")]; [None] in [pe_displayed] stands for a
    read that raised and is skipped by the loop's handler. *)
Record PageElement := {
  pe_displayed : option bool;
  pe_class : option string
}.

Definition count_step (class_counts : list (list string * nat))
    (element : PageElement) : list (list string * nat) :=
  match pe_displayed element with
  | None => class_counts
  | Some false => class_counts
  | Some true =>
      match pe_class element with
      | None => class_counts
      | Some classes_str =>
          if Py.truthy classes_str then
            let sorted_classes := class_signature classes_str in
            match sorted_classes with
            | [] => class_counts
            | _ =>
                let n := match Py.get sig_eqb class_counts sorted_classes with
                         | Some v => v | None => 0 end in
                Py.set sig_eqb class_counts sorted_classes (n + 1)
            end
          else class_counts
      end
  end.

Definition class_counts (elements_to_analyze : list PageElement)
  : list (list string * nat) :=
  fold_left count_step elements_to_analyze [].

Definition min_products_for_list : nat := 10.

Definition sorted_frequent_classes (elements_to_analyze : list PageElement)
  : list (list string * nat) :=
  Py.sorted_desc (fun item => snd item)
    (filter (fun kv => min_products_for_list <=? snd kv)
            (class_counts elements_to_analyze)).

(* ================================================================== *)
(** * DOM nodes as the extractor reads them *)
(* ================================================================== *)

Record Size := { width : Z; height : Z }.

(** One read of a WebElement: the attributes the script asks for. *)
Record Element := {
  node : nat;                (* identity of the DOM node *)
  tag_name : string;
  displayed : bool;          (* is_displayed() *)
  href : option string;      (* get_attribute('href') *)
  text : string;             (* .text *)
  title : option string;     (* get_attribute('title') *)
  size : Size                (* .size *)
}.

(** A container and the result of [find_elements(By.TAG_NAME, 'a')] on it,
    in the order the driver enumerates them. *)
Record Container := {
  self : Element;
  anchors : list Element
}.

(** Truthiness of an attribute value: present and non-empty. *)
Definition attr_truthy (a : option string) : bool :=
  match a with Some s => Py.truthy s | None => false end.

(** [a or '']: the value, or the empty string. *)
Definition attr_or_empty (a : option string) : string :=
  match a with
  | Some s => if Py.truthy s then s else EmptyString
  | None => EmptyString
  end.

Definition _is_reasonable_size (element : Element) (check_parent : bool)
    (parent_container : option Element) : bool :=
  if negb (displayed element) then false
  else
    let own_size := size element in
    if (width own_size <? 40)%Z || (height own_size <? 40)%Z then
      match parent_container with
      | Some parent =>
          if check_parent && String.eqb (tag_name element) "a" then
            let parent_size := size parent in
            if (50 <? width parent_size)%Z && (50 <? height parent_size)%Z
            then true else false
          else false
      | None => false
      end
    else true.

(** The loop body over [all_links_in_container]: append [link] to
    [potential_links] when it passes the text/title or the size test. *)
Definition consider_link (container_element : Element)
    (potential_links : list Element) (link : Element) : list Element :=
  let href := href link in
  if displayed link && attr_truthy href
     && negb (Py.contains "javascript:void(0)" (attr_or_empty href)) then
    let text_content := Py.strip (text link) in
    let title_attr := attr_or_empty (title link) in
    if (5 <? String.length text_content) || (5 <? String.length title_attr)
    then potential_links ++ [link]
    else if _is_reasonable_size link true (Some container_element)
    then potential_links ++ [link]
    else potential_links
  else potential_links.

(** The sort key [(len(l.text.strip()), width * height)]. *)
Definition link_key (l : Element) : nat * Z :=
  (String.length (Py.strip (text l)), (width (size l) * height (size l))%Z).

(** Tuple comparison [a <= b]. *)
Definition key_le (a b : nat * Z) : bool :=
  (fst a <? fst b) || ((fst a =? fst b) && (snd a <=? snd b)%Z).

(** [potential_links.sort(key=..., reverse=True)]. *)
Definition sort_links (potential_links : list Element) : list Element :=
  Py.sort_by (fun x y => key_le (link_key y) (link_key x)) potential_links.

Definition _get_main_link_from_container (c : Container) : option Element :=
  let container_element := self c in
  if String.eqb (tag_name container_element) "a"
     && attr_truthy (href container_element)
     && displayed container_element
  then Some container_element
  else
    let all_links_in_container := anchors c in
    let potential_links :=
      fold_left (consider_link container_element) all_links_in_container [] in
    match sort_links potential_links with
    | top :: _ => Some top
    | [] => None
    end.

(* ================================================================== *)
(** * List discovery: the candidate loop of [find_products] *)
(* ================================================================== *)

(** The exceptions the handlers of [shopping.py] tell apart; everything
    else is caught as [Exception]. *)
Inductive Exn :=
| StaleElementReferenceException
| ElementClickInterceptedException
| OtherException.

(** A call either completes with a value or raises; both leave a state
    behind. *)
Inductive Outcome (W A : Type) :=
| Done (a : A) (w : W)
| Throws (e : Exn) (w : W).
Arguments Done {W A} a w.
Arguments Throws {W A} e w.

Section Discovery.

(** The live page. *)
Variable World : Type.
(** WebElement references held by the script. *)
Variable Handle : Type.

(** The DOM under a held reference; [None] when the reference is no
    longer readable: [_get_main_link_from_container] reads the container's
    tag name and class before its [try], so the exception leaves it. *)
Variable look : World -> Handle -> option Container.
(** [execute_script("return window.innerHeight")], read once per
    candidate, and [execute_script("return document.body.scrollHeight")],
    read before each run of scroll retries. Both may raise. *)
Variable inner_height : World -> Outcome World unit.
Variable scroll_height : World -> Outcome World unit.
(** One [window.scrollBy(0, scroll_step)], the 0.7 s pause and the
    [scrollHeight] read; [Throws e w] when a script call raises,
    leaving the page as [w]. *)
Variable scroll_wait : World -> Outcome World unit.
(** [driver.find_elements(By.CSS_SELECTOR, selector)]; [None] when it
    raises. *)
Variable find_elements : World -> string -> option (list Handle).

(** [self._get_main_link_from_container(container)] on the page [w]:
    [Some] of what it returns, or [None] when it raises. *)
Definition get_main_link (w : World) (container : Handle)
  : option (option Element) :=
  match look w container with
  | Some c => Some (_get_main_link_from_container c)
  | None => None
  end.

Record Group := {
  links_from_this_class_group : list Element;
  processed_hrefs_for_group : list string;
  consecutive_none_returns : nat;
  last_main_link : option Element;
  page : World
}.

Definition href_in (h : string) (seen : list string) : bool :=
  existsb (String.eqb h) seen.

(** A link was found: reset the counter, keep the first occurrence of
    its href. *)
Definition record_link (g : Group) (w : World) (main_link : Element)
  : Group :=
  let h := attr_or_empty (href main_link) in
  let fresh := attr_truthy (href main_link)
               && negb (href_in h (processed_hrefs_for_group g)) in
  {| links_from_this_class_group :=
       if fresh then links_from_this_class_group g ++ [main_link]
       else links_from_this_class_group g;
     processed_hrefs_for_group :=
       if fresh then h :: processed_hrefs_for_group g
       else processed_hrefs_for_group g;
     consecutive_none_returns := 0;
     last_main_link := Some main_link;
     page := w |}.

(** No link for this container: one more consecutive failure. *)
Definition record_none (g : Group) (w : World) : Group :=
  {| links_from_this_class_group := links_from_this_class_group g;
     processed_hrefs_for_group := processed_hrefs_for_group g;
     consecutive_none_returns := S (consecutive_none_returns g);
     last_main_link := None;
     page := w |}.

Definition max_scroll_attempts : nat := 5.

(** The [while scroll_attempts < max_scroll_attempts] loop, with
    [remaining = max_scroll_attempts - scroll_attempts]. *)
Fixpoint scroll_retry (remaining : nat) (w : World) (container : Handle)
  : Outcome World (option Element) :=
  match remaining with
  | 0 => Done None w
  | S r =>
      match scroll_wait w with
      | Throws e w' => Throws e w'
      | Done _ w' =>
          match get_main_link w' container with
          | None => Throws StaleElementReferenceException w'
          | Some (Some main_link) => Done (Some main_link) w'
          | Some None => scroll_retry r w' container
          end
      end
  end.

(** The body of [for idx, container in enumerate(visible_containers)]
    up to the abort test. *)
Definition container_step (g : Group) (container : Handle)
  : World + Group :=
  match get_main_link (page g) container with
  | None => inl (page g)
  | Some (Some main_link) => inr (record_link g (page g) main_link)
  | Some None =>
      match last_main_link g with
      | Some _ =>
          match scroll_height (page g) with
          | Throws _ w0 => inl w0
          | Done _ w0 =>
              match scroll_retry max_scroll_attempts w0 container with
              | Throws _ w' => inl w'
              | Done (Some main_link) w' => inr (record_link g w' main_link)
              | Done None w' => inr (record_none g w')
              end
          end
      | None => inr (record_none g (page g))
      end
  end.

(** The container loop. On normal exit the second component is the
    suffix of [visible_containers] the loop never reached; [inl w] is an
    exception leaving the loop with the page as [w]. *)
Fixpoint process_containers (g : Group) (visible_containers : list Handle)
  : World + Group * list Handle :=
  match visible_containers with
  | [] => inr (g, [])
  | container :: rest =>
      match container_step g container with
      | inl w => inl w
      | inr g' =>
          if 2 <=? consecutive_none_returns g' then inr (g', rest)
          else process_containers g' rest
      end
  end.

Definition new_group (w : World) : Group :=
  {| links_from_this_class_group := [];
     processed_hrefs_for_group := [];
     consecutive_none_returns := 0;
     last_main_link := None;
     page := w |}.

(** ["." + ".".join(class_tuple)]. *)
Definition class_selector_value (class_tuple : list string) : string :=
  String.append "." (String.concat "." class_tuple).

Inductive Attempt :=
| Found (links : list Element) (selector : string) (w : World)
| NotEnough (w : World)
| Raised (w : World).

(** The [try] body for one candidate class combination; whatever raises
    in it drops the candidate. *)
Definition try_candidate (w : World) (class_tuple : list string) : Attempt :=
  let selector := class_selector_value class_tuple in
  match find_elements w selector with
  | None => Raised w
  | Some visible_containers =>
      if min_products_for_list <=? List.length visible_containers then
        match inner_height w with
        | Throws _ w0 => Raised w0
        | Done _ w0 =>
            match process_containers (new_group w0) visible_containers with
            | inl w' => Raised w'
            | inr (g, _) =>
                if min_products_for_list
                   <=? List.length (links_from_this_class_group g)
                then Found (links_from_this_class_group g) selector (page g)
                else NotEnough (page g)
            end
        end
      else NotEnough w
  end.

(** [for class_tuple, count in sorted_frequent_classes]: the first
    candidate that is [Found] is returned, any other outcome moves on.
    [None] is the final [return None, None, None]. *)
Fixpoint candidates_loop (w : World)
    (sorted_frequent_classes : list (list string * nat))
  : option (list Element * string) * World :=
  match sorted_frequent_classes with
  | [] => (None, w)
  | (class_tuple, count) :: later =>
      match class_tuple with
      | [] => candidates_loop w later
      | _ =>
          match try_candidate w class_tuple with
          | Found links selector w' => (Some (links, selector), w')
          | NotEnough w' => candidates_loop w' later
          | Raised w' => candidates_loop w' later
          end
      end
  end.

(** [find_products]: [elements_to_analyze] is the result of the XPath
    query for li, div, article and section elements. *)
Definition find_products (w : World)
    (elements_to_analyze : list PageElement)
  : option (list Element * string) * World :=
  candidates_loop w (sorted_frequent_classes elements_to_analyze).

End Discovery.

(* ================================================================== *)
(** * The extraction fallback: [extract_with_deepseek] *)
(* ================================================================== *)

(** What [client.chat.completions.create] can do: raise (timeout, network,
    authentication), hand back a falsy response, or a response whose
    [choices] carry a [message.content] each ([None] when absent). *)
Inductive ApiOutcome :=
| ApiRaises
| ApiEmpty
| ApiChoices (choices : list (option string)).

Definition price_prompt : string :=
  String.append "Extract the product price from this HTML content. " "
        Return only the price as a string with a $ symbol (e.g. $99.99).
        If you cannot find the price, return None.".

Definition title_prompt : string :=
  "Extract the product title from this HTML content.
        Return only the title as a string. Do not include any other text.
        If you cannot find the title, return None.".

Definition html_limit : N := 100000.

(** [html_content[:100000] + "..."] when longer than the limit. *)
Definition truncate_html (html_content : string) : string :=
  if (html_limit <? N.of_nat (String.length html_content))%N
  then String.append (String.substring 0 (N.to_nat html_limit) html_content)
                     "..."
  else html_content.

(** The [if]/[elif]/[else] that picks the prompt; [None] for a field
    that is neither. *)
Definition prompt_for (target_field : string) : option string :=
  if String.eqb target_field "price" then Some price_prompt
  else if String.eqb target_field "title" then Some title_prompt
  else None.

Section Fallback.

(** The chat-completion endpoint, as a function of the prompt and of the
    HTML it is sent. *)
Variable api : string -> string -> ApiOutcome.

Definition extract_with_deepseek (html_content target_field : string)
  : option string :=
  let html_content := truncate_html html_content in
  match prompt_for target_field with
  | None => None                                (* else: return None *)
  | Some prompt =>
      match api prompt html_content with
      | ApiRaises => None                       (* except Exception *)
      | ApiEmpty => None
      | ApiChoices [] => None
      | ApiChoices (None :: _) => None          (* None.strip() raises *)
      | ApiChoices (Some content :: _) =>
          let extracted_text := Py.strip content in
          if String.eqb (Py.lower extracted_text) "none"
             || negb (Py.truthy extracted_text)
          then None
          else Some extracted_text
      end
  end.

End Fallback.

(* ================================================================== *)
(** * Records and [extract_product_info] *)
(* ================================================================== *)

(** The [product_info] dict; a key that was never set is [None]. *)
Record ProductInfo := {
  pi_title : option string;
  pi_price : option string;
  pi_url : option string
}.

(** What the product page offers to [extract_product_info]: the values the
    title and price selector loops end with ([None]: key not set), and the
    driver reads, [None] when the read raises. *)
Record DetailPage := {
  selected_title : option string;
  selected_price : option string;
  detail_url : Exn + string;           (* driver.current_url *)
  page_source : option string          (* driver.page_source *)
}.

Definition is_digit (c : ascii) : bool :=
  let n := nat_of_ascii c in (48 <=? n) && (n <=? 57).

(** [re.search(r'\$\d+', s)] finds a match. *)
Fixpoint has_dollar_digits (s : string) : bool :=
  match s with
  | EmptyString => false
  | String c s' =>
      (Ascii.eqb c "$"%char
       && match s' with String d _ => is_digit d | EmptyString => false end)
      || has_dollar_digits s'
  end.

Section Extraction.

Variable api : string -> string -> ApiOutcome.

(** One guarded fallback attempt: [try: page_source; extract...; except]. *)
Definition fallback (p : DetailPage) (target_field : string)
  : option string :=
  match page_source p with
  | None => None
  | Some page_html =>
      match extract_with_deepseek api page_html target_field with
      | Some v => if Py.truthy v then Some v else None
      | None => None
      end
  end.

Definition has_valid_price (price : option string) : bool :=
  if attr_truthy price then
    let price_str := attr_or_empty price in
    if has_dollar_digits price_str then
      if String.eqb price_str "$0.00" then false else true
    else false
  else false.

Definition extract_product_info (p : DetailPage) : Exn + ProductInfo :=
  match detail_url p with
  | inl e => inl e
  | inr url =>
      let info := {| pi_title := selected_title p;
                     pi_price := selected_price p;
                     pi_url := Some url |} in
      if attr_truthy (pi_url info) then
        let info :=
          if negb (attr_truthy (pi_title info)) then
            match fallback p "title" with
            | Some extracted_title =>
                {| pi_title := Some extracted_title;
                   pi_price := pi_price info; pi_url := pi_url info |}
            | None => info
            end
          else info in
        let info :=
          if negb (has_valid_price (pi_price info)) then
            match fallback p "price" with
            | Some extracted_price =>
                {| pi_title := pi_title info;
                   pi_price := Some extracted_price; pi_url := pi_url info |}
            | None => info
            end
          else info in
        inr info
      else inr info
  end.

End Extraction.

(* ================================================================== *)
(** * The browser driver and the record loop of [search_and_scrape] *)
(* ================================================================== *)

Definition WinHandle := nat.

(** The driver calls the session makes. Each takes the browser as it is
    and leaves it as it becomes, whether it completes or raises. *)
Record Driver (World Handle : Type) := {
  drv_look : World -> Handle -> option Container;
  drv_find_elements : string -> World -> Outcome World (list Handle);
  drv_get_href : Element -> World -> Outcome World (option string);
  drv_tag_name : Element -> World -> Outcome World string;
  drv_current_window_handle : World -> Outcome World WinHandle;
  drv_click : Element -> World -> Outcome World unit;
  drv_js_click : Element -> World -> Outcome World unit;
  drv_window_handles : World -> Outcome World (list WinHandle);
  drv_switch_to_window : WinHandle -> World -> Outcome World unit;
  drv_scroll_by : World -> World;      (* scrollBy and its 1 s pause, inside
                                          their own try/except *)
  drv_detail : World -> DetailPage;
  drv_api : World -> string -> string -> ApiOutcome;
  drv_append_line : World -> Outcome World unit;   (* open(...,"a"), dump *)
  drv_close : World -> Outcome World unit;
  drv_back : World -> Outcome World unit;
  drv_current_url : World -> Outcome World string;
  drv_sleep : nat -> World -> World    (* milliseconds *)
}.

(** What one pass through the [with open(...)] block leaves in the output
    file: the whole line of a record, or, when the write raises, a
    beginning of that line (the separating newline and the JSON text as far
    as they got out, possibly nothing). *)
Inductive Written :=
| Whole (product_info : ProductInfo)
| Torn (product_info : ProductInfo).

(** The record a line, whole or torn, was written from. *)
Definition written_from (l : Written) : ProductInfo :=
  match l with
  | Whole product_info => product_info
  | Torn product_info => product_info
  end.

(** A local variable of the function: unbound until first assigned. *)
Inductive Var (A : Type) := Unbound | Bound (a : A).
Arguments Unbound {A}.
Arguments Bound {A} a.

Inductive LoopCtl := Continue | Break.

Section Session.

Variables World Handle : Type.
Variable D : Driver World Handle.
Variable starting_website : string.

(** The browser, the output file and the locals that live across
    iterations. *)
Record Session := {
  world : World;
  sink : list Written;                   (* what is in the JSONL file *)
  products_count : nat;
  processed_product_hrefs_on_page : list (option string);
  new_window : Var (option WinHandle);
  main_window : Var WinHandle
}.

Definition M (A : Type) := Session -> Outcome Session A.

Definition ret {A} (a : A) : M A := fun s => Done a s.
Definition raise {A} (e : Exn) : M A := fun s => Throws e s.
Definition bind {A B} (m : M A) (k : A -> M B) : M B :=
  fun s => match m s with
           | Done a s' => k a s'
           | Throws e s' => Throws e s'
           end.

Definition with_world (s : Session) (w : World) : Session :=
  {| world := w; sink := sink s; products_count := products_count s;
     processed_product_hrefs_on_page := processed_product_hrefs_on_page s;
     new_window := new_window s; main_window := main_window s |}.

(** Run a driver call on the session's browser. *)
Definition call {A} (op : World -> Outcome World A) : M A :=
  fun s => match op (world s) with
           | Done a w => Done a (with_world s w)
           | Throws e w => Throws e (with_world s w)
           end.

Definition pass (f : World -> World) : M unit :=
  fun s => Done tt (with_world s (f (world s))).

Definition get : M Session := fun s => Done s s.

Definition set_new_window (v : option WinHandle) : M unit :=
  fun s => Done tt
    {| world := world s; sink := sink s; products_count := products_count s;
       processed_product_hrefs_on_page := processed_product_hrefs_on_page s;
       new_window := Bound v; main_window := main_window s |}.

Definition set_main_window (h : WinHandle) : M unit :=
  fun s => Done tt
    {| world := world s; sink := sink s; products_count := products_count s;
       processed_product_hrefs_on_page := processed_product_hrefs_on_page s;
       new_window := new_window s; main_window := Bound h |}.

(** Reading a local that was never assigned raises [UnboundLocalError]. *)
Definition read {A} (v : Session -> Var A) : M A :=
  fun s => match v s with
           | Bound a => Done a s
           | Unbound => Throws OtherException s
           end.

Local Notation "x <- m ;; k" := (bind m (fun x => k))
  (at level 61, m at next level, right associativity).
Local Notation "m ;;; k" := (bind m (fun _ => k))
  (at level 61, right associativity).

Definition add_processed (target_href : option string) : M unit :=
  fun s => Done tt
    {| world := world s; sink := sink s; products_count := products_count s;
       processed_product_hrefs_on_page :=
         target_href :: processed_product_hrefs_on_page s;
       new_window := new_window s; main_window := main_window s |}.

(** The [with open(...)] block: the record becomes a line of the file;
    when the write raises, what got out before stays in the file. *)
Definition write_record (product_info : ProductInfo) : M unit :=
  fun s => match drv_append_line D (world s) with
           | Done _ w =>
               Done tt
                 {| world := w; sink := sink s ++ [Whole product_info];
                    products_count := products_count s;
                    processed_product_hrefs_on_page :=
                      processed_product_hrefs_on_page s;
                    new_window := new_window s;
                    main_window := main_window s |}
           | Throws e w =>
               Throws e
                 {| world := w; sink := sink s ++ [Torn product_info];
                    products_count := products_count s;
                    processed_product_hrefs_on_page :=
                      processed_product_hrefs_on_page s;
                    new_window := new_window s;
                    main_window := main_window s |}
           end.

Definition count_product : M unit :=
  fun s => Done tt
    {| world := world s; sink := sink s;
       products_count := products_count s + 1;
       processed_product_hrefs_on_page := processed_product_hrefs_on_page s;
       new_window := new_window s; main_window := main_window s |}.

Definition opt_href_eqb (a b : option string) : bool :=
  match a, b with
  | Some x, Some y => String.eqb x y
  | None, None => true
  | _, _ => false
  end.

(** Pick the element to click for product [i]: the initial list for the
    first product, a fresh query and a fresh link extraction after. *)
Definition locate (product_elements : list Element) (selector : string)
    (i : nat) : M (option Element) :=
  if (0 <? i) && Py.truthy selector then
    refreshed_container_elements <- call (drv_find_elements D selector) ;;
    match nth_error refreshed_container_elements i with
    | Some specific_container =>
        s <- get ;;
        ret (match drv_look D (world s) specific_container with
             | Some c => _get_main_link_from_container c
             | None => None
             end)
    | None => ret None
    end
  else ret (nth_error product_elements i).

(** [click()], with the script click when the click is intercepted. *)
Definition click_product (element : Element) : M unit :=
  fun s => match call (drv_click D element) s with
           | Throws ElementClickInterceptedException s' =>
               call (drv_js_click D element) s'
           | r => r
           end.

Fixpoint first_other (main : WinHandle) (handles : list WinHandle)
  : option WinHandle :=
  match handles with
  | [] => None
  | handle :: rest =>
      if handle =? main then first_other main rest else Some handle
  end.

Definition switch_to_popup (main : WinHandle) : M unit :=
  set_new_window None ;;;
  handles <- call (drv_window_handles D) ;;
  if 1 <? List.length handles then
    handles' <- call (drv_window_handles D) ;;
    match first_other main handles' with
    | Some handle =>
        set_new_window (Some handle) ;;;
        call (drv_switch_to_window D handle)
    | None => ret tt
    end
  else ret tt.

Definition persist (target_href : option string)
    (product_info : ProductInfo) : M unit :=
  if attr_truthy (pi_url product_info) then
    add_processed target_href ;;;
    write_record product_info ;;;
    count_product
  else ret tt.

Definition leave_product : M unit :=
  popup <- read new_window ;;
  match popup with
  | Some _ =>
      call (drv_close D) ;;;
      main <- read main_window ;;
      call (drv_switch_to_window D main)
  | None => call (drv_back D)
  end.

Definition extract : M ProductInfo :=
  fun s => match extract_product_info (drv_api D (world s))
                                      (drv_detail D (world s)) with
           | inr product_info => Done product_info s
           | inl e => Throws e s
           end.

(** The [try] body of one iteration of [for i in range(...)]. *)
Definition visit (product_elements : list Element) (selector : string)
    (i : nat) : M LoopCtl :=
  current <- locate product_elements selector i ;;
  match current with
  | None => ret Continue
  | Some current_product_element_to_click =>
      target_href <- call (drv_get_href D current_product_element_to_click) ;;
      s <- get ;;
      if existsb (opt_href_eqb target_href)
                 (processed_product_hrefs_on_page s)
      then ret Continue
      else
        main <- call (drv_current_window_handle D) ;;
        set_main_window main ;;;
        click_product current_product_element_to_click ;;;
        switch_to_popup main ;;;
        pass (drv_sleep D 1000) ;;;
        pass (drv_scroll_by D) ;;;
        product_info <- extract ;;
        persist target_href product_info ;;;
        leave_product ;;;
        pass (drv_sleep D 3000) ;;;
        ret Continue
  end.

Definition go_back_unless_listing : M unit :=
  url <- call (drv_current_url D) ;;
  if negb (String.eqb url starting_website) then
    url' <- call (drv_current_url D) ;;
    if negb (Py.contains "search" (Py.lower url')) then call (drv_back D)
    else ret tt
  else ret tt.

(** The [try] inside [except Exception]: close a popup the driver is
    on, else go back unless on the listing. *)
Definition recover : M unit :=
  popup <- read new_window ;;
  (match popup with
   | Some handle =>
       current <- call (drv_current_window_handle D) ;;
       if current =? handle then
         call (drv_close D) ;;;
         main <- read main_window ;;
         call (drv_switch_to_window D main)
       else go_back_unless_listing
   | None => go_back_unless_listing
   end) ;;;
  pass (drv_sleep D 2000).

(** One iteration with its handlers: a stale reference leaves the loop,
    any other exception recovers and goes on, or leaves the loop when the
    recovery raises. *)
Definition record_iteration (product_elements : list Element)
    (selector : string) (i : nat) (s : Session) : LoopCtl * Session :=
  match visit product_elements selector i s with
  | Done ctl s' => (ctl, s')
  | Throws StaleElementReferenceException s' => (Break, s')
  | Throws _ s' =>
      match recover s' with
      | Done _ s'' => (Continue, s'')
      | Throws _ s'' => (Break, s'')
      end
  end.

(** [for i in range(products_to_process_on_this_page)], from [i] with
    [todo] iterations left. *)
Fixpoint record_loop (product_elements : list Element) (selector : string)
    (i todo : nat) (s : Session) : Session :=
  match todo with
  | 0 => s
  | S todo' =>
      match record_iteration product_elements selector i s with
      | (Break, s') => s'
      | (Continue, s') =>
          record_loop product_elements selector (S i) todo' s'
      end
  end.

(** The records of one listing page: a fresh per-page ledger, at most
    [max_products_per_page] products. *)
Definition scrape_page (product_elements : list Element) (selector : string)
    (max_products_per_page : nat) (s : Session) : Session :=
  let products_to_process_on_this_page :=
    Nat.min max_products_per_page (List.length product_elements) in
  record_loop product_elements selector 0 products_to_process_on_this_page
    {| world := world s; sink := sink s; products_count := products_count s;
       processed_product_hrefs_on_page := [];
       new_window := new_window s; main_window := main_window s |}.

(* ---------------------------------------------------------------- *)
(** ** Pagination: [try_next_page_button] *)

Definition same_element (a b : Element) : bool := node a =? node b.

(** The click-and-verify part shared by the direct and the script
    click: settle for 3 s, read the URL, compare. *)
Definition verify (current_url : string) (w : World)
  : Outcome World (bool * string) :=
  match drv_current_url D (drv_sleep D 3000 w) with
  | Done new_url w' =>
      if negb (String.eqb new_url current_url)
      then Done (true, new_url) w'
      else Done (false, current_url) w'
  | Throws e w' => Throws e w'
  end.

(** Returns the verdict, the URL, and the [tried_buttons] set as the
    call leaves it. [current_url = None] reads it from the driver, which
    may raise out of the function. *)
Definition try_next_page_button (button : Element)
    (current_url : option string) (tried_buttons : list Element)
    (w : World) : Outcome World (bool * string * list Element) :=
  match (match current_url with
         | Some u => Done u w
         | None => drv_current_url D w
         end) with
  | Throws e w0 => Throws e w0
  | Done current_url w0 =>
      if existsb (same_element button) tried_buttons
      then Done (false, current_url, tried_buttons) w0
      else
        let tried_buttons := button :: tried_buttons in
        let failed w' := Done (false, current_url, tried_buttons) w' in
        let verdict r :=
          match r with
          | Done (success, url) w' => Done (success, url, tried_buttons) w'
          | Throws _ w' => failed w'
          end in
        match drv_tag_name D button w0 with
        | Throws ElementClickInterceptedException w1 =>
            match drv_js_click D button w1 with
            | Done _ w2 => verdict (verify current_url w2)
            | Throws _ w2 => failed w2
            end
        | Throws _ w1 => failed w1
        | Done _ w1 =>
            match drv_click D button w1 with
            | Done _ w2 =>
                match verify current_url w2 with
                | Throws ElementClickInterceptedException w3 =>
                    match drv_js_click D button w3 with
                    | Done _ w4 => verdict (verify current_url w4)
                    | Throws _ w4 => failed w4
                    end
                | r => verdict r
                end
            | Throws ElementClickInterceptedException w2 =>
                match drv_js_click D button w2 with
                | Done _ w3 => verdict (verify current_url w3)
                | Throws _ w3 => failed w3
                end
            | Throws _ w2 => failed w2
            end
        end
  end.

End Session.

(* ================================================================== *)
(** * [deduplicate_jsonl.py] *)
(* ================================================================== *)

(** Values [json.loads] produces, with integers for numbers; an object is
    the item list of its dict. *)
Inductive Json :=
| JNull
| JBool (b : bool)
| JInt (z : Z)
| JStr (s : string)
| JArr (items : list Json)
| JObj (fields : list (string * Json)).

(** Python truthiness. *)
Definition json_truthy (v : Json) : bool :=
  match v with
  | JNull => false
  | JBool b => b
  | JInt z => negb (z =? 0)%Z
  | JStr s => Py.truthy s
  | JArr items => match items with [] => false | _ => true end
  | JObj fields => match fields with [] => false | _ => true end
  end.

(** Lists and dicts cannot be dict keys. *)
Definition hashable (v : Json) : bool :=
  match v with
  | JArr _ | JObj _ => false
  | _ => true
  end.

(** Equality of dict keys: [True == 1], and otherwise by value. *)
Definition key_eqb (a b : Json) : bool :=
  match a, b with
  | JNull, JNull => true
  | JBool x, JBool y => Bool.eqb x y
  | JBool x, JInt y | JInt y, JBool x => ((if x then 1 else 0) =? y)%Z
  | JInt x, JInt y => (x =? y)%Z
  | JStr x, JStr y => String.eqb x y
  | _, _ => false
  end.

(** A line of the input file after [strip()] and [json.loads]. *)
Inductive Line :=
| Blank
| Invalid                   (* JSONDecodeError: warned about and skipped *)
| Parsed (record : Json).

Definition read_records (lines : list Line) : list Json :=
  flat_map (fun l => match l with Parsed r => [r] | _ => [] end) lines.

(** [record.get(key_field)]: [None] of Python is [JNull]; the outer
    [None] is the AttributeError of a record that is not a dict. *)
Definition record_get (record : Json) (key_field : string) : option Json :=
  match record with
  | JObj fields =>
      match Py.get String.eqb fields key_field with
      | Some v => Some v
      | None => Some JNull
      end
  | _ => None
  end.

(** The comprehension feeding [Counter]: it raises on a record without
    [get] and on a truthy key that is not hashable. *)
Fixpoint keys_countable (records : list Json) (key_field : string) : bool :=
  match records with
  | [] => true
  | record :: rest =>
      match record_get record key_field with
      | None => false
      | Some v =>
          (negb (json_truthy v) || hashable v)
          && keys_countable rest key_field
      end
  end.

(** The de-duplication loop; [unique_records] in insertion order. *)
Fixpoint dedup_loop (unique_records : list (Json * Json))
    (records : list Json) (key_field : string) : list (Json * Json) :=
  match records with
  | [] => unique_records
  | record :: rest =>
      let key := match record_get record key_field with
                 | Some v => v | None => JNull end in
      let unique_records :=
        if json_truthy key then
          match Py.get key_eqb unique_records key with
          | Some _ => unique_records
          | None => unique_records ++ [(key, record)]
          end
        else unique_records in
      dedup_loop unique_records rest key_field
  end.

Record Dedup := {
  written : option (list Json);     (* the output file, when it is written *)
  report : nat * nat * Z            (* input, output, duplicates removed *)
}.

(** [deduplicate_jsonl_file] on an input file that exists. *)
Definition deduplicate_jsonl_file (lines : list Line) (key_field : string)
  : Dedup :=
  let records := read_records lines in
  if keys_countable records key_field then
    let unique_records := dedup_loop [] records key_field in
    let num_input := List.length records in
    let num_output := List.length unique_records in
    let num_duplicates := (Z.of_nat num_input - Z.of_nat num_output)%Z in
    {| written := Some (map snd unique_records);
       report := (num_input, num_output, num_duplicates) |}
  else
    {| written := None; report := (0, 0, 0%Z) |}.

(* ================================================================== *)
(** * Locating the search box and the next-page control *)
(* ================================================================== *)

(** Selenium's locator strategies. *)
Inductive By := NAME | XPATH | ID | CSS_SELECTOR | TAG_NAME.

(** One read of an input element; [None] in [in_displayed] stands for an
    element whose reads raise. *)
Record InputView := {
  in_node : nat;
  in_displayed : option bool;
  in_type : option string;         (* get_attribute("type") *)
  in_id : option string;
  in_class : option string;
  in_placeholder : option string
}.

Definition search_terms : list string :=
  ["search"; "query"; "keyword"; "find"].

Definition attr_eqb (a : option string) (s : string) : bool :=
  match a with Some v => String.eqb v s | None => false end.

Definition _is_likely_search_box (element : InputView) : bool :=
  let element_type := in_type element in
  if attr_eqb element_type "search" || attr_eqb element_type "text" then true
  else
    let element_id := attr_or_empty (in_id element) in
    let element_class := attr_or_empty (in_class element) in
    if existsb (fun term =>
                  Py.contains term (Py.lower element_id)
                  || Py.contains term (Py.lower element_class))
               search_terms
    then true
    else
      let placeholder := attr_or_empty (in_placeholder element) in
      existsb (fun term => Py.contains term (Py.lower placeholder))
              search_terms.

Definition search_selectors : list (By * string) :=
  [(NAME, "q"); (NAME, "query"); (NAME, "search"); (NAME, "searchTerm");
   (NAME, "keyword");
   (XPATH, "//input[contains(@placeholder, 'search')]");
   (ID, "search"); (ID, "searchbox"); (ID, "search-input");
   (CSS_SELECTOR, ".search-box"); (CSS_SELECTOR, ".search-input");
   (CSS_SELECTOR, "[role='search'] input");
   (CSS_SELECTOR, "[data-test*='search'] input");
   (CSS_SELECTOR, "[data-testid*='search'] input");
   (TAG_NAME, "input")].

(** The [for element in elements] loop under one selector: the first
    displayed, non-hidden, likely element; [None] when there is none or a
    read raises, which both move on to the next selector. *)
Fixpoint scan_inputs (elements : list InputView) : option InputView :=
  match elements with
  | [] => None
  | element :: rest =>
      match in_displayed element with
      | None => None
      | Some shown =>
          if shown && negb (attr_eqb (in_type element) "hidden")
             && _is_likely_search_box element
          then Some element
          else scan_inputs rest
      end
  end.

Section SearchBox.

(** [driver.find_elements(selector_type, selector)] on the page the search
    starts from; [None] when it raises. *)
Variable find_inputs : By -> string -> option (list InputView).

Fixpoint search_box_among (selectors : list (By * string))
  : option InputView :=
  match selectors with
  | [] => None
  | (selector_type, selector) :: later =>
      match find_inputs selector_type selector with
      | None => search_box_among later
      | Some elements =>
          match scan_inputs elements with
          | Some element => Some element
          | None => search_box_among later
          end
      end
  end.

Definition find_search_box : option InputView :=
  search_box_among search_selectors.

End SearchBox.

(** A candidate next-page control: the element and what [is_displayed()]
    and [is_enabled()] answer, [None] when the read raises. *)
Record Control := {
  ctl_element : Element;
  ctl_displayed : option bool;
  ctl_enabled : option bool
}.

Definition next_button_selectors : list (By * string) :=
  [(CSS_SELECTOR,
    "[data-testid='NextPage'], [data-test='next'], [data-testid*='next']");
   (CSS_SELECTOR, "[aria-label*='next' i], [aria-label*='Next' i]");
   (CSS_SELECTOR, "[class*='next'], .styles_next");
   (XPATH, "//a[.//i[contains(@class, 'ChevronRight')]] | //button[.//svg]");
   (XPATH, "//*[contains(translate(text(), 'NEXT', 'next'), 'next')]");
   (CSS_SELECTOR, ".pagination .next, .pagination-next")].

(** How the loop under one selector ends: it returns an element, or goes
    on to the next selector with the buttons gathered so far. *)
Inductive Scan :=
| Return (element : Element)
| Next (all_buttons : list Element).

(** What [find_next_page_button] returns: one button or [None], or in
    [return_all] mode the list of all buttons. *)
Inductive NextButtons :=
| One (button : option Element)
| Many (all_buttons : list Element).

Definition element_in (element : Element) (buttons : list Element) : bool :=
  existsb (fun b => node element =? node b) buttons.

Fixpoint scan_controls (exclude_buttons : list Element) (return_all : bool)
    (elements : list Control) (all_buttons : list Element) : Scan :=
  match elements with
  | [] => Next all_buttons
  | c :: rest =>
      let element := ctl_element c in
      if element_in element exclude_buttons
      then scan_controls exclude_buttons return_all rest all_buttons
      else
        match ctl_displayed c with
        | None => Next all_buttons                       (* except: continue *)
        | Some false =>
            scan_controls exclude_buttons return_all rest all_buttons
        | Some true =>
            match ctl_enabled c with
            | None => Next all_buttons
            | Some false =>
                scan_controls exclude_buttons return_all rest all_buttons
            | Some true =>
                if return_all
                then scan_controls exclude_buttons return_all rest
                       (all_buttons ++ [element])
                else Return element
            end
        end
  end.

Section NextButton.

(** [driver.find_elements(selector_type, selector)] on the listing;
    [None] when it raises. *)
Variable find_controls : By -> string -> option (list Control).

Fixpoint next_button_among (exclude_buttons : list Element)
    (return_all : bool) (selectors : list (By * string))
    (all_buttons : list Element) : NextButtons :=
  match selectors with
  | [] => if return_all then Many all_buttons else One None
  | (selector_type, selector) :: later =>
      match find_controls selector_type selector with
      | None =>
          next_button_among exclude_buttons return_all later all_buttons
      | Some elements =>
          match scan_controls exclude_buttons return_all elements
                  all_buttons with
          | Return element => One (Some element)
          | Next all_buttons =>
              next_button_among exclude_buttons return_all later all_buttons
          end
      end
  end.

Definition find_next_page_button (exclude_buttons : list Element)
    (return_all : bool) : NextButtons :=
  next_button_among exclude_buttons return_all next_button_selectors [].

Definition find_alternative_next_buttons (exclude_buttons : list Element)
  : NextButtons :=
  find_next_page_button exclude_buttons true.

End NextButton.

(* ================================================================== *)
(** * The page loop of [search_and_scrape] *)
(* ================================================================== *)

(** How one turn of [for page_num in range(max_pages)] ends. *)
Inductive PageCtl := Advance | Stop.

Section Site.

Variables World Handle : Type.
Variable D : Driver World Handle.
Variable starting_website : string.

(** [urlparse(url).netloc]; [None] when [urlparse] raises ValueError. *)
Variable urlparse_netloc : string -> option string.
(** [driver.get(starting_website)] and the wait for the body. *)
Variable open_site : World -> Outcome World unit.
(** The queries of [find_search_box] on a page. *)
Variable find_inputs : World -> By -> string -> option (list InputView).
(** [clear()], the two [send_keys] and the 8 s pause. *)
Variable submit_search : InputView -> string -> World -> Outcome World unit.
(** The XPath query for li, div, article and section elements. *)
Variable elements_to_analyze : World -> Outcome World (list PageElement).
(** The height reads, the scroll step and the CSS query of the container
    loop. *)
Variable inner_height : World -> Outcome World unit.
Variable scroll_height : World -> Outcome World unit.
Variable scroll_wait : World -> Outcome World unit.
Variable css_containers : World -> string -> option (list Handle).
(** The queries of [find_next_page_button] on a page. *)
Variable find_controls : World -> By -> string -> option (list Control).

(** [for alt_button in alternative_buttons], leaving at the first
    success; the verdict of the last attempt and the tried set. *)
Fixpoint try_alternatives (alternative_buttons : list Element)
    (current_url : string) (tried_buttons : list Element) (w : World)
  : Outcome World (bool * list Element) :=
  match alternative_buttons with
  | [] => Done (false, tried_buttons) w
  | alt_button :: rest =>
      match try_next_page_button D alt_button (Some current_url)
              tried_buttons w with
      | Throws e w' => Throws e w'
      | Done (true, _, tried_buttons') w' => Done (true, tried_buttons') w'
      | Done (false, _, tried_buttons') w' =>
          try_alternatives rest current_url tried_buttons' w'
      end
  end.

(** The [if page_num < max_pages - 1] branch: look for the next button,
    click and verify, fall back on the other buttons. The tried set is
    handed back with the verdict. *)
Definition paginate (w : World) : Outcome World (PageCtl * list Element) :=
  match find_next_page_button (find_controls w) [] false with
  | One (Some next_button) =>
      match drv_current_url D w with
      | Throws e w' => Throws e w'
      | Done current_url w1 =>
          match try_next_page_button D next_button (Some current_url) []
                  w1 with
          | Throws e w2 => Throws e w2
          | Done (true, _, tried_buttons) w2 => Done (Advance, tried_buttons) w2
          | Done (false, _, tried_buttons) w2 =>
              match find_alternative_next_buttons (find_controls w2)
                      tried_buttons with
              | Many (alt :: alts) =>
                  match try_alternatives (alt :: alts) current_url
                          tried_buttons w2 with
                  | Throws e w3 => Throws e w3
                  | Done (true, tried_buttons') w3 =>
                      Done (Advance, tried_buttons') w3
                  | Done (false, tried_buttons') w3 =>
                      Done (Stop, tried_buttons') w3
                  end
              | _ => Done (Stop, tried_buttons) w2
              end
          end
      end
  | _ => Done (Stop, []) w
  end.

(** One page: discover the product links, visit them, paginate unless
    this is the last page allowed. *)
Definition page_turn (max_pages max_products_per_page page_num : nat)
    (s : Session World) : Outcome (Session World) PageCtl :=
  match elements_to_analyze (world s) with
  | Throws e w => Throws e (with_world s w)
  | Done elements w =>
      match find_products (drv_look D) inner_height scroll_height
              scroll_wait css_containers w elements with
      | (Some (product_elements, selector), w') =>
          match product_elements with
          | [] => Done Stop (with_world s w')
          | _ =>
              let s' := scrape_page D starting_website product_elements
                          selector max_products_per_page (with_world s w') in
              if page_num <? max_pages - 1 then
                match paginate (world s') with
                | Done (ctl, _) w'' => Done ctl (with_world s' w'')
                | Throws e w'' => Throws e (with_world s' w'')
                end
              else Done Stop s'
          end
      | (None, w') => Done Stop (with_world s w')
      end
  end.

(** [for page_num in range(max_pages)], from [page_num] with [todo]
    pages left. *)
Fixpoint page_loop (max_pages max_products_per_page page_num todo : nat)
    (s : Session World) : Outcome (Session World) unit :=
  match todo with
  | 0 => Done tt s
  | S todo' =>
      match page_turn max_pages max_products_per_page page_num s with
      | Throws e s' => Throws e s'
      | Done Stop s' => Done tt s'
      | Done Advance s' =>
          page_loop max_pages max_products_per_page (S page_num) todo' s'
      end
  end.

(** [search_and_scrape]: the number of products scraped and the state the
    call leaves, or [None] when [urlparse], called before the [try], raises
    out of the function. The counter starts at 0; the output file and the
    browser are as the caller hands them over. *)
Definition search_and_scrape (search_term : string)
    (max_pages max_products_per_page : nat) (w : World)
    (output_file : list Written) : option (nat * Session World) :=
  match urlparse_netloc starting_website with
  | None => None
  | Some domain =>
      let s0 := {| world := w; sink := output_file; products_count := 0;
                   processed_product_hrefs_on_page := [];
                   new_window := Unbound; main_window := Unbound |} in
      match open_site w with
      | Throws _ w1 => Some (0, with_world s0 w1)     (* top-level except *)
      | Done _ w1 =>
          match find_search_box (find_inputs w1) with
          | None => Some (0, with_world s0 w1)        (* return 0 *)
          | Some search_box =>
              match submit_search search_box search_term w1 with
              | Throws _ w2 => Some (0, with_world s0 w2)
              | Done _ w2 =>
                  match page_loop max_pages max_products_per_page 0
                          max_pages (with_world s0 w2) with
                  | Done _ s => Some (products_count s, s)
                  | Throws _ s => Some (products_count s, s)
                  end
              end
          end
      end
  end.

End Site.

Unset Implicit Arguments.

(* ================================================================== *)
(** * Properties of the class signature *)
(* ================================================================== *)

Section SortFacts.

Variable A : Type.
Variable le : A -> A -> bool.
Hypothesis le_total : forall x y, le x y = true \/ le y x = true.
Hypothesis le_antisym : forall x y, le x y = true -> le y x = true -> x = y.
Hypothesis le_trans :
  forall x y z, le x y = true -> le y z = true -> le x z = true.

Lemma insert_perm (x : A) (l : list A) :
  Permutation (Py.insert le x l) (x :: l).
Proof.
  induction l as [|y l IH]; simpl; [reflexivity|].
  destruct (le x y); [reflexivity|].
  rewrite IH. apply perm_swap.
Qed.

Lemma sort_by_perm (l : list A) : Permutation (Py.sort_by le l) l.
Proof.
  induction l as [|x l IH]; simpl; [constructor|].
  rewrite insert_perm. now constructor.
Qed.

Lemma insert_comm (x y : A) (l : list A) :
  Py.insert le x (Py.insert le y l) = Py.insert le y (Py.insert le x l).
Proof.
  induction l as [|z l IH]; simpl.
  - destruct (le x y) eqn:Hxy, (le y x) eqn:Hyx; try reflexivity.
    + now rewrite (le_antisym _ _ Hxy Hyx).
    + destruct (le_total x y); congruence.
  - destruct (le y z) eqn:Hyz, (le x z) eqn:Hxz; simpl;
      rewrite ?Hyz, ?Hxz.
    + destruct (le x y) eqn:Hxy, (le y x) eqn:Hyx; try reflexivity.
      * now rewrite (le_antisym _ _ Hxy Hyx).
      * destruct (le_total x y); congruence.
    + destruct (le x y) eqn:Hxy; [|reflexivity].
      rewrite (le_trans _ _ _ Hxy Hyz) in Hxz. discriminate.
    + destruct (le y x) eqn:Hyx; [|reflexivity].
      rewrite (le_trans _ _ _ Hyx Hxz) in Hyz. discriminate.
    + now rewrite IH.
Qed.

Lemma sort_by_of_perm (l1 l2 : list A) :
  Permutation l1 l2 -> Py.sort_by le l1 = Py.sort_by le l2.
Proof.
  induction 1; simpl.
  - reflexivity.
  - now f_equal.
  - apply insert_comm.
  - congruence.
Qed.

Lemma sort_by_eq_iff (l1 l2 : list A) :
  Py.sort_by le l1 = Py.sort_by le l2 <-> Permutation l1 l2.
Proof.
  split; [|apply sort_by_of_perm].
  intros E. rewrite <- (sort_by_perm l1), E. apply sort_by_perm.
Qed.

End SortFacts.

Lemma ascii_compare_refl (a : ascii) : Ascii.compare a a = Eq.
Proof. unfold Ascii.compare. apply N.compare_refl. Qed.

Lemma ascii_compare_lt_trans (a b c : ascii) :
  Ascii.compare a b = Lt -> Ascii.compare b c = Lt -> Ascii.compare a c = Lt.
Proof.
  unfold Ascii.compare. rewrite !N.compare_lt_iff. apply N.lt_trans.
Qed.

Lemma string_leb_trans (x y z : string) :
  String.leb x y = true -> String.leb y z = true -> String.leb x z = true.
Proof.
  unfold String.leb. revert y z.
  induction x as [|a x IH]; intros [|b y] [|c z]; simpl; try congruence.
  destruct (Ascii.compare a b) eqn:Hab; try congruence.
  - apply Ascii.compare_eq_iff in Hab. subst b.
    destruct (Ascii.compare a c); try congruence. apply IH.
  - destruct (Ascii.compare b c) eqn:Hbc; try congruence.
    + apply Ascii.compare_eq_iff in Hbc. subst c. now rewrite Hab.
    + now rewrite (ascii_compare_lt_trans a b c Hab Hbc).
Qed.

Lemma sorted_eq_iff (l1 l2 : list string) :
  Py.sorted l1 = Py.sorted l2 <-> Permutation l1 l2.
Proof.
  apply sort_by_eq_iff.
  - apply String.leb_total.
  - apply String.leb_antisym.
  - apply string_leb_trans.
Qed.

Lemma sig_eqb_refl (k : list string) : sig_eqb k k = true.
Proof. unfold sig_eqb. destruct (list_eq_dec string_dec k k); congruence. Qed.

(** A visible element carrying the class attribute [cls]. *)
Definition visible_with_class (cls : string) : PageElement :=
  {| pe_displayed := Some true; pe_class := Some cls |}.

(** C7, as stated: signatures agree exactly when the token sets agree. *)
Definition signature_is_token_set : Prop :=
  forall s1 s2 : string,
    class_signature s1 = class_signature s2 <->
    (forall t, In t (class_tokens s1) <-> In t (class_tokens s2)).

(** C7 fails as stated: the class attributes [a a] and [a] have the same
    set of tokens and different signatures, because the signature keeps a
    repeated token as often as it is written. *)
Lemma signature_not_token_set : ~ signature_is_token_set.
Proof.
  intros H. specialize (H "a a" "a").
  assert (E : class_signature "a a" = class_signature "a").
  { apply H. intros t. vm_compute. tauto. }
  vm_compute in E. discriminate.
Qed.

(** C7, amended: two class attributes have the same signature exactly when
    their token lists are permutations of each other (equal as multisets);
    and two visible elements whose non-empty token lists are permutations of
    each other are counted under one frequency key, with count 2. *)
Theorem signature_eq_iff_permutation (s1 s2 : string) :
  (class_signature s1 = class_signature s2 <->
   Permutation (class_tokens s1) (class_tokens s2)) /\
  (Permutation (class_tokens s1) (class_tokens s2) ->
   class_tokens s1 <> [] ->
   class_counts [visible_with_class s1; visible_with_class s2]
   = [(class_signature s1, 2)]).
Proof.
  split; [apply sorted_eq_iff|].
  intros P Hne.
  assert (E : class_signature s2 = class_signature s1)
    by (symmetry; now apply sorted_eq_iff).
  assert (Hsig : class_signature s1 <> []).
  { intros H0. apply Hne. apply Permutation_nil.
    unfold class_signature, Py.sorted in H0. rewrite <- H0.
    apply sort_by_perm. }
  assert (T : forall s, class_tokens s <> [] -> Py.truthy s = true).
  { intros [|c s] Hs; [|reflexivity]. now elim Hs. }
  assert (Hne2 : class_tokens s2 <> []).
  { intros H0. rewrite H0 in P. apply Hne.
    apply Permutation_nil. now symmetry. }
  unfold class_counts, count_step; simpl.
  rewrite (T _ Hne), (T _ Hne2), E.
  destruct (class_signature s1) as [|t sg] eqn:Es; [now elim Hsig|].
  simpl. rewrite sig_eqb_refl. reflexivity.
Qed.

Lemma signature_eq_iff_permutation_witness :
  Permutation (class_tokens "card item") (class_tokens " item  card") /\
  class_tokens "card item" <> [] /\
  class_counts [visible_with_class "card item";
                visible_with_class " item  card"]
  = [(class_signature "card item", 2)].
Proof.
  assert (P : Permutation (class_tokens "card item")
                          (class_tokens " item  card"))
    by (vm_compute; apply perm_swap).
  assert (N : class_tokens "card item" <> []) by (vm_compute; discriminate).
  split; [exact P|]. split; [exact N|].
  exact (proj2 (signature_eq_iff_permutation "card item" " item  card") P N).
Defined.

(* ================================================================== *)
(** * Properties of the container link extractor *)
(* ================================================================== *)

(** Priority 1 applies: the container is itself a visible link. *)
Definition is_visible_link (e : Element) : bool :=
  String.eqb (tag_name e) "a" && attr_truthy (href e) && displayed e.

(** A qualifying descendant anchor: visible, with an href that is not the
    [javascript:void(0)] placeholder, and with text or title longer than 5
    characters or of reasonable size. *)
Definition qualifying (container_element link : Element) : bool :=
  displayed link
  && attr_truthy (href link)
  && negb (Py.contains "javascript:void(0)" (attr_or_empty (href link)))
  && ((5 <? String.length (Py.strip (text link)))
      || (5 <? String.length (attr_or_empty (title link)))
      || _is_reasonable_size link true (Some container_element)).

Definition text_length (l : Element) : nat :=
  String.length (Py.strip (text l)).

Lemma consider_link_qualifying ce acc link :
  consider_link ce acc link
  = if qualifying ce link then acc ++ [link] else acc.
Proof.
  unfold consider_link, qualifying.
  destruct (displayed link); simpl; [|reflexivity].
  destruct (attr_truthy (href link)); simpl; [|reflexivity].
  destruct (Py.contains _ _); simpl; [reflexivity|].
  destruct (_ || _)%bool; simpl; [reflexivity|].
  now destruct (_is_reasonable_size _ _ _).
Qed.

Lemma potential_links_filter ce (l acc : list Element) :
  fold_left (consider_link ce) l acc = acc ++ filter (qualifying ce) l.
Proof.
  revert acc. induction l as [|x l IH]; intros acc; simpl.
  - now rewrite app_nil_r.
  - rewrite IH, consider_link_qualifying.
    destruct (qualifying ce x); [|reflexivity].
    now rewrite <- app_assoc.
Qed.

Lemma key_le_refl k : key_le k k = true.
Proof.
  unfold key_le. rewrite Nat.eqb_refl, Z.leb_refl.
  now rewrite orb_true_r.
Qed.

Lemma key_le_shorter (x best : Element) :
  text_length x < text_length best ->
  key_le (link_key x) (link_key best) = true
  /\ key_le (link_key best) (link_key x) = false.
Proof.
  unfold key_le, link_key, text_length; simpl. intros H.
  split.
  - apply orb_true_iff. left. now apply Nat.ltb_lt.
  - apply orb_false_iff. split.
    + apply Nat.ltb_ge. lia.
    + apply andb_false_iff. left. apply Nat.eqb_neq. lia.
Qed.

(** The sort puts a link of strictly longest text first, wherever it
    stood. *)
Lemma sort_links_top (l : list Element) (best : Element) :
  In best l ->
  (forall x, In x l -> x = best \/ text_length x < text_length best) ->
  exists rest, sort_links l = best :: rest.
Proof.
  unfold sort_links.
  set (before := fun x y => key_le (link_key y) (link_key x)).
  induction l as [|x l IH]; intros Hin Hmax; [contradiction|].
  simpl.
  assert (Hl : forall y, In y (Py.sort_by before l) ->
                         y = best \/ text_length y < text_length best).
  { intros y Hy. apply Hmax. right.
    eapply Permutation_in; [apply sort_by_perm|exact Hy]. }
  destruct (Hmax x (or_introl eq_refl)) as [-> | Hlt].
  - destruct (Py.sort_by before l) as [|y t] eqn:E; simpl; [eauto|].
    assert (Hb : before best y = true).
    { unfold before. destruct (Hl y (or_introl eq_refl)) as [-> | Hy].
      - apply key_le_refl.
      - now apply key_le_shorter. }
    rewrite Hb. eauto.
  - destruct Hin as [-> | Hin]; [lia|].
    destruct IH as [t E]; [exact Hin | intros y Hy; apply Hmax; now right |].
    rewrite E. simpl.
    assert (Hb : before x best = false)
      by (unfold before; now apply key_le_shorter).
    rewrite Hb. eauto.
Qed.

(** C8, as stated: the anchor of strictly longest text is returned from
    every container, however its anchors are enumerated. *)
Definition longest_text_always_wins : Prop :=
  forall (c : Container) (enumerated : list Element) (best : Element),
    Permutation (anchors c) enumerated ->
    In best (anchors c) ->
    qualifying (self c) best = true ->
    (forall other, In other (anchors c) ->
       qualifying (self c) other = true ->
       other = best \/ text_length other < text_length best) ->
    _get_main_link_from_container {| self := self c; anchors := enumerated |}
    = Some best.

Definition sample_anchor (n : nat) (txt : string) : Element :=
  {| node := n; tag_name := "a"; displayed := true;
     href := Some "https://shop.example/item"; text := txt; title := None;
     size := {| width := 120; height := 20 |} |}.

Definition long_anchor : Element := sample_anchor 1 "PlayStation".
Definition short_anchor : Element := sample_anchor 2 "Buy".

(** A product tile that is itself a visible link wrapping two anchors. *)
Definition link_tile : Container :=
  {| self := {| node := 0; tag_name := "a"; displayed := true;
                href := Some "https://shop.example/tile"; text := EmptyString;
                title := None; size := {| width := 200; height := 200 |} |};
     anchors := [short_anchor; long_anchor] |}.

(** C8 fails as stated on a container that is itself a visible link: the
    extractor returns the container and never looks at its anchors. *)
Lemma longest_text_loses_to_link_container : ~ longest_text_always_wins.
Proof.
  intros H.
  specialize (H link_tile (anchors link_tile) long_anchor
                (Permutation_refl _)).
  assert (E : _get_main_link_from_container
                {| self := self link_tile; anchors := anchors link_tile |}
              = Some long_anchor).
  { apply H.
    - right; left; reflexivity.
    - reflexivity.
    - intros other [<- | [<- | []]] _.
      + right. vm_compute. lia.
      + now left. }
  vm_compute in E. discriminate.
Qed.

(** C8, amended: for every container that is not itself a visible link
    with an href, if one qualifying descendant anchor has visible text
    strictly longer than every other qualifying anchor, the extractor
    returns that anchor, in whatever order the anchors are enumerated. *)
Theorem longest_text_wins (c : Container) (enumerated : list Element)
    (best : Element) :
  is_visible_link (self c) = false ->
  Permutation (anchors c) enumerated ->
  In best (anchors c) ->
  qualifying (self c) best = true ->
  (forall other, In other (anchors c) ->
     qualifying (self c) other = true ->
     other = best \/ text_length other < text_length best) ->
  _get_main_link_from_container {| self := self c; anchors := enumerated |}
  = Some best.
Proof.
  intros Hself Hperm Hin Hq Hmax.
  unfold _get_main_link_from_container; simpl.
  unfold is_visible_link in Hself. rewrite Hself.
  rewrite potential_links_filter; simpl.
  destruct (sort_links_top (filter (qualifying (self c)) enumerated) best)
    as [rest E].
  - apply filter_In. split; [|exact Hq].
    eapply Permutation_in; [exact Hperm|exact Hin].
  - intros x Hx. apply filter_In in Hx. destruct Hx as [Hx Hqx].
    apply Hmax; [|exact Hqx].
    eapply Permutation_in; [symmetry; exact Hperm|exact Hx].
  - now rewrite E.
Qed.

(** A [div] tile holding a 3-character and an 11-character anchor. *)
Definition div_tile : Container :=
  {| self := {| node := 0; tag_name := "div"; displayed := true;
                href := None; text := EmptyString; title := None;
                size := {| width := 200; height := 200 |} |};
     anchors := [short_anchor; long_anchor] |}.

Lemma longest_text_wins_witness :
  _get_main_link_from_container
    {| self := self div_tile; anchors := [long_anchor; short_anchor] |}
  = Some long_anchor
  /\ _get_main_link_from_container div_tile = Some long_anchor.
Proof.
  assert (Hmax : forall other, In other (anchors div_tile) ->
            qualifying (self div_tile) other = true ->
            other = long_anchor
            \/ text_length other < text_length long_anchor).
  { intros other [<- | [<- | []]] _.
    - right. vm_compute. lia.
    - now left. }
  split.
  - apply (longest_text_wins div_tile [long_anchor; short_anchor] long_anchor);
      [reflexivity | apply perm_swap | right; left; reflexivity
      | reflexivity | exact Hmax].
  - reflexivity.
Defined.

(* ================================================================== *)
(** * Properties of list discovery *)
(* ================================================================== *)

Section DiscoveryFacts.

Variables World Handle : Type.
Variable look : World -> Handle -> option Container.
Variable inner_height : World -> Outcome World unit.
Variable scroll_height : World -> Outcome World unit.
Variable scroll_wait : World -> Outcome World unit.
Variable find_elements : World -> string -> option (list Handle).

Notation Group := (Group World).
Notation get_main_link := (get_main_link look).
Notation scroll_retry := (scroll_retry look scroll_wait).
Notation container_step := (container_step look scroll_height scroll_wait).
Notation process_containers :=
  (process_containers look scroll_height scroll_wait).
Notation try_candidate :=
  (try_candidate look inner_height scroll_height scroll_wait find_elements).
Notation candidates_loop :=
  (candidates_loop look inner_height scroll_height scroll_wait
     find_elements).

(** The container is read and yields no link in state [g], also after the
    scroll retries it is granted when the previous container had one; no
    read raises, and [w] is the page the attempts leave. *)
Definition fails (g : Group) (container : Handle) (w : World) : Prop :=
  get_main_link (page g) container = Some None /\
  match last_main_link g with
  | Some _ =>
      exists w0, scroll_height (page g) = Done tt w0
                 /\ scroll_retry max_scroll_attempts w0 container
                    = Done None w
  | None => w = page g
  end.

(** The container yields the link [l] in state [g], at once or after a
    scroll retry, leaving the page as [w]. *)
Definition succeeds (g : Group) (container : Handle) (l : Element)
    (w : World) : Prop :=
  (get_main_link (page g) container = Some (Some l) /\ w = page g)
  \/ (get_main_link (page g) container = Some None
      /\ last_main_link g <> None
      /\ exists w0, scroll_height (page g) = Done tt w0
                    /\ scroll_retry max_scroll_attempts w0 container
                       = Done (Some l) w).

Lemma container_step_fails g container w :
  fails g container w -> container_step g container = inr (record_none g w).
Proof.
  intros [H1 H2]. unfold container_step. rewrite H1.
  destruct (last_main_link g); [|now subst].
  destruct H2 as (w0 & Hh & Hr). now rewrite Hh, Hr.
Qed.

Lemma container_step_succeeds g container l w :
  succeeds g container l w ->
  container_step g container = inr (record_link g w l).
Proof.
  intros [[H1 ->]|(H1 & Hlast & w0 & Hh & Hr)]; unfold container_step;
    rewrite H1; [reflexivity|].
  destruct (last_main_link g); [|now elim Hlast].
  now rewrite Hh, Hr.
Qed.

Lemma process_containers_cons g c rest :
  process_containers g (c :: rest)
  = match container_step g c with
    | inl w => inl w
    | inr g' =>
        if 2 <=? consecutive_none_returns g' then inr (g', rest)
        else process_containers g' rest
    end.
Proof. reflexivity. Qed.

Lemma process_containers_app g0 pre g l :
  process_containers g0 pre = inr (g, []) ->
  consecutive_none_returns g < 2 ->
  process_containers g0 (pre ++ l) = process_containers g l.
Proof.
  revert g0. induction pre as [|c pre IH]; intros g0 H Hlt.
  - now inversion H.
  - rewrite <- app_comm_cons, process_containers_cons.
    rewrite process_containers_cons in H.
    destruct (container_step g0 c) as [w|g1]; [discriminate|].
    destruct (2 <=? consecutive_none_returns g1) eqn:E.
    + inversion H; subst. apply Nat.leb_le in E. lia.
    + now apply IH.
Qed.

(** The unique-href ledger: the kept links carry pairwise distinct,
    non-empty hrefs, which are exactly the processed ones. *)
Definition ledger_ok (g : Group) : Prop :=
  map (fun l => attr_or_empty (href l)) (links_from_this_class_group g)
  = rev (processed_hrefs_for_group g)
  /\ NoDup (processed_hrefs_for_group g).

Lemma href_in_false h seen : href_in h seen = false -> ~ In h seen.
Proof.
  unfold href_in. intros H Hin.
  assert (existsb (String.eqb h) seen = true); [|congruence].
  apply existsb_exists. exists h. split; [exact Hin|apply String.eqb_refl].
Qed.

Lemma record_link_ledger g w l : ledger_ok g -> ledger_ok (record_link g w l).
Proof.
  intros [Hm Hn]. unfold ledger_ok, record_link; simpl.
  destruct (attr_truthy (href l)
            && negb (href_in (attr_or_empty (href l))
                             (processed_hrefs_for_group g))) eqn:E;
    [|now split].
  apply andb_true_iff in E. destruct E as [_ E].
  apply negb_true_iff, href_in_false in E.
  split.
  - rewrite map_app, Hm. reflexivity.
  - now constructor.
Qed.

Lemma container_step_ledger g c g' :
  ledger_ok g -> container_step g c = inr g' -> ledger_ok g'.
Proof.
  intros Hg. unfold container_step.
  destruct (get_main_link (page g) c) as [[l|]|]; [| |discriminate].
  - intros H; inversion H. now apply record_link_ledger.
  - destruct (last_main_link g).
    + destruct (scroll_height (page g)) as [[] w0|ex w0]; [|discriminate].
      destruct (scroll_retry _ _ _) as [[l|] w|ex w]; intros H;
        inversion H; [now apply record_link_ledger | exact Hg].
    + intros H; inversion H. exact Hg.
Qed.

Lemma process_containers_ledger g l g' unreached :
  ledger_ok g -> process_containers g l = inr (g', unreached) ->
  ledger_ok g'.
Proof.
  revert g. induction l as [|c l IH]; intros g Hg H.
  - now inversion H; subst.
  - rewrite process_containers_cons in H.
    destruct (container_step g c) as [w|g1] eqn:E; [discriminate|].
    pose proof (container_step_ledger _ _ _ Hg E) as Hg1.
    destruct (2 <=? consecutive_none_returns g1).
    + now inversion H; subst.
    + now apply (IH g1).
Qed.

Lemma new_group_ledger w : ledger_ok (new_group w).
Proof. split; [reflexivity|constructor]. Qed.

Lemma ledger_distinct g :
  ledger_ok g ->
  NoDup (map (fun l => attr_or_empty (href l))
             (links_from_this_class_group g)).
Proof.
  intros [Hm Hn]. rewrite Hm.
  eapply Permutation_NoDup; [apply Permutation_rev|exact Hn].
Qed.

Lemma try_candidate_after_loop w w0 class_tuple containers g unreached :
  find_elements w (class_selector_value class_tuple) = Some containers ->
  min_products_for_list <= List.length containers ->
  inner_height w = Done tt w0 ->
  process_containers (new_group w0) containers = inr (g, unreached) ->
  try_candidate w class_tuple
  = if min_products_for_list
       <=? List.length (links_from_this_class_group g)
    then Found (links_from_this_class_group g)
               (class_selector_value class_tuple) (page g)
    else NotEnough (page g).
Proof.
  intros Hf Hn Hi Hp. unfold try_candidate. rewrite Hf.
  apply Nat.leb_le in Hn. rewrite Hn, Hi, Hp. reflexivity.
Qed.

(** Whatever raises while the containers are gone through drops the
    candidate. *)
Lemma try_candidate_raised w w0 w' class_tuple containers :
  find_elements w (class_selector_value class_tuple) = Some containers ->
  min_products_for_list <= List.length containers ->
  inner_height w = Done tt w0 ->
  process_containers (new_group w0) containers = inl w' ->
  try_candidate w class_tuple = Raised w'.
Proof.
  intros Hf Hn Hi Hp. unfold try_candidate. rewrite Hf.
  apply Nat.leb_le in Hn. rewrite Hn, Hi, Hp. reflexivity.
Qed.

Lemma candidates_loop_cons w t ts count later :
  candidates_loop w ((t :: ts, count) :: later)
  = match try_candidate w (t :: ts) with
    | Found links selector w' => (Some (links, selector), w')
    | NotEnough w' => candidates_loop w' later
    | Raised w' => candidates_loop w' later
    end.
Proof. reflexivity. Qed.

(** C4: two consecutive failures end the container loop at the second
    one, and a success in between starts the count anew. A failure is a
    container that is read and yields no link, also after its scroll
    retries where it is granted them. (1) When the loop has gone through
    [pre] and stands with a zero counter, a failing [c1] followed by a
    failing [c2] ends the loop at [c2]: [rest] is left unprocessed and no
    link is added. (2) Whatever the counter was before, as long as the loop
    is running, a container [c0] that yields a link sets it to zero, so
    that [c0], a failing [c1] and a failing [c2] again end the loop at
    [c2] with [rest] unprocessed. (3) Failures that a success separates do
    not end the loop: after a failing [c1], a [c0] with a link and a
    failing [c2] the counter is 1 and the loop goes on with [rest]. *)
Theorem abort_at_second_consecutive_failure :
  (forall (g0 g : Group) (pre rest : list Handle) (c1 c2 : Handle)
          (w1 : World),
     process_containers g0 pre = inr (g, []) ->
     consecutive_none_returns g = 0 ->
     fails g c1 w1 ->
     get_main_link w1 c2 = Some None ->
     exists g',
       process_containers g0 (pre ++ c1 :: c2 :: rest) = inr (g', rest)
       /\ consecutive_none_returns g' = 2
       /\ links_from_this_class_group g' = links_from_this_class_group g)
  /\ (forall (g : Group) (rest : list Handle) (c0 c1 c2 : Handle)
             (l : Element) (w0 w1 : World),
        consecutive_none_returns g < 2 ->
        succeeds g c0 l w0 ->
        fails (record_link g w0 l) c1 w1 ->
        get_main_link w1 c2 = Some None ->
        exists g',
          process_containers g (c0 :: c1 :: c2 :: rest) = inr (g', rest)
          /\ consecutive_none_returns g' = 2
          /\ links_from_this_class_group g'
             = links_from_this_class_group (record_link g w0 l))
  /\ (forall (g : Group) (rest : list Handle) (c1 c0 c2 : Handle)
             (l : Element) (w1 w0 w2 : World),
        consecutive_none_returns g = 0 ->
        fails g c1 w1 ->
        succeeds (record_none g w1) c0 l w0 ->
        fails (record_link (record_none g w1) w0 l) c2 w2 ->
        consecutive_none_returns
          (record_none (record_link (record_none g w1) w0 l) w2) = 1
        /\ process_containers g (c1 :: c0 :: c2 :: rest)
           = process_containers
               (record_none (record_link (record_none g w1) w0 l) w2) rest).
Proof.
  assert (Hlast : forall (g : Group) w c,
            get_main_link w c = Some None ->
            container_step (record_none g w) c
            = inr (record_none (record_none g w) w)).
  { intros g w c Hc. unfold container_step. simpl page. rewrite Hc.
    reflexivity. }
  split; [|split].
  - intros g0 g pre rest c1 c2 w1 Hpre H0 Hc1 Hc2.
    exists (record_none (record_none g w1) w1).
    split; [|split]; [|simpl; now rewrite H0|reflexivity].
    rewrite (process_containers_app _ _ _ _ Hpre) by lia.
    rewrite process_containers_cons, (container_step_fails _ _ _ Hc1).
    simpl consecutive_none_returns. rewrite H0.
    change (2 <=? 1) with false. cbv iota.
    rewrite process_containers_cons, (Hlast g w1 c2 Hc2). reflexivity.
  - intros g rest c0 c1 c2 l w0 w1 Hrun Hc0 Hc1 Hc2.
    exists (record_none (record_none (record_link g w0 l) w1) w1).
    split; [|split]; [|reflexivity|reflexivity].
    rewrite process_containers_cons, (container_step_succeeds _ _ _ _ Hc0).
    simpl consecutive_none_returns. change (2 <=? 0) with false. cbv iota.
    rewrite process_containers_cons, (container_step_fails _ _ _ Hc1).
    simpl consecutive_none_returns. change (2 <=? 1) with false. cbv iota.
    rewrite process_containers_cons, (Hlast _ w1 c2 Hc2). reflexivity.
  - intros g rest c1 c0 c2 l w1 w0 w2 H0 Hc1 Hc0 Hc2.
    split; [reflexivity|].
    rewrite process_containers_cons, (container_step_fails _ _ _ Hc1).
    simpl consecutive_none_returns. rewrite H0.
    change (2 <=? 1) with false. cbv iota.
    rewrite process_containers_cons, (container_step_succeeds _ _ _ _ Hc0).
    simpl consecutive_none_returns. change (2 <=? 0) with false. cbv iota.
    rewrite process_containers_cons, (container_step_fails _ _ _ Hc2).
    simpl consecutive_none_returns. change (2 <=? 1) with false. cbv iota.
    reflexivity.
Qed.

(** C1, amended: when the container loop of a candidate has ended without
    a raising read, by reaching the last container or by the
    consecutive-failure abort, with at least [min_products_for_list] links,
    that list is returned with the candidate's selector, whatever
    candidates come later; its hrefs are pairwise distinct. *)
Theorem first_qualifying_candidate_wins
    (w w0 : World) (class_tuple : list string) (count : nat)
    (later : list (list string * nat))
    (containers unreached : list Handle) (g : Group) :
  class_tuple <> [] ->
  find_elements w (class_selector_value class_tuple) = Some containers ->
  min_products_for_list <= List.length containers ->
  inner_height w = Done tt w0 ->
  process_containers (new_group w0) containers = inr (g, unreached) ->
  min_products_for_list <= List.length (links_from_this_class_group g) ->
  candidates_loop w ((class_tuple, count) :: later)
  = (Some (links_from_this_class_group g,
           class_selector_value class_tuple), page g)
  /\ NoDup (map (fun l => attr_or_empty (href l))
                (links_from_this_class_group g)).
Proof.
  intros Hne Hf Hn Hi Hp Hlinks. split.
  - destruct class_tuple as [|t ts]; [now elim Hne|].
    rewrite candidates_loop_cons.
    rewrite (try_candidate_after_loop _ _ _ _ _ _ Hf Hn Hi Hp).
    apply Nat.leb_le in Hlinks. now rewrite Hlinks.
  - apply ledger_distinct.
    eapply process_containers_ledger; [apply new_group_ledger|exact Hp].
Qed.

(** C3, amended: a candidate abandoned by the consecutive-failure abort,
    the containers up to there read without an exception, is still returned
    as the result when the links collected before the abort number at least
    [min_products_for_list]; with fewer, discovery goes on with the next
    candidate. *)
Theorem aborted_candidate_outcome
    (w w0 : World) (class_tuple : list string) (count : nat)
    (later : list (list string * nat))
    (containers unreached : list Handle) (g : Group) :
  class_tuple <> [] ->
  find_elements w (class_selector_value class_tuple) = Some containers ->
  min_products_for_list <= List.length containers ->
  inner_height w = Done tt w0 ->
  process_containers (new_group w0) containers = inr (g, unreached) ->
  2 <= consecutive_none_returns g ->
  candidates_loop w ((class_tuple, count) :: later)
  = if min_products_for_list
       <=? List.length (links_from_this_class_group g)
    then (Some (links_from_this_class_group g,
                class_selector_value class_tuple), page g)
    else candidates_loop (page g) later.
Proof.
  intros Hne Hf Hn Hi Hp _.
  destruct class_tuple as [|t ts]; [now elim Hne|].
  rewrite candidates_loop_cons.
  rewrite (try_candidate_after_loop _ _ _ _ _ _ Hf Hn Hi Hp).
  now destruct (min_products_for_list <=? _).
Qed.

End DiscoveryFacts.

(** ** Sample listing pages *)

Definition letter (n : nat) : string :=
  String (ascii_of_nat (65 + n)) EmptyString.

Definition tile_link (n : nat) : Element :=
  {| node := 100 + n; tag_name := "a"; displayed := true;
     href := Some (String.append "https://shop.example/p/" (letter n));
     text := String.append "Product " (letter n); title := None;
     size := {| width := 120; height := 20 |} |}.

(** The [n]-th tile of a listing, with its product link or empty. *)
Definition tile (n : nat) (filled : bool) : Container :=
  {| self := {| node := n; tag_name := "div"; displayed := true;
                href := None; text := EmptyString; title := None;
                size := {| width := 200; height := 200 |} |};
     anchors := if filled then [tile_link n] else [] |}.

(** A page that scrolling does not change; the page state counts the
    scrolls. *)
Definition static_look (tiles : list bool) (w : nat) (h : nat)
  : option Container :=
  option_map (tile h) (nth_error tiles h).

Definition static_scroll (w : nat) : Outcome nat unit := Done tt (S w).

(** Reading a height of the window or of the document succeeds and leaves
    the page as it is. *)
Definition static_height (w : nat) : Outcome nat unit := Done tt w.

Definition static_find (tiles : list bool) (w : nat) (selector : string)
  : option (list nat) :=
  Some (seq 0 (List.length tiles)).

(** C1, as stated: the link list is returned as it stands when it reaches
    the threshold, the [remaining] containers unprocessed. *)
Definition returns_at_threshold : Prop :=
  forall (World Handle : Type) (look : World -> Handle -> option Container)
    (inner_height scroll_height scroll_wait : World -> Outcome World unit)
    (find_elements : World -> string -> option (list Handle))
    (w w0 : World) (class_tuple : list string)
    (reached remaining : list Handle) (g : Group World),
    find_elements w (class_selector_value class_tuple)
    = Some (reached ++ remaining) ->
    min_products_for_list <= List.length (reached ++ remaining) ->
    inner_height w = Done tt w0 ->
    process_containers look scroll_height scroll_wait (new_group w0) reached
    = inr (g, []) ->
    List.length (links_from_this_class_group g) = min_products_for_list ->
    try_candidate look inner_height scroll_height scroll_wait find_elements
      w class_tuple
    = Found (links_from_this_class_group g)
            (class_selector_value class_tuple) (page g).

(** C1 fails as stated: on a listing of eleven filled tiles the ledger
    holds ten links after the tenth tile, yet the eleventh tile is
    processed and eleven links are returned. *)
Lemma threshold_does_not_stop_loop : ~ returns_at_threshold.
Proof.
  intros H.
  pose (tiles := repeat true 11).
  destruct (process_containers (static_look tiles) static_height
              static_scroll (new_group 0) (seq 0 10)) as [w|[g u]] eqn:E;
    [vm_compute in E; discriminate|].
  specialize (H nat nat (static_look tiles) static_height static_height
                static_scroll (static_find tiles)
                0 0 ["tile"] (seq 0 10) [10] g).
  assert (u = []) by (vm_compute in E; congruence). subst u.
  assert (Hlen : List.length (links_from_this_class_group g) = 10)
    by (vm_compute in E; inversion E; reflexivity).
  specialize (H eq_refl).
  assert (Hn : min_products_for_list <= List.length (seq 0 10 ++ [10]))
    by (vm_compute; lia).
  specialize (H Hn eq_refl E Hlen).
  assert (Hr : exists links sel w',
             try_candidate (static_look tiles) static_height static_height
               static_scroll (static_find tiles) 0 ["tile"]
             = Found links sel w'
             /\ List.length links = 11)
    by (vm_compute; eauto).
  destruct Hr as (links & sel & w' & Hr & Hl).
  rewrite H in Hr. inversion Hr; subst. rewrite Hlen in Hl. discriminate.
Qed.

(** Eleven filled tiles. *)
Definition full_listing : list bool := repeat true 11.

(** Ten filled tiles followed by two empty ones. *)
Definition tailing_listing : list bool := repeat true 10 ++ [false; false].

(** The state in which the container loop leaves a listing. *)
Definition group_after (tiles : list bool) : Group nat :=
  Eval vm_compute in
    match process_containers (static_look tiles) static_height
            static_scroll (new_group 0) (seq 0 (List.length tiles)) with
    | inr (g, _) => g
    | inl w => new_group w
    end.

Lemma first_qualifying_candidate_wins_witness :
  candidates_loop (static_look full_listing) static_height static_height
    static_scroll (static_find full_listing) 0
    [(["tile"], 11); (["card"], 10)]
  = (Some (map tile_link (seq 0 11), ".tile"), 0)
  /\ NoDup (map (fun l => attr_or_empty (href l)) (map tile_link (seq 0 11))).
Proof.
  apply (first_qualifying_candidate_wins nat nat
           (static_look full_listing) static_height static_height
           static_scroll (static_find full_listing)
           0 0 ["tile"] 11 [(["card"], 10)] (seq 0 11) []
           (group_after full_listing)).
  - discriminate.
  - reflexivity.
  - vm_compute. lia.
  - reflexivity.
  - vm_compute. reflexivity.
  - vm_compute. lia.
Defined.

(** An unreadable container drops the candidate: of eleven containers the
    selector matched, ten are filled tiles and the eleventh has left the
    page; reading it raises, the ten links collected are discarded and
    discovery ends with nothing. *)
Example unreadable_container_drops_candidate :
  candidates_loop (static_look (repeat true 10)) static_height static_height
    static_scroll (fun _ _ => Some (seq 0 11)) 0 [(["tile"], 11)]
  = (None, 0).
Proof. vm_compute. reflexivity. Qed.

(** C3, as stated: a candidate abandoned by the abort rule is never the
    result. *)
Definition aborted_candidate_not_returned : Prop :=
  forall (World Handle : Type) (look : World -> Handle -> option Container)
    (inner_height scroll_height scroll_wait : World -> Outcome World unit)
    (find_elements : World -> string -> option (list Handle))
    (w w0 : World) (class_tuple : list string)
    (containers unreached : list Handle) (g : Group World),
    find_elements w (class_selector_value class_tuple) = Some containers ->
    min_products_for_list <= List.length containers ->
    inner_height w = Done tt w0 ->
    process_containers look scroll_height scroll_wait (new_group w0)
      containers
    = inr (g, unreached) ->
    2 <= consecutive_none_returns g ->
    forall links selector w',
      try_candidate look inner_height scroll_height scroll_wait
        find_elements w class_tuple
      <> Found links selector w'.

(** C3 fails as stated: ten filled tiles followed by two empty ones abort
    the loop at the twelfth container, and the ten links collected before
    are returned as the result. *)
Lemma aborted_candidate_is_returned : ~ aborted_candidate_not_returned.
Proof.
  intros H.
  apply (H nat nat (static_look tailing_listing) static_height
           static_height static_scroll
           (static_find tailing_listing) 0 0 ["tile"] (seq 0 12) []
           (group_after tailing_listing)
           eq_refl)
    with (links := map tile_link (seq 0 10)) (selector := ".tile") (w' := 5).
  - vm_compute. lia.
  - reflexivity.
  - vm_compute. reflexivity.
  - vm_compute. lia.
  - vm_compute. reflexivity.
Qed.

Lemma aborted_candidate_outcome_witness :
  2 <= consecutive_none_returns (group_after tailing_listing) /\
  candidates_loop (static_look tailing_listing) static_height static_height
    static_scroll (static_find tailing_listing) 0
    [(["tile"], 12); (["card"], 10)]
  = (Some (map tile_link (seq 0 10), ".tile"), 5).
Proof.
  split; [vm_compute; lia|].
  apply (aborted_candidate_outcome nat nat
           (static_look tailing_listing) static_height static_height
           static_scroll (static_find tailing_listing)
           0 0 ["tile"] 12 [(["card"], 10)] (seq 0 12) []
           (group_after tailing_listing)).
  - discriminate.
  - reflexivity.
  - vm_compute. lia.
  - reflexivity.
  - vm_compute. reflexivity.
  - vm_compute. lia.
Defined.

(** A filled tile, two empty ones, and a filled tile the loop never
    reaches. *)
Definition gapped_listing : list bool := [true; false; false; true].

(** Two empty tiles that a filled one separates, then a filled tile. *)
Definition spaced_listing : list bool := [false; true; false; true].

(** Two empty tiles, a filled one, two empty ones that end the loop, and
    a filled tile the loop never reaches. *)
Definition restarted_listing : list bool :=
  [false; true; false; false; true].

Lemma abort_at_second_consecutive_failure_witness :
  (exists g',
     process_containers (static_look gapped_listing) static_height
       static_scroll (new_group 0) [0; 1; 2; 3] = inr (g', [3])
     /\ consecutive_none_returns g' = 2
     /\ links_from_this_class_group g' = [tile_link 0])
  /\ (exists g',
        process_containers (static_look restarted_listing) static_height
          static_scroll (record_none (new_group 0) 0) [1; 2; 3; 4]
        = inr (g', [4])
        /\ consecutive_none_returns g' = 2
        /\ links_from_this_class_group g' = [tile_link 1])
  /\ (exists g',
        process_containers (static_look spaced_listing) static_height
          static_scroll (new_group 0) [0; 1; 2; 3] = inr (g', [])
        /\ links_from_this_class_group g' = [tile_link 1; tile_link 3]).
Proof.
  destruct (abort_at_second_consecutive_failure nat nat
              (static_look gapped_listing) static_height static_scroll)
    as (H1 & _ & _).
  destruct (abort_at_second_consecutive_failure nat nat
              (static_look restarted_listing) static_height static_scroll)
    as (_ & H2 & _).
  destruct (abort_at_second_consecutive_failure nat nat
              (static_look spaced_listing) static_height static_scroll)
    as (_ & _ & H3).
  split; [|split].
  - apply (H1 (new_group 0) (record_link (new_group 0) 0 (tile_link 0))
              [0] [3] 1 2 5).
    + reflexivity.
    + reflexivity.
    + split; [reflexivity|]. exists 0. split; reflexivity.
    + reflexivity.
  - apply (H2 (record_none (new_group 0) 0) [4] 1 2 3 (tile_link 1) 0 5).
    + simpl. lia.
    + left. split; reflexivity.
    + split; [reflexivity|]. exists 0. split; reflexivity.
    + reflexivity.
  - destruct (H3 (new_group 0) [3] 0 1 2 (tile_link 1) 0 0 5) as [_ H].
    + reflexivity.
    + split; reflexivity.
    + left. split; reflexivity.
    + split; [reflexivity|]. exists 0. split; reflexivity.
    + rewrite H. vm_compute. eexists. split; reflexivity.
Defined.

(* ================================================================== *)
(** * Properties of the extraction fallback *)
(* ================================================================== *)

(** An answer the fallback cannot use: the call raised, the response or
    its choices are empty, the content is missing, blank, or the word
    [None] in any case. *)
Definition unusable (o : ApiOutcome) : bool :=
  match o with
  | ApiRaises | ApiEmpty => true
  | ApiChoices [] => true
  | ApiChoices (None :: _) => true
  | ApiChoices (Some content :: _) =>
      String.eqb (Py.lower (Py.strip content)) "none"
      || negb (Py.truthy (Py.strip content))
  end.

Lemma extract_with_deepseek_unusable api html target_field prompt :
  prompt_for target_field = Some prompt ->
  unusable (api prompt (truncate_html html)) = true ->
  extract_with_deepseek api html target_field = None.
Proof.
  intros Hp Hu. unfold extract_with_deepseek. rewrite Hp.
  destruct (api prompt (truncate_html html)) as [| |[|[content|] rest]];
    try reflexivity.
  simpl in Hu. now rewrite Hu.
Qed.

Lemma prompt_for_unsupported target_field :
  target_field <> "price" -> target_field <> "title" ->
  prompt_for target_field = None.
Proof.
  intros H1 H2. unfold prompt_for.
  destruct (String.eqb_spec target_field "price"); [contradiction|].
  destruct (String.eqb_spec target_field "title"); [contradiction|].
  reflexivity.
Qed.

Lemma fallback_unusable api p target_field :
  (forall prompt html, unusable (api prompt html) = true) ->
  fallback api p target_field = None.
Proof.
  intros Hu. unfold fallback.
  destruct (page_source p) as [page_html|]; [|reflexivity].
  destruct (prompt_for target_field) as [prompt|] eqn:Hp.
  - now rewrite (extract_with_deepseek_unusable _ _ _ _ Hp (Hu _ _)).
  - unfold extract_with_deepseek. now rewrite Hp.
Qed.

(** C9: whatever goes wrong with the fallback call (it raises, answers
    with nothing, with a content-less choice, with a blank or with [None],
    or is asked for a field other than price and title),
    [extract_with_deepseek] returns no value; and [extract_product_info]
    returns a record carrying the page URL whenever the driver can read that
    URL, whatever the fallback does, keeping the fields the selectors found
    when the fallback is of no use. *)
Theorem fallback_failure_is_no_value
    (api : string -> string -> ApiOutcome) (p : DetailPage)
    (html target_field : string) (url : string) :
  (target_field <> "price" -> target_field <> "title" ->
   extract_with_deepseek api html target_field = None)
  /\ (forall prompt, prompt_for target_field = Some prompt ->
        unusable (api prompt (truncate_html html)) = true ->
        extract_with_deepseek api html target_field = None)
  /\ (detail_url p = inr url ->
      (exists info, extract_product_info api p = inr info
                    /\ pi_url info = Some url)
      /\ ((forall prompt h, unusable (api prompt h) = true) ->
          extract_product_info api p
          = inr {| pi_title := selected_title p;
                   pi_price := selected_price p;
                   pi_url := Some url |})).
Proof.
  split; [|split].
  - intros H1 H2. unfold extract_with_deepseek.
    now rewrite (prompt_for_unsupported _ H1 H2).
  - intros prompt. apply extract_with_deepseek_unusable.
  - intros Hurl. split.
    + unfold extract_product_info. rewrite Hurl. simpl pi_url.
      destruct (attr_truthy (Some url)); [|eauto].
      destruct (negb (attr_truthy _)); [destruct (fallback api p "title")|];
        simpl;
        (destruct (negb (has_valid_price _));
         [destruct (fallback api p "price")|]); eauto.
    + intros Hu. unfold extract_product_info. rewrite Hurl. simpl pi_url.
      rewrite !(fallback_unusable _ _ _ Hu).
      destruct (attr_truthy (Some url)); [|reflexivity].
      destruct (negb (attr_truthy _)); simpl;
        now destruct (negb (has_valid_price _)).
Qed.

(** An endpoint that always times out. *)
Definition api_down : string -> string -> ApiOutcome :=
  fun _ _ => ApiRaises.

(** A product page on which no selector found a title or a price. *)
Definition bare_page : DetailPage :=
  {| selected_title := None; selected_price := None;
     detail_url := inr "https://shop.example/p/A";
     page_source := Some "<html><body>PlayStation 5</body></html>" |}.

Lemma fallback_failure_is_no_value_witness :
  extract_with_deepseek api_down "<html></html>" "rating" = None
  /\ extract_with_deepseek api_down "<html></html>" "price" = None
  /\ extract_product_info api_down bare_page
     = inr {| pi_title := None; pi_price := None;
              pi_url := Some "https://shop.example/p/A" |}.
Proof.
  destruct (fallback_failure_is_no_value api_down bare_page "<html></html>"
              "rating" "https://shop.example/p/A") as (H1 & _ & H3).
  destruct (fallback_failure_is_no_value api_down bare_page "<html></html>"
              "price" "https://shop.example/p/A") as (_ & H2 & _).
  split; [|split].
  - apply H1; discriminate.
  - apply (H2 price_prompt); reflexivity.
  - apply (proj2 (H3 eq_refl)). reflexivity.
Defined.

(* ================================================================== *)
(** * Properties of the JSONL de-duplication *)
(* ================================================================== *)

(** The value the loop tests for a record: its key, or [None]. *)
Definition key_of (record : Json) (key_field : string) : Json :=
  match record_get record key_field with
  | Some v => v
  | None => JNull
  end.

Definition keyed (key_field : string) (record : Json) : bool :=
  json_truthy (key_of record key_field).

(** Records without a usable key. *)
Definition keyless_count (records : list Json) (key_field : string) : nat :=
  List.length (filter (fun r => negb (keyed key_field r)) records).



Lemma dedup_loop_cons u record rest key_field :
  dedup_loop u (record :: rest) key_field
  = dedup_loop
      (if keyed key_field record then
         match Py.get key_eqb u (key_of record key_field) with
         | Some _ => u
         | None => u ++ [(key_of record key_field, record)]
         end
       else u) rest key_field.
Proof. reflexivity. Qed.




Definition with_url (u : Json) : Json := JObj [("url", u); ("title", JStr "t")].

(** Four records: a product, one with an empty url, one with no url, and
    the first product again. *)
Definition sample_lines : list Line :=
  [Parsed (with_url (JStr "https://shop.example/p/A")); Blank;
   Parsed (with_url (JStr EmptyString)); Invalid;
   Parsed (JObj [("title", JStr "t")]);
   Parsed (with_url (JStr "https://shop.example/p/A"))].



(** A record with an empty url and one whose url is a list. *)
Definition unhashable_lines : list Line :=
  [Parsed (with_url (JStr EmptyString)); Parsed (with_url (JArr [JInt 1]))].


Example unhashable_key_reports_nothing :
  deduplicate_jsonl_file unhashable_lines "url"
  = {| written := None; report := (0, 0, 0%Z) |}
  /\ List.length (read_records unhashable_lines) = 2
  /\ keyless_count (read_records unhashable_lines) "url" = 1.
Proof. vm_compute. repeat split. Qed.

(* ================================================================== *)
(** * Properties of the record loop *)
(* ================================================================== *)

Section SessionFacts.

Variables World Handle : Type.
Variable D : Driver World Handle.
Variable starting_website : string.

Notation Session := (Session World).
Notation M := (M World).

(** The state a computation leaves, however it ends. *)
Definition final {A : Type} (o : Outcome Session A) : Session :=
  match o with
  | Done _ s => s
  | Throws _ s => s
  end.

(** The line, whole or torn, is that of a record with a url. *)
Definition has_url (l : Written) : Prop :=
  attr_truthy (pi_url (written_from l)) = true.

(** [s'] has the lines of [s] and, after them, only lines of records with
    a url. *)
Definition extends (s s' : Session) : Prop :=
  exists appended, sink s' = sink s ++ appended /\ Forall has_url appended.

(** A computation that only ever appends records with a url. *)
Definition guarded {A : Type} (m : M A) : Prop :=
  forall s, extends s (final (m s)).

Lemma extends_refl s : extends s s.
Proof. exists []. now rewrite app_nil_r. Qed.

Lemma extends_same s s' : sink s' = sink s -> extends s s'.
Proof. intros E. exists []. now rewrite app_nil_r. Qed.

Lemma extends_trans s1 s2 s3 : extends s1 s2 -> extends s2 s3 -> extends s1 s3.
Proof.
  intros [a [Ea Fa]] [b [Eb Fb]]. exists (a ++ b). split.
  - now rewrite Eb, Ea, app_assoc.
  - apply Forall_app. now split.
Qed.

Lemma guarded_ret {A} (a : A) : guarded (ret a).
Proof. intros s. apply extends_refl. Qed.

Lemma guarded_bind {A B} (m : M A) (k : A -> M B) :
  guarded m -> (forall a, guarded (k a)) -> guarded (bind m k).
Proof.
  intros Hm Hk s. unfold bind. specialize (Hm s).
  destruct (m s) as [a s'|e s']; simpl in Hm; [|exact Hm].
  eapply extends_trans; [exact Hm|apply Hk].
Qed.

Lemma guarded_call {A} (op : World -> Outcome World A) : guarded (call op).
Proof.
  intros s. unfold call. destruct (op (world s)); now apply extends_same.
Qed.

Lemma guarded_pass f : guarded (pass f).
Proof. intros s. now apply extends_same. Qed.

Lemma guarded_get : guarded (@get World).
Proof. intros s. apply extends_refl. Qed.

Lemma guarded_read {A} (v : Session -> Var A) : guarded (read v).
Proof. intros s. unfold read. destruct (v s); apply extends_refl. Qed.

Lemma guarded_set_new_window v : guarded (@set_new_window World v).
Proof. intros s. now apply extends_same. Qed.

Lemma guarded_set_main_window h : guarded (@set_main_window World h).
Proof. intros s. now apply extends_same. Qed.

Lemma guarded_add_processed h : guarded (@add_processed World h).
Proof. intros s. now apply extends_same. Qed.

Lemma guarded_count_product : guarded (@count_product World).
Proof. intros s. now apply extends_same. Qed.

Lemma guarded_write_record r :
  attr_truthy (pi_url r) = true -> guarded (write_record D r).
Proof.
  intros Hr s. unfold write_record.
  destruct (drv_append_line D (world s)); simpl.
  - exists [Whole r]. split; [reflexivity|]. now constructor.
  - exists [Torn r]. split; [reflexivity|]. now constructor.
Qed.

Lemma guarded_persist target_href r : guarded (persist D target_href r).
Proof.
  unfold persist. destruct (attr_truthy (pi_url r)) eqn:E.
  - apply guarded_bind; [apply guarded_add_processed|intros _].
    apply guarded_bind; [now apply guarded_write_record|intros _].
    apply guarded_count_product.
  - apply guarded_ret.
Qed.

Lemma guarded_extract : guarded (extract D).
Proof.
  intros s. unfold extract.
  destruct (extract_product_info _ _); apply extends_refl.
Qed.

Lemma guarded_click_product e : guarded (click_product D e).
Proof.
  intros s. unfold click_product.
  pose proof (guarded_call (drv_click D e) s) as H.
  destruct (call (drv_click D e) s) as [a s'|[| |] s']; simpl in *;
    try exact H.
  eapply extends_trans; [exact H|apply guarded_call].
Qed.

Lemma guarded_switch_to_popup main : guarded (switch_to_popup D main).
Proof.
  unfold switch_to_popup.
  apply guarded_bind; [apply guarded_set_new_window|intros _].
  apply guarded_bind; [apply guarded_call|intros handles].
  destruct (1 <? List.length handles); [|apply guarded_ret].
  apply guarded_bind; [apply guarded_call|intros handles'].
  destruct (first_other main handles'); [|apply guarded_ret].
  apply guarded_bind; [apply guarded_set_new_window|intros _].
  apply guarded_call.
Qed.

Lemma guarded_leave_product : guarded (leave_product D).
Proof.
  unfold leave_product.
  apply guarded_bind; [apply guarded_read|intros [h|]].
  - apply guarded_bind; [apply guarded_call|intros _].
    apply guarded_bind; [apply guarded_read|intros main].
    apply guarded_call.
  - apply guarded_call.
Qed.

Lemma guarded_locate product_elements selector i :
  guarded (locate D product_elements selector i).
Proof.
  unfold locate. destruct ((0 <? i) && Py.truthy selector);
    [|apply guarded_ret].
  apply guarded_bind; [apply guarded_call|intros refreshed].
  destruct (nth_error refreshed i); [|apply guarded_ret].
  apply guarded_bind; [apply guarded_get|intros s']. apply guarded_ret.
Qed.

Lemma guarded_visit product_elements selector i :
  guarded (visit D product_elements selector i).
Proof.
  unfold visit.
  apply guarded_bind; [apply guarded_locate|intros [current|]];
    [|apply guarded_ret].
  apply guarded_bind; [apply guarded_call|intros target_href].
  apply guarded_bind; [apply guarded_get|intros s'].
  destruct (existsb _ _); [apply guarded_ret|].
  apply guarded_bind; [apply guarded_call|intros main].
  apply guarded_bind; [apply guarded_set_main_window|intros _].
  apply guarded_bind; [apply guarded_click_product|intros _].
  apply guarded_bind; [apply guarded_switch_to_popup|intros _].
  apply guarded_bind; [apply guarded_pass|intros _].
  apply guarded_bind; [apply guarded_pass|intros _].
  apply guarded_bind; [apply guarded_extract|intros product_info].
  apply guarded_bind; [apply guarded_persist|intros _].
  apply guarded_bind; [apply guarded_leave_product|intros _].
  apply guarded_bind; [apply guarded_pass|intros _].
  apply guarded_ret.
Qed.

Lemma guarded_go_back : guarded (go_back_unless_listing D starting_website).
Proof.
  unfold go_back_unless_listing.
  apply guarded_bind; [apply guarded_call|intros url].
  destruct (negb _); [|apply guarded_ret].
  apply guarded_bind; [apply guarded_call|intros url'].
  destruct (negb _); [apply guarded_call|apply guarded_ret].
Qed.

Lemma guarded_recover : guarded (recover D starting_website).
Proof.
  unfold recover.
  apply guarded_bind; [apply guarded_read|intros popup].
  apply guarded_bind; [|intros _; apply guarded_pass].
  destruct popup as [handle|]; [|apply guarded_go_back].
  apply guarded_bind; [apply guarded_call|intros current].
  destruct (current =? handle); [|apply guarded_go_back].
  apply guarded_bind; [apply guarded_call|intros _].
  apply guarded_bind; [apply guarded_read|intros main].
  apply guarded_call.
Qed.

Lemma record_iteration_extends product_elements selector i s :
  extends s (snd (record_iteration D starting_website
                    product_elements selector i s)).
Proof.
  unfold record_iteration.
  pose proof (guarded_visit product_elements selector i s) as Hv.
  destruct (visit D product_elements selector i s) as [ctl s'|e s'];
    simpl in Hv; [exact Hv|].
  assert (Hr : extends s (final (recover D starting_website s')))
    by (eapply extends_trans; [exact Hv|apply guarded_recover]).
  destruct e; [exact Hv| |];
    destruct (recover D starting_website s'); exact Hr.
Qed.

Lemma record_loop_extends product_elements selector todo i s :
  extends s (record_loop D starting_website product_elements selector
               i todo s).
Proof.
  revert i s. induction todo as [|todo IH]; intros i s; simpl.
  - apply extends_refl.
  - pose proof (record_iteration_extends product_elements selector i s) as H.
    destruct (record_iteration D starting_website product_elements
                selector i s) as [[|] s']; simpl in H.
    + eapply extends_trans; [exact H|apply IH].
    + exact H.
Qed.

(** C6: whatever the driver does, the lines one listing page adds to the
    output file, those a failed write left unfinished included, all come
    from records with a non-empty url, and the lines already written stay
    as they are; a record without a url leaves the session untouched when
    it reaches the persistence step. *)
Theorem only_records_with_url_are_persisted
    (product_elements : list Element) (selector : string)
    (max_products_per_page : nat) (s : Session)
    (target_href : option string) (product_info : ProductInfo) :
  (exists appended,
     sink (scrape_page D starting_website product_elements selector
             max_products_per_page s)
     = sink s ++ appended
     /\ Forall (fun l => attr_truthy (pi_url (written_from l)) = true)
          appended)
  /\ (attr_truthy (pi_url product_info) = false ->
      persist D target_href product_info s = Done tt s).
Proof.
  split.
  - unfold scrape_page.
    apply (record_loop_extends product_elements selector _ 0
             {| world := world s; sink := sink s;
                products_count := products_count s;
                processed_product_hrefs_on_page := [];
                new_window := new_window s;
                main_window := main_window s |}).
  - intros H. unfold persist. now rewrite H.
Qed.

End SessionFacts.

(* ================================================================== *)
(** * Properties of the pagination click *)
(* ================================================================== *)

Section PaginationFacts.

Variables World Handle : Type.
Variable D : Driver World Handle.

(** The page a click on [button] leaves: the direct click, or the script
    click when the direct one is intercepted; [None] when no click goes
    through. *)
Definition clicked (button : Element) (w : World) : option World :=
  match drv_click D button w with
  | Done _ w' => Some w'
  | Throws ElementClickInterceptedException w' =>
      match drv_js_click D button w' with
      | Done _ w'' => Some w''
      | Throws _ _ => None
      end
  | Throws _ _ => None
  end.

(** Some click on [button], direct or by script, completed and left the
    page as [w']. *)
Definition click_completed (button : Element) (w' : World) : Prop :=
  exists w, drv_click D button w = Done tt w'
            \/ drv_js_click D button w = Done tt w'.

Lemma verify_true current_url w new_url w' :
  verify D current_url w = Done (true, new_url) w' ->
  drv_current_url D (drv_sleep D 3000 w) = Done new_url w'
  /\ new_url <> current_url.
Proof.
  unfold verify.
  destruct (drv_current_url D (drv_sleep D 3000 w)) as [u wu|e wu];
    [|discriminate].
  destruct (String.eqb_spec u current_url); simpl; intros H; inversion H.
  subst. now split.
Qed.

Lemma verify_false current_url w url w' :
  verify D current_url w = Done (false, url) w' -> url = current_url.
Proof.
  unfold verify.
  destruct (drv_current_url D (drv_sleep D 3000 w)) as [u wu|e wu];
    [|discriminate].
  destruct (negb _); intros H; now inversion H.
Qed.

Lemma verify_observed current_url w new_url w' :
  drv_current_url D (drv_sleep D 3000 w) = Done new_url w' ->
  verify D current_url w
  = Done (negb (String.eqb new_url current_url),
          if String.eqb new_url current_url then current_url else new_url)
         w'.
Proof.
  intros H. unfold verify. rewrite H.
  now destruct (String.eqb new_url current_url).
Qed.

(** What a run of [try_next_page_button] with verdict [success] and
    returned URL [url], ending on page [w'], must come from. *)
Definition verdict_sound (button : Element) (current_url : string)
    (success : bool) (url : string) (w' : World) : Prop :=
  if success then
    exists wc, click_completed button wc
               /\ drv_current_url D (drv_sleep D 3000 wc) = Done url w'
               /\ url <> current_url
  else url = current_url.

Lemma verdict_of_verify button current_url (tried : list Element) wc :
  click_completed button wc ->
  forall r,
    match verify D current_url wc with
    | Done (success, url) w' => Done (success, url, tried) w'
    | Throws _ w' => Done (false, current_url, tried) w'
    end = r ->
  exists success url w',
    r = Done (success, url, tried) w'
    /\ verdict_sound button current_url success url w'.
Proof.
  intros Hc r <-.
  destruct (verify D current_url wc) as [[[|] url] w'|e w'] eqn:E.
  - apply verify_true in E. destruct E as [E1 E2].
    exists true, url, w'. split; [reflexivity|]. simpl. eauto.
  - apply verify_false in E. subst.
    exists false, current_url, w'. now split.
  - exists false, current_url, w'. now split.
Qed.

(** C5: with the captured URL handed in, [try_next_page_button] always
    returns a verdict. The verdict is success only if a click on the button
    completed, directly or by script, and the URL read after the 3 s settle
    delay differs from the captured one; every failure hands back the
    captured URL. When the button was not tried before and the click-and-
    verify cycle completes with URL [new_url], the verdict is exactly
    whether [new_url] differs from the captured URL. Nothing but these URLs
    enters the verdict. *)
Theorem url_change_is_the_verdict
    (button : Element) (current_url : string) (tried_buttons : list Element)
    (w : World) :
  (exists success url tried' w',
     try_next_page_button D button (Some current_url) tried_buttons w
     = Done (success, url, tried') w'
     /\ verdict_sound button current_url success url w')
  /\ (forall tag w0 wc new_url w',
        existsb (same_element button) tried_buttons = false ->
        drv_tag_name D button w = Done tag w0 ->
        clicked button w0 = Some wc ->
        drv_current_url D (drv_sleep D 3000 wc) = Done new_url w' ->
        try_next_page_button D button (Some current_url) tried_buttons w
        = Done (negb (String.eqb new_url current_url),
                if String.eqb new_url current_url then current_url
                else new_url,
                button :: tried_buttons) w').
Proof.
  split.
  - unfold try_next_page_button.
    destruct (existsb (same_element button) tried_buttons).
    { exists false, current_url, tried_buttons, w. now split. }
    assert (Hfail : forall wf,
      exists success url tried' w',
        Done (false, current_url, button :: tried_buttons) wf
        = Done (success, url, tried') w'
        /\ verdict_sound button current_url success url w').
    { intros wf. exists false, current_url, (button :: tried_buttons), wf.
      now split. }
    assert (Hjs : forall w1,
      exists success url tried' w',
        match drv_js_click D button w1 with
        | Done _ w2 =>
            match verify D current_url w2 with
            | Done (success, url) w' =>
                Done (success, url, button :: tried_buttons) w'
            | Throws _ w' =>
                Done (false, current_url, button :: tried_buttons) w'
            end
        | Throws _ w2 => Done (false, current_url, button :: tried_buttons) w2
        end = Done (success, url, tried') w'
        /\ verdict_sound button current_url success url w').
    { intros w1. destruct (drv_js_click D button w1) as [[] w2|e w2] eqn:Ej;
        [|apply Hfail].
      destruct (verdict_of_verify button current_url
                  (button :: tried_buttons) w2
                  (ex_intro _ w1 (or_intror Ej)) _ eq_refl)
        as (su & u & wf & E & Hs).
      rewrite E. eauto 6. }
    destruct (drv_tag_name D button w) as [tag w0|[| |] w0];
      [|apply Hfail|apply Hjs|apply Hfail].
    destruct (drv_click D button w0) as [[] w1|[| |] w1] eqn:Ec;
      [|apply Hfail|apply Hjs|apply Hfail].
    destruct (verify D current_url w1) as [[su u] wf|[| |] wf] eqn:Ev;
      [| |apply Hjs|].
    + exists su, u, (button :: tried_buttons), wf. split; [reflexivity|].
      destruct su.
      * apply verify_true in Ev. destruct Ev as [E1 E2]. simpl.
        exists w1. split; [|now split]. exists w0. now left.
      * apply verify_false in Ev. exact Ev.
    + apply Hfail.
    + apply Hfail.
  - intros tag w0 wc new_url w' Hnew Htag Hclick Hurl.
    unfold try_next_page_button. rewrite Hnew, Htag.
    unfold clicked in Hclick.
    destruct (drv_click D button w0) as [[] w1|[| |] w1]; try discriminate.
    + inversion Hclick; subst w1.
      rewrite (verify_observed current_url _ _ _ Hurl). reflexivity.
    + destruct (drv_js_click D button w1) as [[] w2|e w2]; [|discriminate].
      inversion Hclick; subst w2.
      rewrite (verify_observed current_url _ _ _ Hurl). reflexivity.
Qed.

End PaginationFacts.

(* ================================================================== *)
(** * A simulated browser *)
(* ================================================================== *)

Module Sim.

(** What goes wrong on the product page. *)
Inductive Mishap :=
| Smooth
| StaleOnClick         (* the product link has gone stale when clicked *)
| WriteFails           (* appending to the output file raises *)
| PopupVanishes.       (* the new window closes itself once switched to *)

Record Browser := {
  windows : list WinHandle;
  active : WinHandle;
  location : string;
  mishap : Mishap
}.

Definition listing_window : WinHandle := 1.
Definition popup_window : WinHandle := 2.

Definition listing_url : string := "https://shop.example/search?q=PlayStation".
Definition product_url : string := "https://shop.example/p/A".

(** The driver's current window still exists. *)
Definition alive (b : Browser) : bool :=
  existsb (Nat.eqb (active b)) (windows b).

Definition on_window {A : Type} (b : Browser) (r : Outcome Browser A)
  : Outcome Browser A :=
  if alive b then r else Throws OtherException b.   (* NoSuchWindow *)

Definition is_vanishing (m : Mishap) : bool :=
  match m with PopupVanishes => true | _ => false end.

(** A click on a product link opens the product in a new window. *)
Definition click (e : Element) (b : Browser) : Outcome Browser unit :=
  on_window b
    match mishap b with
    | StaleOnClick => Throws StaleElementReferenceException b
    | _ =>
        Done tt {| windows := windows b ++ [popup_window]; active := active b;
                   location := location b; mishap := mishap b |}
    end.

Definition switch_to_window (h : WinHandle) (b : Browser)
  : Outcome Browser unit :=
  if existsb (Nat.eqb h) (windows b) then
    Done tt {| windows :=
                 if is_vanishing (mishap b) && negb (h =? listing_window)
                 then filter (fun x => negb (x =? h)) (windows b)
                 else windows b;
               active := h;
               location := if h =? listing_window then listing_url
                           else product_url;
               mishap := mishap b |}
  else Throws OtherException b.

Definition close (b : Browser) : Outcome Browser unit :=
  on_window b
    (Done tt {| windows := filter (fun x => negb (x =? active b)) (windows b);
                active := active b; location := location b;
                mishap := mishap b |}).

Definition detail (b : Browser) : DetailPage :=
  {| selected_title := Some "PlayStation 5";
     selected_price := Some "$499.99";
     detail_url := if alive b then inr (location b) else inl OtherException;
     page_source := Some "<html></html>" |}.

Definition append_line (b : Browser) : Outcome Browser unit :=
  match mishap b with
  | WriteFails => Throws OtherException b
  | _ => Done tt b
  end.

Definition driver : Driver Browser nat :=
  {| drv_look := fun _ _ => None;
     drv_find_elements := fun _ b => Done [] b;
     drv_get_href := fun e b => Done (href e) b;
     drv_tag_name := fun e b => Done (tag_name e) b;
     drv_current_window_handle := fun b => on_window b (Done (active b) b);
     drv_click := click;
     drv_js_click := click;
     drv_window_handles := fun b => Done (windows b) b;
     drv_switch_to_window := switch_to_window;
     drv_scroll_by := fun b => b;
     drv_detail := detail;
     drv_api := fun _ _ _ => ApiRaises;
     drv_append_line := append_line;
     drv_close := close;
     drv_back := fun b => on_window b (Done tt b);
     drv_current_url := fun b => on_window b (Done (location b) b);
     drv_sleep := fun _ b => b |}.

(** The session on the listing, one window open, nothing written. *)
Definition start (m : Mishap) : Session Browser :=
  {| world := {| windows := [listing_window]; active := listing_window;
                 location := listing_url; mishap := m |};
     sink := []; products_count := 0;
     processed_product_hrefs_on_page := [];
     new_window := Unbound; main_window := Unbound |}.

Definition product_link : Element := tile_link 0.

(** The first product of the page, visited from [start m]. *)
Definition first_visit (m : Mishap) : LoopCtl * Session Browser :=
  record_iteration driver "https://shop.example" [product_link] ".tile" 0
    (start m).

End Sim.

(** On the smooth run the product opens in a popup, its record is
    written, the popup is closed and the listing window is active again. *)
Example smooth_visit_restores_listing :
  let (ctl, s) := Sim.first_visit Sim.Smooth in
  ctl = Continue
  /\ Sim.windows (world s) = [Sim.listing_window]
  /\ Sim.active (world s) = Sim.listing_window
  /\ sink s = [Whole {| pi_title := Some "PlayStation 5";
                        pi_price := Some "$499.99";
                        pi_url := Some Sim.product_url |}]
  /\ products_count s = 1.
Proof. vm_compute. repeat split. Qed.

(** A failing write is recovered from: the popup is closed and the listing
    window is active again; the file is left with what the write got out
    of the record's line, and the record is not counted. *)
Example failed_write_restores_listing :
  let (ctl, s) := Sim.first_visit Sim.WriteFails in
  ctl = Continue
  /\ Sim.windows (world s) = [Sim.listing_window]
  /\ Sim.active (world s) = Sim.listing_window
  /\ sink s = [Torn {| pi_title := Some "PlayStation 5";
                       pi_price := Some "$499.99";
                       pi_url := Some Sim.product_url |}]
  /\ products_count s = 0.
Proof. vm_compute. repeat split. Qed.

(** C2, evaluated on the code: the click opens a popup (two window
    handles) and the driver is switched to it; the popup then closes
    itself, so the URL read raises, and so does the recovery when it asks
    for the current window handle. The loop is left with the driver still
    on the popup handle: the listing window is not made active again. *)
Theorem vanished_popup_leaves_driver_off_listing :
  let (ctl, s) := Sim.first_visit Sim.PopupVanishes in
  ctl = Break
  /\ new_window s = Bound (Some Sim.popup_window)
  /\ main_window s = Bound Sim.listing_window
  /\ Sim.active (world s) = Sim.popup_window
  /\ Sim.active (world s) <> Sim.listing_window.
Proof. vm_compute. repeat split. discriminate. Qed.

(** The stale-reference handler leaves the loop at once: a product link
    that has gone stale when it is clicked ends the page's loop, on the
    listing window and with nothing written. *)
Example stale_link_ends_the_page :
  let (ctl, s) := Sim.first_visit Sim.StaleOnClick in
  ctl = Break
  /\ Sim.windows (world s) = [Sim.listing_window]
  /\ Sim.active (world s) = Sim.listing_window
  /\ sink s = [].
Proof. vm_compute. repeat split. Qed.

Lemma only_records_with_url_are_persisted_witness :
  sink (scrape_page Sim.driver "https://shop.example" [Sim.product_link]
          ".tile" 100 (Sim.start Sim.Smooth))
  = [Whole {| pi_title := Some "PlayStation 5"; pi_price := Some "$499.99";
              pi_url := Some Sim.product_url |}]
  /\ persist Sim.driver (Some "https://shop.example/p/A")
       {| pi_title := Some "PlayStation 5"; pi_price := None;
          pi_url := Some EmptyString |} (Sim.start Sim.Smooth)
     = Done tt (Sim.start Sim.Smooth).
Proof.
  split; [reflexivity|].
  apply (only_records_with_url_are_persisted Sim.Browser nat Sim.driver
           "https://shop.example" [] EmptyString 0 (Sim.start Sim.Smooth)).
  reflexivity.
Defined.

(** A next button whose click moves the listing to its second page. *)
Module Pager.

Definition page1 : string := "https://shop.example/search?page=1".
Definition page2 : string := "https://shop.example/search?page=2".

(** The page is its URL; button 7 paginates, any other button does not. *)
Definition driver : Driver string nat :=
  {| drv_look := fun _ _ => None;
     drv_find_elements := fun _ w => Done [] w;
     drv_get_href := fun e w => Done (href e) w;
     drv_tag_name := fun e w => Done (tag_name e) w;
     drv_current_window_handle := fun w => Done 1 w;
     drv_click := fun e w => if node e =? 7 then Done tt page2 else Done tt w;
     drv_js_click := fun e w => Done tt w;
     drv_window_handles := fun w => Done [1] w;
     drv_switch_to_window := fun _ w => Done tt w;
     drv_scroll_by := fun w => w;
     drv_detail := fun w =>
       {| selected_title := None; selected_price := None;
          detail_url := inr w; page_source := None |};
     drv_api := fun _ _ _ => ApiRaises;
     drv_append_line := fun w => Done tt w;
     drv_close := fun w => Done tt w;
     drv_back := fun w => Done tt w;
     drv_current_url := fun w => Done w w;
     drv_sleep := fun _ w => w |}.

Definition button (n : nat) : Element :=
  {| node := n; tag_name := "button"; displayed := true; href := None;
     text := "Next"; title := None; size := {| width := 60; height := 30 |} |}.

End Pager.

Lemma url_change_is_the_verdict_witness :
  try_next_page_button Pager.driver (Pager.button 7) (Some Pager.page1) []
    Pager.page1
  = Done (true, Pager.page2, [Pager.button 7]) Pager.page2
  /\ try_next_page_button Pager.driver (Pager.button 8) (Some Pager.page1) []
       Pager.page1
     = Done (false, Pager.page1, [Pager.button 8]) Pager.page1.
Proof.
  split.
  - apply (proj2 (url_change_is_the_verdict string nat Pager.driver
                    (Pager.button 7) Pager.page1 [] Pager.page1)
             "button" Pager.page1 Pager.page2 Pager.page2 Pager.page2);
      reflexivity.
  - apply (proj2 (url_change_is_the_verdict string nat Pager.driver
                    (Pager.button 8) Pager.page1 [] Pager.page1)
             "button" Pager.page1 Pager.page1 Pager.page1 Pager.page1);
      reflexivity.
Defined.

(* ================================================================== *)
(** * Further properties of the JSONL de-duplication *)
(* ================================================================== *)

(** An entry of [unique_records] sits under the key of its record, which
    is truthy. *)
Definition entry_ok (key_field : string) (kr : Json * Json) : Prop :=
  fst kr = key_of (snd kr) key_field /\ keyed key_field (snd kr) = true.

(** No entry has the key of an earlier one. *)
Definition keys_apart (u : list (Json * Json)) : Prop :=
  ForallOrdPairs (fun a b => key_eqb (fst b) (fst a) = false) u.

Lemma pairs_snoc {A : Type} (R : A -> A -> Prop) (l : list A) (x : A) :
  ForallOrdPairs R l -> Forall (fun a => R a x) l ->
  ForallOrdPairs R (l ++ [x]).
Proof.
  induction 1 as [|a l Ha Hl IH]; intros Hx; simpl.
  - constructor; constructor.
  - inversion Hx; subst. constructor.
    + apply Forall_app. split; [exact Ha|]. now constructor.
    + now apply IH.
Qed.

Lemma get_none_all (u : list (Json * Json)) (k : Json) :
  Py.get key_eqb u k = None <->
  Forall (fun kr => key_eqb k (fst kr) = false) u.
Proof.
  induction u as [|[k' v] u IH]; simpl.
  - split; [constructor|reflexivity].
  - destruct (key_eqb k k') eqn:E; split; intros H.
    + discriminate.
    + inversion H; subst. simpl in *. congruence.
    + constructor; [exact E|now apply IH].
    + inversion H; subst. now apply IH.
Qed.

Lemma get_some_entry (u : list (Json * Json)) (k v : Json) :
  Py.get key_eqb u k = Some v ->
  exists k', In (k', v) u /\ key_eqb k k' = true.
Proof.
  induction u as [|[k' v'] u IH]; simpl; [discriminate|].
  destruct (key_eqb k k') eqn:E.
  - intros H; inversion H; subst. exists k'. split; [now left|exact E].
  - intros H. destruct (IH H) as (k0 & Hin & Hk). exists k0. split;
      [now right|exact Hk].
Qed.

Lemma get_app_some (u u' : list (Json * Json)) (k v : Json) :
  Py.get key_eqb u k = Some v -> Py.get key_eqb (u ++ u') k = Some v.
Proof.
  induction u as [|[k' v'] u IH]; simpl; [discriminate|].
  destruct (key_eqb k k'); [trivial|exact IH].
Qed.

(** The loop only ever appends. *)
Lemma dedup_loop_grows key_field records u :
  exists added, dedup_loop u records key_field = u ++ added.
Proof.
  revert u. induction records as [|r l IH]; intros u.
  - exists []. simpl. now rewrite app_nil_r.
  - rewrite dedup_loop_cons.
    destruct (keyed key_field r); [|apply IH].
    destruct (Py.get key_eqb u (key_of r key_field)); [apply IH|].
    destruct (IH (u ++ [(key_of r key_field, r)])) as [added E].
    exists ((key_of r key_field, r) :: added).
    rewrite E, <- app_assoc. reflexivity.
Qed.

Lemma dedup_loop_entries key_field records u :
  Forall (entry_ok key_field) u -> keys_apart u ->
  Forall (entry_ok key_field) (dedup_loop u records key_field)
  /\ keys_apart (dedup_loop u records key_field).
Proof.
  revert u. induction records as [|r l IH]; intros u Hu Hd; [now split|].
  rewrite dedup_loop_cons.
  destruct (keyed key_field r) eqn:Hk; [|now apply IH].
  destruct (Py.get key_eqb u (key_of r key_field)) eqn:Hg; [now apply IH|].
  apply IH.
  - apply Forall_app. split; [exact Hu|].
    constructor; [|constructor]. now split.
  - apply pairs_snoc; [exact Hd|].
    apply get_none_all in Hg. exact Hg.
Qed.

Lemma dedup_loop_from_input key_field records u :
  forall kr, In kr (dedup_loop u records key_field) ->
             In kr u \/ In (snd kr) records.
Proof.
  revert u. induction records as [|r l IH]; intros u kr H; [now left|].
  rewrite dedup_loop_cons in H. apply IH in H.
  destruct H as [H|H]; [|right; now right].
  destruct (keyed key_field r); [|now left].
  destruct (Py.get key_eqb u (key_of r key_field)); [now left|].
  apply in_app_or in H. destruct H as [H|[<-|[]]]; [now left|].
  right. now left.
Qed.

Lemma written_is_loop lines key_field out :
  written (deduplicate_jsonl_file lines key_field) = Some out ->
  keys_countable (read_records lines) key_field = true
  /\ out = map snd (dedup_loop [] (read_records lines) key_field).
Proof.
  unfold deduplicate_jsonl_file.
  destruct (keys_countable (read_records lines) key_field); simpl;
    intros H; inversion H. now split.
Qed.

(** X1: the records written are records of the input with a truthy key,
    and no two of them have equal keys (where [True] and [1] are equal, as
    for a dict). *)
Theorem output_keys_are_distinct
    (lines : list Line) (key_field : string) (out : list Json) :
  written (deduplicate_jsonl_file lines key_field) = Some out ->
  Forall (fun r => In r (read_records lines)
                   /\ json_truthy (key_of r key_field) = true) out
  /\ ForallOrdPairs
       (fun a b => key_eqb (key_of b key_field) (key_of a key_field) = false)
       out.
Proof.
  intros H. apply written_is_loop in H. destruct H as [_ ->].
  set (records := read_records lines).
  destruct (dedup_loop_entries key_field records [] (Forall_nil _)
              (FOP_nil _)) as [He Hd].
  pose proof (dedup_loop_from_input key_field records []) as Hin.
  induction (dedup_loop [] records key_field) as [|[k r] u IH]; simpl.
  - split; constructor.
  - inversion He as [|? ? [Hk Ht] He']; subst.
    inversion Hd as [|? ? Hf Hd']; subst.
    destruct IH as [IH1 IH2]; [exact He'|exact Hd'| |].
    { intros kr Hkr. apply Hin. now right. }
    simpl in *. split.
    + constructor; [|exact IH1]. split; [|exact Ht].
      destruct (Hin (k, r) (or_introl eq_refl)) as [[]|Hr]. exact Hr.
    + constructor; [|exact IH2].
      rewrite Forall_map. rewrite Forall_forall in *.
      intros [k' r'] Hx. specialize (Hf _ Hx). specialize (He' _ Hx).
      destruct He' as [Hk' _]. simpl in *. now rewrite <- Hk, <- Hk'.
Qed.

Lemma output_keys_are_distinct_witness :
  written (deduplicate_jsonl_file sample_lines "url")
  = Some [with_url (JStr "https://shop.example/p/A")]
  /\ Forall (fun r => In r (read_records sample_lines)
                      /\ json_truthy (key_of r "url") = true)
            [with_url (JStr "https://shop.example/p/A")].
Proof.
  split; [reflexivity|].
  apply (output_keys_are_distinct sample_lines "url"
           [with_url (JStr "https://shop.example/p/A")] eq_refl).
Defined.

Lemma dedup_loop_app key_field a b u :
  dedup_loop u (a ++ b) key_field
  = dedup_loop (dedup_loop u a key_field) b key_field.
Proof.
  revert u. induction a as [|r a IH]; intros u; [reflexivity|].
  rewrite <- app_comm_cons, !dedup_loop_cons. apply IH.
Qed.

Lemma keys_countable_all records key_field :
  keys_countable records key_field = true <->
  Forall (fun r => exists v, record_get r key_field = Some v
                             /\ (json_truthy v = true -> hashable v = true))
         records.
Proof.
  induction records as [|r l IH]; simpl.
  - split; [constructor|reflexivity].
  - destruct (record_get r key_field) as [v|] eqn:Er; split; intros H.
    + apply andb_true_iff in H. destruct H as [H1 H2].
      constructor; [|now apply IH].
      exists v. split; [exact Er|]. intros Ht. rewrite Ht in H1. exact H1.
    + inversion H as [|? ? (v' & Ev & Hv) Hl]; subst.
      rewrite Er in Ev. inversion Ev; subst v'.
      apply andb_true_iff. split; [|now apply IH].
      destruct (json_truthy v); [now apply Hv|reflexivity].
    + discriminate.
    + inversion H as [|? ? (v' & Ev & _) _]. congruence.
Qed.

Lemma key_eqb_refl (k : Json) : hashable k = true -> key_eqb k k = true.
Proof.
  destruct k; simpl; try discriminate; intros _.
  - reflexivity.
  - now destruct b.
  - apply Z.eqb_refl.
  - apply String.eqb_refl.
Qed.

Lemma countable_key_refl records key_field r :
  keys_countable records key_field = true -> In r records ->
  keyed key_field r = true ->
  key_eqb (key_of r key_field) (key_of r key_field) = true.
Proof.
  intros Hc Hin Hk. apply keys_countable_all in Hc.
  rewrite Forall_forall in Hc. destruct (Hc r Hin) as (v & Ev & Hv).
  unfold keyed, key_of in *. rewrite Ev in *. apply key_eqb_refl. now apply Hv.
Qed.

(** The entries gathered from a prefix carry keys of records of that
    prefix. *)
Lemma prefix_entries key_field pre :
  Forall (fun kr => fst kr = key_of (snd kr) key_field /\ In (snd kr) pre)
         (dedup_loop [] pre key_field).
Proof.
  destruct (dedup_loop_entries key_field pre [] (Forall_nil _) (FOP_nil _))
    as [He _].
  rewrite Forall_forall in *. intros kr Hkr. split.
  - apply (He kr Hkr).
  - destruct (dedup_loop_from_input key_field pre [] kr Hkr) as [[]|H].
    exact H.
Qed.

(** X2: the first record that carries a key is the one written: a keyed
    record none of whose predecessors has an equal key is in the output. *)
Theorem first_occurrence_is_written
    (lines : list Line) (key_field : string) (out : list Json)
    (pre post : list Json) (r : Json) :
  written (deduplicate_jsonl_file lines key_field) = Some out ->
  read_records lines = pre ++ r :: post ->
  json_truthy (key_of r key_field) = true ->
  (forall r0, In r0 pre ->
     key_eqb (key_of r key_field) (key_of r0 key_field) = false) ->
  In r out.
Proof.
  intros Hw Hsplit Hk Hnew. apply written_is_loop in Hw.
  destruct Hw as [_ ->]. rewrite Hsplit.
  rewrite dedup_loop_app, dedup_loop_cons.
  unfold keyed. rewrite Hk.
  assert (Hg : Py.get key_eqb (dedup_loop [] pre key_field)
                 (key_of r key_field) = None).
  { apply get_none_all. pose proof (prefix_entries key_field pre) as Hp.
    rewrite Forall_forall in *. intros kr Hkr.
    destruct (Hp kr Hkr) as [-> Hin]. now apply Hnew. }
  rewrite Hg.
  destruct (dedup_loop_grows key_field post
              (dedup_loop [] pre key_field ++ [(key_of r key_field, r)]))
    as [added ->].
  apply in_map_iff. exists (key_of r key_field, r). split; [reflexivity|].
  apply in_or_app. left. apply in_or_app. right. now left.
Qed.

Lemma first_occurrence_is_written_witness :
  In (with_url (JStr "https://shop.example/p/A"))
     [with_url (JStr "https://shop.example/p/A")].
Proof.
  apply (first_occurrence_is_written sample_lines "url"
           [with_url (JStr "https://shop.example/p/A")] []
           [with_url (JStr EmptyString); JObj [("title", JStr "t")];
            with_url (JStr "https://shop.example/p/A")]
           (with_url (JStr "https://shop.example/p/A"))).
  - reflexivity.
  - reflexivity.
  - reflexivity.
  - intros r0 [].
Defined.

(** X3: every key of the input survives: for each record with a truthy
    key the output holds a record with an equal key. *)
Theorem every_key_is_represented
    (lines : list Line) (key_field : string) (out : list Json) (r : Json) :
  written (deduplicate_jsonl_file lines key_field) = Some out ->
  In r (read_records lines) ->
  json_truthy (key_of r key_field) = true ->
  exists r', In r' out
             /\ key_eqb (key_of r key_field) (key_of r' key_field) = true.
Proof.
  intros Hw Hin Hk. apply written_is_loop in Hw. destruct Hw as [Hc ->].
  pose proof (countable_key_refl _ _ _ Hc Hin Hk) as Hrefl.
  destruct (in_split _ _ Hin) as (pre & post & Hsplit). rewrite Hsplit.
  rewrite dedup_loop_app, dedup_loop_cons. unfold keyed. rewrite Hk.
  set (u := dedup_loop [] pre key_field).
  destruct (Py.get key_eqb u (key_of r key_field)) as [v|] eqn:Hg.
  - destruct (get_some_entry _ _ _ Hg) as (k' & Hkv & He).
    destruct (dedup_loop_grows key_field post u) as [added ->].
    exists v. split.
    + apply in_map_iff. exists (k', v). split; [reflexivity|].
      apply in_or_app. now left.
    + pose proof (prefix_entries key_field pre) as Hp.
      rewrite Forall_forall in Hp. destruct (Hp _ Hkv) as [Hk' _].
      simpl in Hk'. now rewrite <- Hk'.
  - destruct (dedup_loop_grows key_field post
                (u ++ [(key_of r key_field, r)])) as [added ->].
    exists r. split; [|exact Hrefl].
    apply in_map_iff. exists (key_of r key_field, r). split; [reflexivity|].
    apply in_or_app. left. apply in_or_app. right. now left.
Qed.

Lemma every_key_is_represented_witness :
  exists r', In r' [with_url (JStr "https://shop.example/p/A")]
             /\ key_eqb (key_of (with_url (JStr "https://shop.example/p/A"))
                                "url")
                        (key_of r' "url") = true.
Proof.
  apply (every_key_is_represented sample_lines "url"
           [with_url (JStr "https://shop.example/p/A")]
           (with_url (JStr "https://shop.example/p/A"))).
  - reflexivity.
  - left. reflexivity.
  - reflexivity.
Defined.

Lemma pairs_before {A : Type} (R : A -> A -> Prop) (l l' : list A) (x : A) :
  ForallOrdPairs R (l ++ x :: l') -> Forall (fun a => R a x) l.
Proof.
  induction l as [|a l IH]; simpl; intros H; [constructor|].
  inversion H as [|? ? Ha Hl]; subst. constructor.
  - rewrite Forall_forall in Ha. apply Ha. apply in_or_app. right. now left.
  - now apply IH.
Qed.

Lemma dedup_loop_fixed key_field u acc :
  Forall (entry_ok key_field) u -> keys_apart (acc ++ u) ->
  dedup_loop acc (map snd u) key_field = acc ++ u.
Proof.
  revert acc. induction u as [|[k r] u IH]; intros acc He Hd; simpl map.
  - simpl. now rewrite app_nil_r.
  - inversion He as [|? ? [Hk Ht] He']; subst. simpl in Hk, Ht.
    rewrite dedup_loop_cons, Ht, <- Hk.
    assert (Hg : Py.get key_eqb acc k = None).
    { apply get_none_all. apply (pairs_before _ _ _ _ Hd). }
    rewrite Hg.
    rewrite (IH (acc ++ [(k, r)]) He'); rewrite <- app_assoc;
      [reflexivity|exact Hd].
Qed.

(** X4: de-duplicating the output again changes nothing: the same records
    are written, in the same order, and no duplicate is reported. *)
Theorem deduplication_is_idempotent
    (lines : list Line) (key_field : string) (out : list Json) :
  written (deduplicate_jsonl_file lines key_field) = Some out ->
  deduplicate_jsonl_file (map Parsed out) key_field
  = {| written := Some out;
       report := (List.length out, List.length out, 0%Z) |}.
Proof.
  intros Hw. apply written_is_loop in Hw. destruct Hw as [Hc ->].
  set (records := read_records lines).
  set (u := dedup_loop [] records key_field).
  assert (Hread : read_records (map Parsed (map snd u)) = map snd u).
  { unfold read_records. induction (map snd u) as [|x l IH];
      [reflexivity|]. simpl. now f_equal. }
  destruct (dedup_loop_entries key_field records [] (Forall_nil _)
              (FOP_nil _)) as [He Hd].
  assert (Hc' : keys_countable (map snd u) key_field = true).
  { apply keys_countable_all. apply keys_countable_all in Hc.
    rewrite Forall_forall in *. intros r Hr.
    apply in_map_iff in Hr. destruct Hr as (kr & <- & Hkr). apply Hc.
    destruct (dedup_loop_from_input key_field records [] kr Hkr) as [[]|H].
    exact H. }
  unfold deduplicate_jsonl_file. rewrite Hread, Hc'.
  rewrite (dedup_loop_fixed key_field u [] He Hd). simpl app.
  rewrite !length_map, Z.sub_diag. reflexivity.
Qed.

Lemma deduplication_is_idempotent_witness :
  deduplicate_jsonl_file
    (map Parsed [with_url (JStr "https://shop.example/p/A")]) "url"
  = {| written := Some [with_url (JStr "https://shop.example/p/A")];
       report := (1, 1, 0%Z) |}.
Proof.
  apply (deduplication_is_idempotent sample_lines "url"
           [with_url (JStr "https://shop.example/p/A")] eq_refl).
Defined.

(* ================================================================== *)
(** * Further properties of the container link extractor *)
(* ================================================================== *)

Section HeadFacts.

Variable A : Type.
Variable before : A -> A -> bool.
Hypothesis before_total :
  forall x y, before x y = false -> before y x = true.
Hypothesis before_trans :
  forall x y z, before x y = true -> before y z = true -> before x z = true.

Lemma before_refl x : before x x = true.
Proof.
  destruct (before x x) eqn:E; [reflexivity|].
  pose proof (before_total x x E). congruence.
Qed.

(** The head of the sorted list is in front of everything. *)
Lemma sort_by_head (l : list A) (h : A) (t : list A) :
  Py.sort_by before l = h :: t ->
  forall y, In y l -> before h y = true.
Proof.
  revert h t. induction l as [|x l IH]; intros h t E y Hy; [contradiction|].
  simpl in E.
  assert (Hy' : y = x \/ In y (Py.sort_by before l)).
  { destruct Hy as [->|Hy]; [now left|right].
    eapply Permutation_in; [symmetry; apply sort_by_perm|exact Hy]. }
  assert (Hs : forall h' t', Py.sort_by before l = h' :: t' ->
                 forall z, In z (Py.sort_by before l) -> before h' z = true).
  { intros h' t' E' z Hz. apply (IH h' t' E').
    eapply Permutation_in; [apply sort_by_perm|exact Hz]. }
  destruct (Py.sort_by before l) as [|h' t'] eqn:El; simpl in E.
  - inversion E; subst. destruct Hy' as [->|[]]. apply before_refl.
  - specialize (Hs h' t' eq_refl).
    destruct (before x h') eqn:Hx; inversion E; subst.
    + destruct Hy' as [->|Hy']; [apply before_refl|].
      eapply before_trans; [exact Hx|now apply Hs].
    + destruct Hy' as [->|Hy']; [now apply before_total|now apply Hs].
Qed.

(** An element that everything behind it does not overtake, and that
    overtakes everything in front of it, comes first. *)
Lemma sort_by_first_maximum (pre post : list A) (m : A) :
  (forall p, In p pre -> before p m = false) ->
  (forall q, In q post -> before m q = true) ->
  exists rest, Py.sort_by before (pre ++ m :: post) = m :: rest.
Proof.
  intros Hpre Hpost. induction pre as [|p pre IH]; simpl.
  - destruct (Py.sort_by before post) as [|y t] eqn:E; simpl; [eauto|].
    assert (Hy : before m y = true).
    { apply Hpost. eapply Permutation_in; [apply sort_by_perm|].
      rewrite E. now left. }
    rewrite Hy. eauto.
  - destruct IH as [rest E]; [intros q Hq; apply Hpre; now right|].
    rewrite E. simpl. rewrite (Hpre p (or_introl eq_refl)). eauto.
Qed.

End HeadFacts.

Lemma key_le_total a b : key_le a b = false -> key_le b a = true.
Proof.
  unfold key_le. intros H. apply orb_false_iff in H. destruct H as [H1 H2].
  apply Nat.ltb_ge in H1. apply andb_false_iff in H2.
  apply orb_true_iff.
  destruct (Nat.eq_dec (fst a) (fst b)) as [E|N].
  - right. apply andb_true_iff. split; [apply Nat.eqb_eq; lia|].
    destruct H2 as [H2|H2]; [apply Nat.eqb_neq in H2; lia|].
    apply Z.leb_gt in H2. apply Z.leb_le. lia.
  - left. apply Nat.ltb_lt. lia.
Qed.

Lemma key_le_trans a b c :
  key_le a b = true -> key_le b c = true -> key_le a c = true.
Proof.
  unfold key_le. intros H1 H2.
  apply orb_true_iff in H1. apply orb_true_iff in H2. apply orb_true_iff.
  rewrite !andb_true_iff, !Nat.ltb_lt, !Nat.eqb_eq, !Z.leb_le in *.
  destruct H1 as [H1|[H1 H1']], H2 as [H2|[H2 H2']]; try (left; lia).
  right. split; lia.
Qed.

Lemma main_link_cases (c : Container) :
  _get_main_link_from_container c
  = if is_visible_link (self c) then Some (self c)
    else match sort_links (filter (qualifying (self c)) (anchors c)) with
         | top :: _ => Some top
         | [] => None
         end.
Proof.
  unfold _get_main_link_from_container, is_visible_link.
  destruct (_ && _ && _)%bool; [reflexivity|].
  now rewrite potential_links_filter.
Qed.

Lemma filter_none {A : Type} (f : A -> bool) (l : list A) :
  Forall (fun a => f a = false) l -> filter f l = [].
Proof.
  induction 1 as [|a l Ha _ IH]; simpl; [reflexivity|]. now rewrite Ha.
Qed.

Lemma qualifying_visible ce l :
  qualifying ce l = true ->
  displayed l = true /\ attr_truthy (href l) = true.
Proof.
  unfold qualifying. intros H.
  repeat (apply andb_true_iff in H; destruct H as [H ?]). now split.
Qed.

(** X5: the extractor finds a link exactly when the container is itself a
    visible link or holds a qualifying anchor; the link it returns is the
    container or one of its qualifying anchors, and is in either case
    displayed and has a non-empty href. *)
Theorem main_link_found_iff_available (c : Container) :
  (_get_main_link_from_container c = None <->
   is_visible_link (self c) = false
   /\ Forall (fun a => qualifying (self c) a = false) (anchors c))
  /\ (forall l, _get_main_link_from_container c = Some l ->
        displayed l = true /\ attr_truthy (href l) = true
        /\ ((l = self c /\ is_visible_link (self c) = true)
            \/ (is_visible_link (self c) = false /\ In l (anchors c)
                /\ qualifying (self c) l = true))).
Proof.
  rewrite main_link_cases.
  set (potential := filter (qualifying (self c)) (anchors c)).
  assert (Hperm : Permutation (sort_links potential) potential)
    by apply sort_by_perm.
  destruct (is_visible_link (self c)) eqn:Hv.
  - split.
    + split; [discriminate|]. intros [H _]. discriminate.
    + intros l H. inversion H; subst l.
      unfold is_visible_link in Hv.
      apply andb_true_iff in Hv. destruct Hv as [Hv Hd].
      apply andb_true_iff in Hv. destruct Hv as [_ Hh].
      split; [exact Hd|]. split; [exact Hh|]. left. now split.
  - split.
    + split.
      * destruct (sort_links potential) as [|top rest] eqn:E;
          [|discriminate].
        intros _. split; [reflexivity|].
        apply Permutation_nil in Hperm.
        apply Forall_forall. intros a Ha.
        destruct (qualifying (self c) a) eqn:Hq; [|reflexivity].
        assert (In a potential) by (apply filter_In; now split).
        rewrite Hperm in H. contradiction.
      * intros [_ Hall].
        assert (potential = []) as ->; [|reflexivity].
        now apply filter_none.
    + intros l H.
      destruct (sort_links potential) as [|top rest] eqn:E;
        [discriminate|]. inversion H; subst top.
      assert (Hin : In l potential).
      { eapply Permutation_in; [exact Hperm|]. now left. }
      apply filter_In in Hin. destruct Hin as [Hin Hq].
      destruct (qualifying_visible _ _ Hq) as [Hd Hh].
      split; [exact Hd|]. split; [exact Hh|]. right. now repeat split.
Qed.

Lemma main_link_found_iff_available_witness :
  displayed long_anchor = true /\ attr_truthy (href long_anchor) = true
  /\ ((long_anchor = self div_tile /\ is_visible_link (self div_tile) = true)
      \/ (is_visible_link (self div_tile) = false
          /\ In long_anchor (anchors div_tile)
          /\ qualifying (self div_tile) long_anchor = true)).
Proof.
  apply (proj2 (main_link_found_iff_available div_tile) long_anchor).
  reflexivity.
Defined.

(** X6: the link taken from the anchors is a maximum of the sort key: no
    qualifying anchor has a longer text, and none with a text as long has a
    larger area. *)
Theorem main_link_has_greatest_key (c : Container) (l : Element) :
  is_visible_link (self c) = false ->
  _get_main_link_from_container c = Some l ->
  forall a, In a (anchors c) -> qualifying (self c) a = true ->
    text_length a <= text_length l
    /\ (text_length a = text_length l ->
        (width (size a) * height (size a)
         <= width (size l) * height (size l))%Z).
Proof.
  intros Hv H a Ha Hq. rewrite main_link_cases, Hv in H.
  destruct (sort_links (filter (qualifying (self c)) (anchors c)))
    as [|top rest] eqn:E; [discriminate|]. inversion H; subst top.
  assert (Hk : key_le (link_key a) (link_key l) = true).
  { apply (sort_by_head Element
             (fun x y => key_le (link_key y) (link_key x))
             (fun x y => key_le_total (link_key y) (link_key x))
             (fun x y z H1 H2 =>
                key_le_trans (link_key z) (link_key y) (link_key x) H2 H1)
             _ l rest E).
    apply filter_In. now split. }
  unfold key_le, link_key in Hk. simpl in Hk. fold (text_length a) in Hk.
  fold (text_length l) in Hk.
  apply orb_true_iff in Hk.
  rewrite andb_true_iff, Nat.ltb_lt, Nat.eqb_eq, Z.leb_le in Hk.
  split; [lia|]. intros Heq. destruct Hk as [Hk|[_ Hk]]; [lia|exact Hk].
Qed.

Lemma main_link_has_greatest_key_witness :
  text_length short_anchor <= text_length long_anchor.
Proof.
  apply (main_link_has_greatest_key div_tile long_anchor eq_refl eq_refl
           short_anchor).
  - left. reflexivity.
  - reflexivity.
Defined.

(** X7: ties go to the anchor enumerated first: a qualifying anchor whose
    key is not reached by any qualifying anchor before it, and not exceeded
    by any after it, is the one returned. *)
Theorem first_of_the_best_links_wins
    (c : Container) (pre post : list Element) (l : Element) :
  is_visible_link (self c) = false ->
  filter (qualifying (self c)) (anchors c) = pre ++ l :: post ->
  (forall p, In p pre -> key_le (link_key l) (link_key p) = false) ->
  (forall q, In q post -> key_le (link_key q) (link_key l) = true) ->
  _get_main_link_from_container c = Some l.
Proof.
  intros Hv Hsplit Hpre Hpost. rewrite main_link_cases, Hv, Hsplit.
  destruct (sort_by_first_maximum Element
              (fun x y => key_le (link_key y) (link_key x))
              pre post l Hpre Hpost) as [rest E].
  unfold sort_links. now rewrite E.
Qed.

(** Two anchors with the same text and the same size. *)
Definition twin_tile : Container :=
  {| self := self div_tile;
     anchors := [sample_anchor 5 "PlayStation"; sample_anchor 6 "PlayStation";
                 short_anchor] |}.

Lemma first_of_the_best_links_wins_witness :
  _get_main_link_from_container twin_tile
  = Some (sample_anchor 5 "PlayStation").
Proof.
  apply (first_of_the_best_links_wins twin_tile []
           [sample_anchor 6 "PlayStation"; short_anchor]
           (sample_anchor 5 "PlayStation")).
  - reflexivity.
  - reflexivity.
  - intros p [].
  - intros q [<-|[<-|[]]]; reflexivity.
Defined.

(* ================================================================== *)
(** * Properties of the class frequency count *)
(* ================================================================== *)

(** The key an element is counted under: the signature of a displayed
    element with a class attribute that holds a token. *)
Definition counted_under (element : PageElement) : option (list string) :=
  match pe_displayed element, pe_class element with
  | Some true, Some classes_str =>
      match class_signature classes_str with
      | [] => None
      | sg => Some sg
      end
  | _, _ => None
  end.

(** How many of the elements are counted under [k]. *)
Definition occurrences (k : list string) (elements : list PageElement)
  : nat :=
  List.length
    (filter (fun e => match counted_under e with
                      | Some sg => sig_eqb sg k
                      | None => false
                      end) elements).

Definition count_of (d : list (list string * nat)) (k : list string) : nat :=
  match Py.get sig_eqb d k with Some v => v | None => 0 end.

Lemma sig_eqb_eq a b : sig_eqb a b = true <-> a = b.
Proof.
  unfold sig_eqb. destruct (list_eq_dec string_dec a b); split; congruence.
Qed.

Lemma empty_class_no_signature classes_str :
  Py.truthy classes_str = false -> class_signature classes_str = [].
Proof. destruct classes_str; [reflexivity|discriminate]. Qed.

Lemma count_step_counted d element :
  count_step d element
  = match counted_under element with
    | Some k => Py.set sig_eqb d k (count_of d k + 1)
    | None => d
    end.
Proof.
  unfold count_step, counted_under, count_of.
  destruct (pe_displayed element) as [[|]|]; try reflexivity.
  destruct (pe_class element) as [classes_str|]; [|reflexivity].
  destruct (Py.truthy classes_str) eqn:T.
  - now destruct (class_signature classes_str).
  - now rewrite (empty_class_no_signature _ T).
Qed.

Lemma get_set_same (d : list (list string * nat)) k v :
  Py.get sig_eqb (Py.set sig_eqb d k v) k = Some v.
Proof.
  induction d as [|[k' v'] d IH]; simpl.
  - now rewrite sig_eqb_refl.
  - destruct (sig_eqb k k') eqn:E; simpl; rewrite E; [reflexivity|exact IH].
Qed.

Lemma get_set_other (d : list (list string * nat)) k k' v :
  k <> k' -> Py.get sig_eqb (Py.set sig_eqb d k v) k' = Py.get sig_eqb d k'.
Proof.
  intros N. induction d as [|[k0 v0] d IH]; simpl.
  - destruct (sig_eqb k' k) eqn:E; [|reflexivity].
    apply sig_eqb_eq in E. congruence.
  - destruct (sig_eqb k k0) eqn:E; simpl.
    + apply sig_eqb_eq in E. subst k0.
      destruct (sig_eqb k' k) eqn:E'; [|reflexivity].
      apply sig_eqb_eq in E'. congruence.
    + destruct (sig_eqb k' k0); [reflexivity|exact IH].
Qed.

Lemma set_keys (d : list (list string * nat)) k v :
  map fst (Py.set sig_eqb d k v)
  = if existsb (sig_eqb k) (map fst d) then map fst d else map fst d ++ [k].
Proof.
  induction d as [|[k' v'] d IH]; simpl; [reflexivity|].
  destruct (sig_eqb k k') eqn:E; simpl; [reflexivity|].
  rewrite IH. now destruct (existsb (sig_eqb k) (map fst d)).
Qed.

Lemma count_fold elements d k :
  count_of (fold_left count_step elements d) k
  = count_of d k + occurrences k elements.
Proof.
  revert d. induction elements as [|e l IH]; intros d; simpl.
  - unfold occurrences. simpl. lia.
  - rewrite IH, count_step_counted. unfold occurrences. simpl.
    destruct (counted_under e) as [sg|]; [|reflexivity].
    destruct (sig_eqb sg k) eqn:E; simpl.
    + apply sig_eqb_eq in E. subst sg.
      unfold count_of at 1. rewrite get_set_same. lia.
    + unfold count_of at 1. rewrite get_set_other; [reflexivity|].
      intros ->. now rewrite sig_eqb_refl in E.
Qed.

(** The dict holds each key once, no empty key, and no zero count. *)
Definition counts_ok (d : list (list string * nat)) : Prop :=
  NoDup (map fst d) /\ Forall (fun kv => fst kv <> [] /\ 0 < snd kv) d.

Lemma counted_under_nonempty e k : counted_under e = Some k -> k <> [].
Proof.
  unfold counted_under.
  destruct (pe_displayed e) as [[|]|]; try discriminate.
  destruct (pe_class e) as [s|]; [|discriminate].
  destruct (class_signature s); [discriminate|].
  intros H; inversion H. discriminate.
Qed.

Lemma set_ok d k v : counts_ok d -> k <> [] -> 0 < v ->
  counts_ok (Py.set sig_eqb d k v).
Proof.
  intros [Hn Hf] Hk Hv. split.
  - rewrite set_keys. destruct (existsb (sig_eqb k) (map fst d)) eqn:E;
      [exact Hn|].
    apply NoDup_app; [exact Hn|constructor; [intros []|constructor]|].
    intros x Hx [<-|[]].
    assert (existsb (sig_eqb k) (map fst d) = true); [|congruence].
    apply existsb_exists. exists k. split; [exact Hx|apply sig_eqb_refl].
  - clear Hn. induction d as [|[k' v'] d IH]; simpl.
    + constructor; [now split|constructor].
    + inversion Hf; subst. destruct (sig_eqb k k') eqn:E.
      * constructor; [|assumption]. simpl in *. split; [tauto|exact Hv].
      * constructor; [assumption|now apply IH].
Qed.

Lemma fold_ok elements d :
  counts_ok d -> counts_ok (fold_left count_step elements d).
Proof.
  revert d. induction elements as [|e l IH]; intros d Hd; [exact Hd|].
  simpl. apply IH. rewrite count_step_counted.
  destruct (counted_under e) as [k|] eqn:E; [|exact Hd].
  apply set_ok; [exact Hd|now apply (counted_under_nonempty e)|lia].
Qed.

Lemma in_get (d : list (list string * nat)) k v :
  NoDup (map fst d) -> (In (k, v) d <-> Py.get sig_eqb d k = Some v).
Proof.
  induction d as [|[k' v'] d IH]; simpl; intros Hn.
  - split; [intros []|discriminate].
  - inversion Hn as [|? ? Hk Hn']; subst.
    destruct (sig_eqb k k') eqn:E.
    + apply sig_eqb_eq in E. subst k'. split.
      * intros [H|H]; [congruence|].
        elim Hk. apply in_map_iff. now exists (k, v).
      * intros H. inversion H. now left.
    + rewrite <- (IH Hn'). split; [|tauto].
      intros [H|H]; [|exact H]. inversion H; subst.
      now rewrite sig_eqb_refl in E.
Qed.

Lemma in_class_counts
    (elements : list PageElement) (k : list string) (n : nat) :
  In (k, n) (class_counts elements) <->
  n = occurrences k elements /\ 0 < n.
Proof.
  unfold class_counts.
  pose proof (fold_ok elements [] (conj (NoDup_nil _) (Forall_nil _)))
    as [Hn Hf].
  pose proof (count_fold elements [] k) as Hc. unfold count_of in Hc.
  simpl in Hc. rewrite (in_get _ k n Hn). split.
  - intros Hg. rewrite Hg in Hc. split; [exact Hc|].
    apply (in_get _ k n Hn) in Hg. rewrite Forall_forall in Hf.
    apply (Hf _ Hg).
  - intros [-> Hpos].
    destruct (Py.get sig_eqb (fold_left count_step elements []) k);
      [now subst|lia].
Qed.

(** X8: the frequency dict holds a signature exactly when some displayed
    element is counted under it, once, and with the number of those
    elements as its count; hidden elements, elements whose read raises and
    elements without a class token are not counted anywhere. *)
Theorem class_counts_are_occurrences
    (elements : list PageElement) (k : list string) (n : nat) :
  In (k, n) (class_counts elements) <->
  n = occurrences k elements /\ 0 < n.
Proof. apply in_class_counts. Qed.

Section OrderFacts.

Variable A : Type.
Variable before : A -> A -> bool.
Hypothesis before_total :
  forall x y, before x y = false -> before y x = true.
Hypothesis before_trans :
  forall x y z, before x y = true -> before y z = true -> before x z = true.

Lemma insert_ordered (x : A) (l : list A) :
  ForallOrdPairs (fun a b => before a b = true) l ->
  ForallOrdPairs (fun a b => before a b = true) (Py.insert before x l).
Proof.
  induction 1 as [|y l Hy Hl IH]; simpl.
  - constructor; constructor.
  - destruct (before x y) eqn:E.
    + constructor; [|now constructor].
      constructor; [exact E|].
      rewrite Forall_forall in *. intros z Hz.
      eapply before_trans; [exact E|now apply Hy].
    + constructor; [|exact IH].
      eapply Permutation_Forall; [symmetry; apply insert_perm|].
      constructor; [now apply before_total|exact Hy].
Qed.

Lemma sort_by_ordered (l : list A) :
  ForallOrdPairs (fun a b => before a b = true) (Py.sort_by before l).
Proof.
  induction l as [|x l IH]; simpl; [constructor|].
  now apply insert_ordered.
Qed.

End OrderFacts.

Lemma pairs_impl {A : Type} (R R' : A -> A -> Prop) (l : list A) :
  ForallOrdPairs R l -> (forall a b, R a b -> R' a b) ->
  ForallOrdPairs R' l.
Proof.
  intros H Himp. induction H as [|a l Ha Hl IH]; constructor; [|exact IH].
  rewrite Forall_forall in *. intros b Hb. apply Himp. now apply Ha.
Qed.

(** Dropping entries of the dict keeps its keys apart. *)
Lemma frequent_keys_nodup (keep : list string * nat -> bool)
    (d : list (list string * nat)) :
  NoDup (map fst d) -> NoDup (map fst (filter keep d)).
Proof.
  induction d as [|[k v] d IH]; intros H; simpl in *; [exact H|].
  apply NoDup_cons_iff in H. destruct H as [Hk Hd].
  destruct (keep (k, v)); simpl; [|auto].
  apply NoDup_cons_iff. split; [|auto]. intros Hin. apply Hk.
  clear - Hin. induction d as [|[k' v'] d IH]; simpl in *; [exact Hin|].
  destruct (keep (k', v')); simpl in *; tauto.
Qed.

Lemma in_sorted_frequent (elements : list PageElement) k n :
  In (k, n) (sorted_frequent_classes elements) <->
  n = occurrences k elements /\ min_products_for_list <= n.
Proof.
  unfold sorted_frequent_classes, Py.sorted_desc.
  set (frequent := filter (fun kv => min_products_for_list <=? snd kv)
                          (class_counts elements)).
  set (before := fun x y : list string * nat => snd y <=? snd x).
  assert (Hperm : Permutation (Py.sort_by before frequent) frequent)
    by apply sort_by_perm.
  split.
  - intros H. apply (Permutation_in _ Hperm) in H.
    apply filter_In in H. destruct H as [H Hn].
    change ((min_products_for_list <=? n) = true) in Hn.
    apply Nat.leb_le in Hn. apply in_class_counts in H. tauto.
  - intros [Hn Hmin].
    apply (Permutation_in _ (Permutation_sym Hperm)).
    apply filter_In. split.
    + apply in_class_counts. split; [exact Hn|].
      unfold min_products_for_list in Hmin. lia.
    + change ((min_products_for_list <=? n) = true). now apply Nat.leb_le.
Qed.

(** X9: the candidates handed to the container loop are exactly the
    signatures counted at least [min_products_for_list] times, each listed
    once with its number of elements, in descending order of that
    number. *)
Theorem frequent_classes_are_listed (elements : list PageElement) :
  (forall k n, In (k, n) (sorted_frequent_classes elements) <->
               n = occurrences k elements /\ min_products_for_list <= n)
  /\ NoDup (map fst (sorted_frequent_classes elements))
  /\ ForallOrdPairs (fun a b => snd b <= snd a)
       (sorted_frequent_classes elements).
Proof.
  split; [apply in_sorted_frequent|].
  unfold sorted_frequent_classes, Py.sorted_desc.
  set (frequent := filter (fun kv => min_products_for_list <=? snd kv)
                          (class_counts elements)).
  set (before := fun x y : list string * nat => snd y <=? snd x).
  assert (Hperm : Permutation (Py.sort_by before frequent) frequent)
    by apply sort_by_perm.
  split.
  - eapply Permutation_NoDup;
      [apply Permutation_map; symmetry; exact Hperm|].
    apply frequent_keys_nodup. unfold class_counts.
    apply (fold_ok elements [] (conj (NoDup_nil _) (Forall_nil _))).
  - pose proof (sort_by_ordered _ before) as Ho.
    assert (Ho' : ForallOrdPairs (fun a b => before a b = true)
                    (Py.sort_by before frequent)).
    { apply Ho.
      - intros x y H. unfold before in *. apply Nat.leb_le.
        apply Nat.leb_gt in H. lia.
      - intros x y z H1 H2. unfold before in *.
        apply Nat.leb_le in H1, H2. apply Nat.leb_le. lia. }
    apply (pairs_impl _ _ _ Ho'). intros a b H. now apply Nat.leb_le.
Qed.

(* ================================================================== *)
(** * Further properties of list discovery *)
(* ================================================================== *)

Lemma main_link_visible (c : Container) (l : Element) :
  _get_main_link_from_container c = Some l ->
  displayed l = true /\ attr_truthy (href l) = true.
Proof.
  rewrite main_link_cases.
  destruct (is_visible_link (self c)) eqn:Hv.
  - intros H. inversion H; subst l. unfold is_visible_link in Hv.
    apply andb_true_iff in Hv. destruct Hv as [Hv Hd].
    apply andb_true_iff in Hv. destruct Hv as [_ Hh]. now split.
  - destruct (sort_links (filter (qualifying (self c)) (anchors c)))
      as [|top rest] eqn:E; [discriminate|].
    intros H. inversion H; subst top.
    assert (Hin : In l (filter (qualifying (self c)) (anchors c))).
    { eapply Permutation_in; [apply sort_by_perm|].
      unfold sort_links in E. rewrite E. now left. }
    apply filter_In in Hin. eapply qualifying_visible. apply Hin.
Qed.

(** The elements the frequency count looks at. *)
Definition is_counted (e : PageElement) : bool :=
  match counted_under e with Some _ => true | None => false end.

Lemma occurrences_le_counted k elements :
  occurrences k elements <= List.length (filter is_counted elements).
Proof.
  unfold occurrences, is_counted.
  induction elements as [|e l IH]; simpl; [lia|].
  destruct (counted_under e) as [sg|]; [|exact IH].
  destruct (sig_eqb sg k); simpl; lia.
Qed.

Section DiscoveryMore.

Variables World Handle : Type.
Variable look : World -> Handle -> option Container.
Variable inner_height : World -> Outcome World unit.
Variable scroll_height : World -> Outcome World unit.
Variable scroll_wait : World -> Outcome World unit.
Variable find_elements : World -> string -> option (list Handle).

Notation Group := (Group World).
Notation get_main_link := (get_main_link look).
Notation scroll_retry := (scroll_retry look scroll_wait).
Notation container_step := (container_step look scroll_height scroll_wait).
Notation process_containers :=
  (process_containers look scroll_height scroll_wait).
Notation try_candidate :=
  (try_candidate look inner_height scroll_height scroll_wait find_elements).
Notation candidates_loop :=
  (candidates_loop look inner_height scroll_height scroll_wait
     find_elements).

(** Every link kept is displayed and has an href. *)
Definition links_visible (g : Group) : Prop :=
  Forall (fun l => displayed l = true /\ attr_truthy (href l) = true)
         (links_from_this_class_group g).

Lemma get_main_link_visible w container l :
  get_main_link w container = Some (Some l) ->
  displayed l = true /\ attr_truthy (href l) = true.
Proof.
  unfold get_main_link. destruct (look w container); [|discriminate].
  intros H. apply (main_link_visible c). congruence.
Qed.

Lemma record_link_visible g w l :
  links_visible g ->
  displayed l = true /\ attr_truthy (href l) = true ->
  links_visible (record_link g w l).
Proof.
  intros Hg Hl. unfold links_visible, record_link; simpl.
  destruct (_ && _)%bool; [|exact Hg].
  apply Forall_app. split; [exact Hg|]. now constructor.
Qed.

Lemma scroll_retry_visible n w container l w' :
  scroll_retry n w container = Done (Some l) w' ->
  displayed l = true /\ attr_truthy (href l) = true.
Proof.
  revert w. induction n as [|n IH]; intros w; simpl; [discriminate|].
  destruct (scroll_wait w) as [[] w1|e w1]; [|discriminate].
  destruct (get_main_link w1 container) as [[l1|]|] eqn:E; [| |discriminate].
  - intros H. inversion H; subst. now apply (get_main_link_visible w' container).
  - apply IH.
Qed.

Lemma container_step_visible g c g' :
  links_visible g -> container_step g c = inr g' -> links_visible g'.
Proof.
  intros Hg. unfold container_step.
  destruct (get_main_link (page g) c) as [[l|]|] eqn:E; [| |discriminate].
  - intros H; inversion H. apply record_link_visible; [exact Hg|].
    now apply (get_main_link_visible (page g) c).
  - destruct (last_main_link g).
    + destruct (scroll_height (page g)) as [[] w0|ex w0]; [|discriminate].
      destruct (scroll_retry _ _ _) as [[l|] w|ex w] eqn:Er; intros H;
        inversion H; [|exact Hg].
      apply record_link_visible; [exact Hg|].
      now apply (scroll_retry_visible _ _ _ _ _ Er).
    + intros H; inversion H. exact Hg.
Qed.

Lemma process_containers_visible g l g' unreached :
  links_visible g -> process_containers g l = inr (g', unreached) ->
  links_visible g'.
Proof.
  revert g. induction l as [|c l IH]; intros g Hg H.
  - now inversion H; subst.
  - rewrite process_containers_cons in H.
    destruct (container_step g c) as [w|g1] eqn:E; [discriminate|].
    pose proof (container_step_visible _ _ _ Hg E) as Hg1.
    destruct (2 <=? consecutive_none_returns g1).
    + now inversion H; subst.
    + now apply (IH g1).
Qed.

Lemma try_candidate_found w class_tuple links selector w' :
  try_candidate w class_tuple = Found links selector w' ->
  selector = class_selector_value class_tuple
  /\ min_products_for_list <= List.length links
  /\ NoDup (map (fun l => attr_or_empty (href l)) links)
  /\ Forall (fun l => displayed l = true /\ attr_truthy (href l) = true)
            links.
Proof.
  unfold try_candidate.
  destruct (find_elements w (class_selector_value class_tuple))
    as [containers|]; [|discriminate].
  destruct (min_products_for_list <=? List.length containers);
    [|discriminate].
  destruct (inner_height w) as [[] w0|ex w0]; [|discriminate].
  destruct (process_containers (new_group w0) containers) as [wx|[g u]] eqn:E;
    [discriminate|].
  destruct (min_products_for_list
            <=? List.length (links_from_this_class_group g)) eqn:El;
    [|discriminate].
  intros H. inversion H; subst. split; [reflexivity|].
  split; [now apply Nat.leb_le|]. split.
  - apply ledger_distinct.
    eapply process_containers_ledger; [apply new_group_ledger|exact E].
  - eapply process_containers_visible; [|exact E]. constructor.
Qed.

(** X10: whatever the page does, a product list that discovery returns
    has at least [min_products_for_list] links, all displayed, with
    non-empty and pairwise distinct hrefs, and comes with the selector of
    one of the candidate class combinations. *)
Theorem discovered_links_are_usable
    (w w' : World) (candidates : list (list string * nat))
    (links : list Element) (selector : string) :
  candidates_loop w candidates = (Some (links, selector), w') ->
  min_products_for_list <= List.length links
  /\ NoDup (map (fun l => attr_or_empty (href l)) links)
  /\ Forall (fun l => displayed l = true /\ attr_truthy (href l) = true)
            links
  /\ exists class_tuple count,
       In (class_tuple, count) candidates /\ class_tuple <> []
       /\ selector = class_selector_value class_tuple.
Proof.
  revert w. induction candidates as [|[class_tuple count] later IH];
    intros w H; [discriminate|].
  assert (Hnext : forall w0,
            candidates_loop w0 later = (Some (links, selector), w') ->
            min_products_for_list <= List.length links
            /\ NoDup (map (fun l => attr_or_empty (href l)) links)
            /\ Forall (fun l => displayed l = true
                                /\ attr_truthy (href l) = true) links
            /\ exists class_tuple0 count0,
                 In (class_tuple0, count0) ((class_tuple, count) :: later)
                 /\ class_tuple0 <> []
                 /\ selector = class_selector_value class_tuple0).
  { intros w0 H0.
    destruct (IH _ H0) as (A & B & C & ct & n & Hin & Hne & Hs).
    repeat split; try assumption. exists ct, n.
    split; [now right|now split]. }
  destruct class_tuple as [|t ts]; [now apply (Hnext w)|].
  rewrite candidates_loop_cons in H.
  destruct (try_candidate w (t :: ts)) as [links0 sel0 w0|w0|w0] eqn:E;
    [|now apply (Hnext w0)|now apply (Hnext w0)].
  inversion H; subst.
  destruct (try_candidate_found _ _ _ _ _ E) as (Hs & A & B & C).
  repeat split; try assumption.
  exists (t :: ts), count. split; [now left|]. split; [discriminate|exact Hs].
Qed.

(** X11: lazy loading at the head of a listing is not waited for: when
    neither of the first two containers of a candidate yields a link, the
    candidate is given up with no link and without a single scroll, the
    page left as the read of the window height left it, and discovery goes
    on with the later candidates. The candidate ends as one with too few
    links when both containers were read, and by the exception when a
    read raised. *)
Theorem two_leading_failures_give_up_unscrolled
    (w w0 : World) (class_tuple : list string) (c1 c2 : Handle)
    (rest : list Handle) :
  find_elements w (class_selector_value class_tuple)
  = Some (c1 :: c2 :: rest) ->
  min_products_for_list <= List.length (c1 :: c2 :: rest) ->
  inner_height w = Done tt w0 ->
  (forall l, get_main_link w0 c1 <> Some (Some l)) ->
  (forall l, get_main_link w0 c2 <> Some (Some l)) ->
  try_candidate w class_tuple
  = match get_main_link w0 c1, get_main_link w0 c2 with
    | Some _, Some _ => NotEnough w0
    | _, _ => Raised w0
    end
  /\ (get_main_link w0 c1 = Some None -> get_main_link w0 c2 = Some None ->
      process_containers (new_group w0) (c1 :: c2 :: rest)
      = inr (record_none (record_none (new_group w0) w0) w0, rest))
  /\ (forall count later,
        class_tuple <> [] ->
        candidates_loop w ((class_tuple, count) :: later)
        = candidates_loop w0 later).
Proof.
  intros Hf Hn Hi H1 H2.
  assert (Hp : process_containers (new_group w0) (c1 :: c2 :: rest)
               = match get_main_link w0 c1, get_main_link w0 c2 with
                 | Some _, Some _ =>
                     inr (record_none (record_none (new_group w0) w0) w0,
                          rest)
                 | _, _ => inl w0
                 end).
  { rewrite process_containers_cons. unfold container_step at 1.
    simpl page.
    destruct (get_main_link w0 c1) as [[l1|]|]; [now elim (H1 l1)| |];
      [|reflexivity].
    simpl last_main_link.
    simpl consecutive_none_returns. change (2 <=? 1) with false. cbv iota.
    rewrite process_containers_cons. unfold container_step at 1.
    simpl page.
    destruct (get_main_link w0 c2) as [[l2|]|]; [now elim (H2 l2)| |];
      reflexivity. }
  assert (Ht : try_candidate w class_tuple
               = match get_main_link w0 c1, get_main_link w0 c2 with
                 | Some _, Some _ => NotEnough w0
                 | _, _ => Raised w0
                 end).
  { unfold try_candidate. rewrite Hf. apply Nat.leb_le in Hn.
    rewrite Hn, Hi, Hp.
    destruct (get_main_link w0 c1) as [o1|]; [|reflexivity].
    destruct (get_main_link w0 c2) as [o2|]; reflexivity. }
  split; [exact Ht|]. split.
  - intros E1 E2. rewrite Hp, E1, E2. reflexivity.
  - intros count later Hne.
    destruct class_tuple as [|t ts]; [now elim Hne|].
    rewrite candidates_loop_cons, Ht.
    destruct (get_main_link w0 c1) as [o1|]; [|reflexivity].
    destruct (get_main_link w0 c2) as [o2|]; reflexivity.
Qed.

(** X12: with a scroll that never raises, the retry loop for a container
    scrolls at most [remaining] times, and after each scroll reads the
    container again: it stops at the first scroll after which the container
    yields a link, is left by the exception at the first scroll after
    which the container cannot be read, and otherwise gives up after
    exactly [remaining] scrolls. *)
Theorem scroll_retry_is_bounded
    (scroll : World -> World) (remaining : nat) (w : World)
    (container : Handle) :
  (forall w0, scroll_wait w0 = Done tt (scroll w0)) ->
  exists k, k <= remaining
    /\ (forall j, 1 <= j < k ->
          get_main_link (Nat.iter j scroll w) container = Some None)
    /\ match scroll_retry remaining w container with
       | Done (Some l) w' =>
           w' = Nat.iter k scroll w /\ 1 <= k
           /\ get_main_link w' container = Some (Some l)
       | Done None w' =>
           w' = Nat.iter k scroll w /\ k = remaining
           /\ (1 <= k -> get_main_link w' container = Some None)
       | Throws e w' =>
           w' = Nat.iter k scroll w /\ 1 <= k
           /\ get_main_link w' container = None
       end.
Proof.
  intros Hs. revert w. induction remaining as [|n IH]; intros w.
  - exists 0. split; [lia|]. split; [intros j Hj; lia|]. simpl.
    split; [reflexivity|]. split; [reflexivity|lia].
  - simpl scroll_retry. rewrite Hs.
    destruct (get_main_link (scroll w) container) as [[l|]|] eqn:E.
    + exists 1. split; [lia|]. split; [intros j Hj; lia|].
      split; [reflexivity|]. split; [lia|exact E].
    + destruct (IH (scroll w)) as (k & Hk & Hfail & Hres).
      exists (S k). split; [lia|]. split.
      * intros j Hj. destruct j as [|j]; [lia|]. rewrite Nat.iter_succ_r.
        destruct j as [|j]; [exact E|]. apply Hfail. lia.
      * rewrite Nat.iter_succ_r.
        destruct (scroll_retry n (scroll w) container) as [[l|] w'|e w'].
        -- destruct Hres as (Hw & Hk1 & Hl). split; [exact Hw|].
           split; [lia|exact Hl].
        -- destruct Hres as (Hw & Hk1 & Hl). split; [exact Hw|].
           split; [lia|]. intros _. destruct k as [|k]; [|apply Hl; lia].
           simpl in Hw. subst w'. exact E.
        -- destruct Hres as (Hw & Hk1 & Hl). split; [exact Hw|].
           split; [lia|exact Hl].
    + exists 1. split; [lia|]. split; [intros j Hj; lia|].
      split; [reflexivity|]. split; [lia|exact E].
Qed.

End DiscoveryMore.

(** X13: a page on which fewer than [min_products_for_list] elements are
    displayed with a class has no candidate: discovery returns nothing and
    leaves the page untouched. *)
Theorem too_few_elements_no_discovery
    (World Handle : Type) (look : World -> Handle -> option Container)
    (inner_height scroll_height scroll_wait : World -> Outcome World unit)
    (find_elements : World -> string -> option (list Handle))
    (w : World) (elements : list PageElement) :
  List.length (filter is_counted elements) < min_products_for_list ->
  find_products look inner_height scroll_height scroll_wait find_elements
    w elements
  = (None, w).
Proof.
  intros Hfew. unfold find_products.
  destruct (sorted_frequent_classes elements) as [|[k n] l] eqn:E;
    [reflexivity|].
  assert (Hin : In (k, n) (sorted_frequent_classes elements))
    by (rewrite E; now left).
  apply in_sorted_frequent in Hin. destruct Hin as [-> Hmin].
  pose proof (occurrences_le_counted k elements). lia.
Qed.

Lemma discovered_links_are_usable_witness :
  min_products_for_list <= List.length (map tile_link (seq 0 11))
  /\ NoDup (map (fun l => attr_or_empty (href l)) (map tile_link (seq 0 11)))
  /\ Forall (fun l => displayed l = true /\ attr_truthy (href l) = true)
            (map tile_link (seq 0 11))
  /\ exists class_tuple count,
       In (class_tuple, count) [(["tile"], 11); (["card"], 10)]
       /\ class_tuple <> []
       /\ ".tile" = class_selector_value class_tuple.
Proof.
  apply (discovered_links_are_usable nat nat (static_look full_listing)
           static_height static_height static_scroll
           (static_find full_listing) 0 0
           [(["tile"], 11); (["card"], 10)]).
  vm_compute. reflexivity.
Defined.

(** Two empty tiles in front of ten filled ones. *)
Definition late_listing : list bool := [false; false] ++ repeat true 10.

(** Ten filled tiles behind an empty tile and a container that has left
    the page: the selector matched twelve containers, the second cannot be
    read. *)
Definition fading_look (w : nat) (h : nat) : option Container :=
  if h =? 1 then None else static_look late_listing w h.

Lemma two_leading_failures_give_up_unscrolled_witness :
  try_candidate (static_look late_listing) static_height static_height
    static_scroll (static_find late_listing) 0 ["tile"] = NotEnough 0
  /\ try_candidate fading_look static_height static_height
       static_scroll (static_find late_listing) 0 ["tile"] = Raised 0
  /\ candidates_loop fading_look static_height static_height
       static_scroll (static_find late_listing) 0 [(["tile"], 12)]
     = (None, 0).
Proof.
  destruct (two_leading_failures_give_up_unscrolled nat nat
              (static_look late_listing) static_height static_height
              static_scroll (static_find late_listing)
              0 0 ["tile"] 0 1 (seq 2 10)) as (H1 & _ & _).
  { reflexivity. }
  { vm_compute. lia. }
  { reflexivity. }
  { intros l. discriminate. }
  { intros l. discriminate. }
  destruct (two_leading_failures_give_up_unscrolled nat nat
              fading_look static_height static_height
              static_scroll (static_find late_listing)
              0 0 ["tile"] 0 1 (seq 2 10)) as (H2 & _ & H3).
  { reflexivity. }
  { vm_compute. lia. }
  { reflexivity. }
  { intros l. discriminate. }
  { intros l. discriminate. }
  split; [exact H1|]. split; [exact H2|].
  rewrite (H3 12 []); [reflexivity|discriminate].
Defined.

(** A tile that stays empty through the five scrolls, and a tile that
    leaves the page at the second scroll. *)
Definition leaving_look (w : nat) (h : nat) : option Container :=
  if 2 <=? w then None else Some (tile h false).

Lemma scroll_retry_is_bounded_witness :
  (exists k, k <= 5
     /\ (forall j, 1 <= j < k ->
           get_main_link (static_look gapped_listing) (Nat.iter j S 0) 1
           = Some None)
     /\ 5 = Nat.iter k S 0 /\ k = 5
     /\ (1 <= k ->
         get_main_link (static_look gapped_listing) 5 1 = Some None))
  /\ (exists k, k <= 5
        /\ (forall j, 1 <= j < k ->
              get_main_link leaving_look (Nat.iter j S 0) 1 = Some None)
        /\ 2 = Nat.iter k S 0 /\ 1 <= k
        /\ get_main_link leaving_look 2 1 = None).
Proof.
  split.
  - apply (scroll_retry_is_bounded nat nat (static_look gapped_listing)
             static_scroll S 5 0 1).
    intros w0. reflexivity.
  - apply (scroll_retry_is_bounded nat nat leaving_look
             static_scroll S 5 0 1).
    intros w0. reflexivity.
Defined.

Lemma too_few_elements_no_discovery_witness :
  find_products (static_look full_listing) static_height static_height
    static_scroll (static_find full_listing) 0
    (repeat (visible_with_class "tile") 9) = (None, 0).
Proof.
  apply (too_few_elements_no_discovery nat nat (static_look full_listing)
           static_height static_height
           static_scroll (static_find full_listing) 0
           (repeat (visible_with_class "tile") 9)).
  vm_compute. lia.
Defined.

(* ================================================================== *)
(** * Further properties of the extraction fallback *)
(* ================================================================== *)

(** X14: a value that [extract_with_deepseek] returns was asked for as a
    price or a title, is the stripped content of the first choice of the
    response, is not empty and is not the word [None] in any case. *)
Theorem fallback_value_is_clean
    (api : string -> string -> ApiOutcome) (html target_field v : string) :
  extract_with_deepseek api html target_field = Some v ->
  (target_field = "price" \/ target_field = "title")
  /\ (exists prompt content rest,
        prompt_for target_field = Some prompt
        /\ api prompt (truncate_html html) = ApiChoices (Some content :: rest)
        /\ v = Py.strip content)
  /\ v <> EmptyString
  /\ Py.lower v <> "none".
Proof.
  unfold extract_with_deepseek.
  destruct (prompt_for target_field) as [prompt|] eqn:Hp; [|discriminate].
  assert (Hf : target_field = "price" \/ target_field = "title").
  { unfold prompt_for in Hp.
    destruct (String.eqb_spec target_field "price"); [now left|].
    destruct (String.eqb_spec target_field "title"); [now right|].
    discriminate. }
  destruct (api prompt (truncate_html html))
    as [| |[|[content|] rest]] eqn:Ha; try discriminate.
  destruct (String.eqb (Py.lower (Py.strip content)) "none") eqn:El;
    [discriminate|].
  destruct (Py.truthy (Py.strip content)) eqn:Et; [|discriminate].
  simpl. intros H. inversion H; subst v.
  split; [exact Hf|]. split; [|split].
  - exists prompt, content, rest. now repeat split.
  - intros E. rewrite E in Et. discriminate.
  - intros E. rewrite E in El. discriminate.
Qed.

(** An endpoint that answers with a padded price. *)
Definition api_padded : string -> string -> ApiOutcome :=
  fun _ _ => ApiChoices [Some "  $499.99 "; Some "$1.00"].

Lemma fallback_value_is_clean_witness :
  extract_with_deepseek api_padded "<html></html>" "price" = Some "$499.99"
  /\ "$499.99" <> EmptyString /\ Py.lower "$499.99" <> "none".
Proof.
  split; [reflexivity|].
  apply (fallback_value_is_clean api_padded "<html></html>" "price"
           "$499.99" eq_refl).
Defined.

Lemma length_append (a b : string) :
  String.length (String.append a b) = String.length a + String.length b.
Proof. induction a as [|c a IH]; simpl; [reflexivity|now rewrite IH]. Qed.

Lemma length_substring_from_start (n : nat) (s : string) :
  String.length (String.substring 0 n s) <= n.
Proof.
  revert s. induction n as [|n IH]; intros [|c s]; simpl; try lia.
  specialize (IH s). lia.
Qed.

Lemma truncate_html_bound (html : string) :
  (N.of_nat (String.length (truncate_html html)) <= html_limit + 3)%N.
Proof.
  unfold truncate_html.
  destruct (html_limit <? N.of_nat (String.length html))%N eqn:E.
  - rewrite length_append.
    pose proof (length_substring_from_start (N.to_nat html_limit) html).
    change (String.length "...") with 3. lia.
  - apply N.ltb_ge in E. lia.
Qed.

(** X15: the HTML handed to the endpoint is at most 100003 characters
    long, and is the page itself when that has at most 100000: two
    endpoints that agree on every HTML of at most 100003 characters give
    the same extraction. *)
Theorem fallback_sends_bounded_html
    (api1 api2 : string -> string -> ApiOutcome)
    (html target_field : string) :
  (N.of_nat (String.length (truncate_html html)) <= html_limit + 3)%N
  /\ ((N.of_nat (String.length html) <= html_limit)%N ->
      truncate_html html = html)
  /\ ((forall prompt h,
         (N.of_nat (String.length h) <= html_limit + 3)%N ->
         api1 prompt h = api2 prompt h) ->
      extract_with_deepseek api1 html target_field
      = extract_with_deepseek api2 html target_field).
Proof.
  split; [apply truncate_html_bound|]. split.
  - intros H. unfold truncate_html.
    destruct (html_limit <? N.of_nat (String.length html))%N eqn:E;
      [|reflexivity].
    apply N.ltb_lt in E. lia.
  - intros Hagree. unfold extract_with_deepseek.
    destruct (prompt_for target_field) as [prompt|]; [|reflexivity].
    now rewrite (Hagree prompt _ (truncate_html_bound html)).
Qed.

(** An endpoint that cannot take more than the limit. *)
Definition api_strict : string -> string -> ApiOutcome :=
  fun _ h => if (N.of_nat (String.length h) <=? html_limit + 3)%N
             then ApiChoices [Some "$499.99"] else ApiRaises.

Lemma fallback_sends_bounded_html_witness :
  truncate_html "<html></html>" = "<html></html>"
  /\ extract_with_deepseek api_strict "<html></html>" "price"
     = extract_with_deepseek api_padded "<html></html>" "price".
Proof.
  destruct (fallback_sends_bounded_html api_strict
              (fun _ _ => ApiChoices [Some "$499.99"])
              "<html></html>" "price") as (_ & H2 & H3).
  split.
  - apply H2. vm_compute. discriminate.
  - rewrite H3; [reflexivity|].
    intros prompt h Hh. unfold api_strict.
    apply N.leb_le in Hh. now rewrite Hh.
Defined.

(** X16: what the selectors found is kept: a non-empty title is never
    replaced by the fallback, nor is a price with a dollar amount other
    than [$0.00]; and when the page URL is empty the fallback is not asked
    at all. *)
Theorem selector_values_are_kept
    (api : string -> string -> ApiOutcome) (p : DetailPage) (url : string)
    (info : ProductInfo) :
  detail_url p = inr url ->
  extract_product_info api p = inr info ->
  pi_url info = Some url
  /\ (attr_truthy (selected_title p) = true ->
      pi_title info = selected_title p)
  /\ (has_valid_price (selected_price p) = true ->
      pi_price info = selected_price p)
  /\ (url = EmptyString ->
      pi_title info = selected_title p /\ pi_price info = selected_price p).
Proof.
  intros Hurl H. unfold extract_product_info in H. rewrite Hurl in H.
  cbn [pi_title pi_price pi_url] in H.
  assert (Hempty : url = EmptyString -> attr_truthy (Some url) = false)
    by (intros ->; reflexivity).
  destruct (attr_truthy (Some url)) eqn:Eu;
    [destruct (attr_truthy (selected_title p)) eqn:Et;
     [|destruct (fallback api p "title")];
     cbn [negb pi_title pi_price pi_url] in H;
     (destruct (has_valid_price (selected_price p)) eqn:Ep;
      [|destruct (fallback api p "price")])|];
    cbn [negb pi_title pi_price pi_url] in H; inversion H; subst info;
    cbn [pi_title pi_price pi_url];
    (split; [reflexivity|]);
    (split; [intros Ht; try reflexivity; discriminate|]);
    (split; [intros Hp; try reflexivity; discriminate|]);
    intros Hu; try (specialize (Hempty Hu); discriminate);
    split; reflexivity.
Qed.

(** The selectors found a title and a valid price; the endpoint would
    answer something else. *)
Definition priced_page : DetailPage :=
  {| selected_title := Some "PlayStation 5";
     selected_price := Some "$499.99";
     detail_url := inr "https://shop.example/p/A";
     page_source := Some "<html></html>" |}.

Lemma selector_values_are_kept_witness :
  extract_product_info api_padded priced_page
  = inr {| pi_title := Some "PlayStation 5"; pi_price := Some "$499.99";
           pi_url := Some "https://shop.example/p/A" |}
  /\ pi_title {| pi_title := Some "PlayStation 5";
                 pi_price := Some "$499.99";
                 pi_url := Some "https://shop.example/p/A" |}
     = selected_title priced_page.
Proof.
  split; [reflexivity|].
  apply (proj1 (proj2
           (selector_values_are_kept api_padded priced_page
              "https://shop.example/p/A" _ eq_refl eq_refl))).
  reflexivity.
Defined.

(* ================================================================== *)
(** * Further properties of the record loop *)
(* ================================================================== *)

Lemma opt_href_eqb_eq (a b : option string) :
  opt_href_eqb a b = true <-> a = b.
Proof.
  destruct a as [x|], b as [y|]; simpl; split; try congruence;
    try discriminate.
  - intros H. apply String.eqb_eq in H. congruence.
  - intros H. inversion H. apply String.eqb_refl.
Qed.

Lemma not_processed (h : option string) (l : list (option string)) :
  existsb (opt_href_eqb h) l = false -> ~ In h l.
Proof.
  intros H Hin.
  assert (existsb (opt_href_eqb h) l = true); [|congruence].
  apply existsb_exists. exists h. split; [exact Hin|].
  now apply opt_href_eqb_eq.
Qed.

(** The lines of the file that were written to the end. *)
Definition whole_lines (lines : list Written) : list ProductInfo :=
  flat_map (fun l => match l with
                     | Whole product_info => [product_info]
                     | Torn _ => []
                     end) lines.

Lemma whole_lines_app (a b : list Written) :
  whole_lines (a ++ b) = whole_lines a ++ whole_lines b.
Proof. apply flat_map_app. Qed.

Section SessionMore.

Variables World Handle : Type.
Variable D : Driver World Handle.
Variable starting_website : string.

Notation Session := (Session World).
Notation M := (M World).
Notation final := (final World).
Notation processed := (@processed_product_hrefs_on_page World).

(** The output file, the counter and the page ledger are as they were. *)
Definition same_books (s s' : Session) : Prop :=
  sink s' = sink s /\ products_count s' = products_count s
  /\ processed s' = processed s.

Definition quiet {A : Type} (m : M A) : Prop :=
  forall s, same_books s (final (m s)).

(** What one visit does to the books: nothing, or one new href in the
    ledger together with one line in the file, counted when it was written
    to the end. *)
Definition booked (s s' : Session) : Prop :=
  same_books s s' \/
  exists target_href line,
    existsb (opt_href_eqb target_href) (processed s) = false
    /\ processed s' = target_href :: processed s
    /\ sink s' = sink s ++ [line]
    /\ products_count s'
       = products_count s + List.length (whole_lines [line]).

Lemma same_books_refl s : same_books s s.
Proof. now repeat split. Qed.

Lemma same_books_trans s1 s2 s3 :
  same_books s1 s2 -> same_books s2 s3 -> same_books s1 s3.
Proof. unfold same_books. intros (A & B & C) (A' & B' & C'). repeat split; congruence. Qed.

Lemma booked_before s1 s2 s3 :
  same_books s1 s2 -> booked s2 s3 -> booked s1 s3.
Proof.
  intros (A & B & C) [H|(h & line & Hh & Hp & Hw & Hc)].
  - left. apply (same_books_trans s1 s2 s3); [now repeat split|exact H].
  - right. exists h, line. rewrite <- C, <- A, <- B.
    repeat split; assumption.
Qed.

Lemma booked_after s1 s2 s3 :
  booked s1 s2 -> same_books s2 s3 -> booked s1 s3.
Proof.
  intros [H|(h & line & Hh & Hp & Hw & Hc)] (A & B & C).
  - left. apply (same_books_trans s1 s2 s3); [exact H|now repeat split].
  - right. exists h, line. rewrite A, B, C. repeat split; assumption.
Qed.

Lemma quiet_ret {A} (a : A) : quiet (ret a).
Proof. intros s. apply same_books_refl. Qed.

Lemma quiet_bind {A B} (m : M A) (k : A -> M B) :
  quiet m -> (forall a, quiet (k a)) -> quiet (bind m k).
Proof.
  intros Hm Hk s. unfold bind. specialize (Hm s).
  destruct (m s) as [a s'|e s']; simpl in Hm; [|exact Hm].
  eapply same_books_trans; [exact Hm|apply Hk].
Qed.

Lemma quiet_call {A} (op : World -> Outcome World A) : quiet (call op).
Proof.
  intros s. unfold call. destruct (op (world s)); now repeat split.
Qed.

Lemma quiet_pass f : quiet (pass f).
Proof. intros s. now repeat split. Qed.

Lemma quiet_get : quiet (@get World).
Proof. intros s. apply same_books_refl. Qed.

Lemma quiet_read {A} (v : Session -> Var A) : quiet (read v).
Proof. intros s. unfold read. destruct (v s); apply same_books_refl. Qed.

Lemma quiet_set_new_window v : quiet (@set_new_window World v).
Proof. intros s. now repeat split. Qed.

Lemma quiet_set_main_window h : quiet (@set_main_window World h).
Proof. intros s. now repeat split. Qed.

Lemma quiet_extract : quiet (extract D).
Proof.
  intros s. unfold extract.
  destruct (extract_product_info _ _); apply same_books_refl.
Qed.

Lemma quiet_click_product e : quiet (click_product D e).
Proof.
  intros s. unfold click_product.
  pose proof (quiet_call (drv_click D e) s) as H.
  destruct (call (drv_click D e) s) as [a s'|[| |] s']; simpl in *;
    try exact H.
  eapply same_books_trans; [exact H|apply quiet_call].
Qed.

Lemma quiet_switch_to_popup main : quiet (switch_to_popup D main).
Proof.
  unfold switch_to_popup.
  apply quiet_bind; [apply quiet_set_new_window|intros _].
  apply quiet_bind; [apply quiet_call|intros handles].
  destruct (1 <? List.length handles); [|apply quiet_ret].
  apply quiet_bind; [apply quiet_call|intros handles'].
  destruct (first_other main handles'); [|apply quiet_ret].
  apply quiet_bind; [apply quiet_set_new_window|intros _].
  apply quiet_call.
Qed.

Lemma quiet_leave_product : quiet (leave_product D).
Proof.
  unfold leave_product.
  apply quiet_bind; [apply quiet_read|intros [h|]].
  - apply quiet_bind; [apply quiet_call|intros _].
    apply quiet_bind; [apply quiet_read|intros main].
    apply quiet_call.
  - apply quiet_call.
Qed.

Lemma quiet_locate product_elements selector i :
  quiet (locate D product_elements selector i).
Proof.
  unfold locate. destruct ((0 <? i) && Py.truthy selector);
    [|apply quiet_ret].
  apply quiet_bind; [apply quiet_call|intros refreshed].
  destruct (nth_error refreshed i); [|apply quiet_ret].
  apply quiet_bind; [apply quiet_get|intros s']. apply quiet_ret.
Qed.

Lemma quiet_go_back : quiet (go_back_unless_listing D starting_website).
Proof.
  unfold go_back_unless_listing.
  apply quiet_bind; [apply quiet_call|intros url].
  destruct (negb _); [|apply quiet_ret].
  apply quiet_bind; [apply quiet_call|intros url'].
  destruct (negb _); [apply quiet_call|apply quiet_ret].
Qed.

Lemma quiet_recover : quiet (recover D starting_website).
Proof.
  unfold recover.
  apply quiet_bind; [apply quiet_read|intros popup].
  apply quiet_bind; [|intros _; apply quiet_pass].
  destruct popup as [handle|]; [|apply quiet_go_back].
  apply quiet_bind; [apply quiet_call|intros current].
  destruct (current =? handle); [|apply quiet_go_back].
  apply quiet_bind; [apply quiet_call|intros _].
  apply quiet_bind; [apply quiet_read|intros main].
  apply quiet_call.
Qed.

(** A computation that books at most one href, new to the ledger it
    starts from. *)
Definition books_new (target_href : option string) {A : Type} (m : M A)
  : Prop :=
  forall s, existsb (opt_href_eqb target_href) (processed s) = false ->
            booked s (final (m s)).

Lemma books_new_quiet target_href {A} (m : M A) :
  quiet m -> books_new target_href m.
Proof. intros H s _. left. apply H. Qed.

Lemma books_new_after_quiet target_href {A B} (m : M A) (k : A -> M B) :
  quiet m -> (forall a, books_new target_href (k a)) ->
  books_new target_href (bind m k).
Proof.
  intros Hm Hk s Hs. unfold bind. specialize (Hm s).
  destruct (m s) as [a s'|e s']; simpl in Hm; [|now left].
  eapply booked_before; [exact Hm|]. apply Hk.
  destruct Hm as (_ & _ & Hp). now rewrite Hp.
Qed.

Lemma books_new_then_quiet target_href {A B} (m : M A) (k : A -> M B) :
  books_new target_href m -> (forall a, quiet (k a)) ->
  books_new target_href (bind m k).
Proof.
  intros Hm Hk s Hs. unfold bind. specialize (Hm s Hs).
  destruct (m s) as [a s'|e s']; simpl in Hm; [|exact Hm].
  eapply booked_after; [exact Hm|apply Hk].
Qed.

Lemma persist_books target_href product_info :
  books_new target_href (persist D target_href product_info).
Proof.
  intros s Hs. unfold persist.
  destruct (attr_truthy (pi_url product_info)); [|left; apply same_books_refl].
  right. unfold bind, add_processed, write_record, count_product; simpl.
  destruct (drv_append_line D (world s)); simpl.
  - exists target_href, (Whole product_info). now repeat split.
  - exists target_href, (Torn product_info). simpl.
    repeat split; [exact Hs|lia].
Qed.

Lemma visit_booked product_elements selector i s :
  booked s (final (visit D product_elements selector i s)).
Proof.
  unfold visit, bind at 1.
  pose proof (quiet_locate product_elements selector i s) as Hl.
  destruct (locate D product_elements selector i s) as [[current|] s1|e s1];
    simpl in Hl; try (left; exact Hl).
  eapply booked_before; [exact Hl|]. clear Hl s.
  unfold bind at 1.
  pose proof (quiet_call (drv_get_href D current) s1) as Hh.
  destruct (call (drv_get_href D current) s1) as [target_href s2|e s2];
    simpl in Hh; try (left; exact Hh).
  eapply booked_before; [exact Hh|]. clear Hh s1.
  unfold bind at 1, get.
  destruct (existsb (opt_href_eqb target_href) (processed s2)) eqn:Hs;
    [left; apply same_books_refl|].
  revert s2 Hs.
  match goal with
  | |- forall s, _ -> booked s (final (bind ?m ?k s)) =>
      change (books_new target_href (bind m k))
  end.
  apply books_new_after_quiet; [apply quiet_call|intros main].
  apply books_new_after_quiet; [apply quiet_set_main_window|intros _].
  apply books_new_after_quiet; [apply quiet_click_product|intros _].
  apply books_new_after_quiet; [apply quiet_switch_to_popup|intros _].
  apply books_new_after_quiet; [apply quiet_pass|intros _].
  apply books_new_after_quiet; [apply quiet_pass|intros _].
  apply books_new_after_quiet; [apply quiet_extract|intros product_info].
  apply books_new_then_quiet; [apply persist_books|intros _].
  apply quiet_bind; [apply quiet_leave_product|intros _].
  apply quiet_bind; [apply quiet_pass|intros _].
  apply quiet_ret.
Qed.

Lemma record_iteration_booked product_elements selector i s :
  booked s (snd (record_iteration D starting_website
                   product_elements selector i s)).
Proof.
  unfold record_iteration.
  pose proof (visit_booked product_elements selector i s) as Hv.
  destruct (visit D product_elements selector i s) as [ctl s'|e s'];
    simpl in Hv; [exact Hv|].
  assert (Hr : booked s (final (recover D starting_website s')))
    by (eapply booked_after; [exact Hv|apply quiet_recover]).
  destruct e; [exact Hv| |];
    destruct (recover D starting_website s'); exact Hr.
Qed.

(** What a run of visits does to the books. *)
Definition ledgered (s s' : Session) : Prop :=
  exists appended hrefs,
    sink s' = sink s ++ appended
    /\ products_count s'
       = products_count s + List.length (whole_lines appended)
    /\ processed s' = hrefs ++ processed s
    /\ List.length appended = List.length hrefs
    /\ (NoDup (processed s) -> NoDup (processed s')).

Lemma ledgered_refl s : ledgered s s.
Proof.
  exists [], []. simpl. rewrite app_nil_r.
  repeat split; try reflexivity; auto.
Qed.

Lemma ledgered_trans s1 s2 s3 :
  ledgered s1 s2 -> ledgered s2 s3 -> ledgered s1 s3.
Proof.
  intros (a & h & A1 & A2 & A3 & A4 & A5) (b & h' & B1 & B2 & B3 & B4 & B5).
  exists (a ++ b), (h' ++ h).
  rewrite B1, A1, B2, A2, B3, A3, whole_lines_app, !length_app, !app_assoc.
  repeat split; try reflexivity; try lia.
  intros Hn. rewrite <- app_assoc, <- A3, <- B3. auto.
Qed.

Lemma booked_ledgered s s' : booked s s' -> ledgered s s'.
Proof.
  intros [(A & B & C)|(h & line & Hh & Hp & A & B)].
  - exists [], []. simpl. rewrite app_nil_r, A, B, C.
    repeat split; try reflexivity; auto.
  - assert (Hn : NoDup (processed s) -> NoDup (processed s')).
    { intros Hn. rewrite Hp. constructor; [|exact Hn].
      now apply not_processed. }
    exists [line], [h]. rewrite A, B.
    repeat split; try reflexivity; [exact Hp|exact Hn].
Qed.

Lemma record_loop_ledgered product_elements selector todo i s :
  ledgered s (record_loop D starting_website product_elements selector
                i todo s).
Proof.
  revert i s. induction todo as [|todo IH]; intros i s; simpl.
  - apply ledgered_refl.
  - pose proof (record_iteration_booked product_elements selector i s) as H.
    apply booked_ledgered in H.
    destruct (record_iteration D starting_website product_elements
                selector i s) as [[|] s']; simpl in H.
    + eapply ledgered_trans; [exact H|apply IH].
    + exact H.
Qed.

(** X17: the product counter follows the lines written to the end: over
    one listing page it grows by exactly the number of records whose line
    was written whole, whatever fails on the way. A line that a failed
    write left unfinished stays in the file and is not counted, so the
    counter never exceeds the number of lines appended. *)
Theorem counter_follows_output_file
    (product_elements : list Element) (selector : string)
    (max_products_per_page : nat) (s : Session) :
  exists appended,
    sink (scrape_page D starting_website product_elements selector
            max_products_per_page s)
    = sink s ++ appended
    /\ products_count (scrape_page D starting_website product_elements
                         selector max_products_per_page s)
       = products_count s + List.length (whole_lines appended)
    /\ List.length (whole_lines appended) <= List.length appended.
Proof.
  unfold scrape_page.
  destruct (record_loop_ledgered product_elements selector
              (Nat.min max_products_per_page (List.length product_elements))
              0
              {| world := world s; sink := sink s;
                 products_count := products_count s;
                 processed_product_hrefs_on_page := [];
                 new_window := new_window s;
                 main_window := main_window s |})
    as (appended & hrefs & A & B & _).
  exists appended. split; [exact A|]. split; [exact B|].
  clear. induction appended as [|[r|r] l IH]; simpl; lia.
Qed.

(** X18: the page ledger never holds an href twice, and a page appends at
    most one record per href in its ledger: no product link is persisted
    twice on one listing page. *)
Theorem page_ledger_has_no_repeats
    (product_elements : list Element) (selector : string)
    (max_products_per_page : nat) (s : Session) :
  NoDup (processed (scrape_page D starting_website product_elements selector
                      max_products_per_page s))
  /\ List.length (sink (scrape_page D starting_website product_elements
                          selector max_products_per_page s))
     <= List.length (sink s)
        + List.length (processed (scrape_page D starting_website
                                    product_elements selector
                                    max_products_per_page s)).
Proof.
  unfold scrape_page.
  destruct (record_loop_ledgered product_elements selector
              (Nat.min max_products_per_page (List.length product_elements))
              0
              {| world := world s; sink := sink s;
                 products_count := products_count s;
                 processed_product_hrefs_on_page := [];
                 new_window := new_window s;
                 main_window := main_window s |})
    as (appended & hrefs & A & _ & C & Hlen & Hn).
  simpl in A, C, Hn. split.
  - apply Hn. constructor.
  - rewrite A, C, !length_app. simpl. lia.
Qed.

End SessionMore.

(* ================================================================== *)
(** * Properties of the next-page control lookup *)
(* ================================================================== *)

Section NextButtonFacts.

Variable find_controls : By -> string -> option (list Control).





End NextButtonFacts.

(* ================================================================== *)
(** * Properties of the search box lookup *)
(* ================================================================== *)

(** The test an input has to pass. *)
Definition accepted_input (e : InputView) : bool :=
  match in_displayed e with
  | Some shown =>
      shown && negb (attr_eqb (in_type e) "hidden") && _is_likely_search_box e
  | None => false
  end.

Lemma scan_inputs_found elements e :
  scan_inputs elements = Some e ->
  In e elements /\ accepted_input e = true.
Proof.
  induction elements as [|x rest IH]; simpl; [discriminate|].
  unfold accepted_input at 1.
  destruct (in_displayed x) as [shown|] eqn:Ed; [|discriminate].
  destruct (shown && negb (attr_eqb (in_type x) "hidden")
            && _is_likely_search_box x) eqn:Ea.
  - intros H; inversion H; subst. split; [now left|].
    unfold accepted_input. now rewrite Ed.
  - intros H. destruct (IH H). split; [now right|assumption].
Qed.

Lemma scan_inputs_none elements :
  scan_inputs elements = None ->
  Forall (fun x => in_displayed x <> None) elements ->
  Forall (fun x => accepted_input x = false) elements.
Proof.
  induction elements as [|x rest IH]; simpl; intros H Hr; [constructor|].
  inversion Hr as [|? ? Hx Hrest]; subst.
  destruct (in_displayed x) as [shown|] eqn:Ed; [|now elim Hx].
  destruct (shown && negb (attr_eqb (in_type x) "hidden")
            && _is_likely_search_box x) eqn:Ea; [discriminate|].
  constructor; [|now apply IH].
  unfold accepted_input. now rewrite Ed.
Qed.

Section SearchBoxFacts.

Variable find_inputs : By -> string -> option (list InputView).

Lemma search_box_among_found selectors e :
  search_box_among find_inputs selectors = Some e ->
  exists selector_type selector elements,
    In (selector_type, selector) selectors
    /\ find_inputs selector_type selector = Some elements
    /\ In e elements /\ accepted_input e = true.
Proof.
  induction selectors as [|[st sl] later IH]; simpl; [discriminate|].
  assert (Hlater : search_box_among find_inputs later = Some e ->
            exists selector_type selector elements,
              In (selector_type, selector) ((st, sl) :: later)
              /\ find_inputs selector_type selector = Some elements
              /\ In e elements /\ accepted_input e = true).
  { intros H. destruct (IH H) as (a & b & c & Hin & Hrest).
    exists a, b, c. split; [now right|exact Hrest]. }
  destruct (find_inputs st sl) as [elements|] eqn:Eq; [|exact Hlater].
  destruct (scan_inputs elements) as [x|] eqn:Es; [|exact Hlater].
  intros H; inversion H; subst x.
  destruct (scan_inputs_found _ _ Es).
  exists st, sl, elements. split; [now left|]. now repeat split.
Qed.

Lemma search_box_among_none selectors :
  search_box_among find_inputs selectors = None ->
  forall selector_type selector elements,
    In (selector_type, selector) selectors ->
    find_inputs selector_type selector = Some elements ->
    Forall (fun x => in_displayed x <> None) elements ->
    Forall (fun x => accepted_input x = false) elements.
Proof.
  induction selectors as [|[st sl] later IH]; simpl; intros H a b els Hin;
    [contradiction|].
  destruct (find_inputs st sl) as [elements|] eqn:Eq.
  - destruct (scan_inputs elements) as [x|] eqn:Es; [discriminate|].
    destruct Hin as [Hin|Hin]; [|now apply IH].
    inversion Hin; subst a b. rewrite Eq. intros E; inversion E; subst els.
    now apply scan_inputs_none.
  - destruct Hin as [Hin|Hin]; [|now apply IH].
    inversion Hin; subst a b. rewrite Eq. discriminate.
Qed.

(** X20: a search box that is returned was found by one of the fifteen
    selectors, is displayed, is not of type [hidden] and passes
    [_is_likely_search_box]; when none is returned, no query whose reads
    all succeed holds such an element. *)
Theorem search_box_is_found_iff_present :
  (forall e, find_search_box find_inputs = Some e ->
     exists selector_type selector elements,
       In (selector_type, selector) search_selectors
       /\ find_inputs selector_type selector = Some elements
       /\ In e elements
       /\ in_displayed e = Some true
       /\ attr_eqb (in_type e) "hidden" = false
       /\ _is_likely_search_box e = true)
  /\ (find_search_box find_inputs = None ->
      forall selector_type selector elements,
        In (selector_type, selector) search_selectors ->
        find_inputs selector_type selector = Some elements ->
        Forall (fun x => in_displayed x <> None) elements ->
        Forall (fun x => accepted_input x = false) elements).
Proof.
  split.
  - intros e H. apply search_box_among_found in H.
    destruct H as (st & sl & els & Hin & Hq & He & Ha).
    exists st, sl, els. split; [exact Hin|]. split; [exact Hq|].
    split; [exact He|].
    unfold accepted_input in Ha.
    destruct (in_displayed e) as [[|]|]; try discriminate.
    simpl in Ha. apply andb_true_iff in Ha. destruct Ha as [Ht Hl].
    apply negb_true_iff in Ht. now repeat split.
  - apply search_box_among_none.
Qed.

End SearchBoxFacts.

(** A page with a hidden query field and a visible text input. *)
Definition sample_inputs (selector_type : By) (selector : string)
  : option (list InputView) :=
  match selector_type with
  | NAME =>
      if String.eqb selector "q" then
        Some [{| in_node := 1; in_displayed := Some true;
                 in_type := Some "hidden"; in_id := None; in_class := None;
                 in_placeholder := None |}]
      else Some []
  | TAG_NAME =>
      Some [{| in_node := 2; in_displayed := Some false;
               in_type := Some "text"; in_id := None; in_class := None;
               in_placeholder := None |};
            {| in_node := 3; in_displayed := Some true;
               in_type := Some "text"; in_id := None; in_class := None;
               in_placeholder := None |}]
  | _ => None
  end.

Lemma search_box_is_found_iff_present_witness :
  find_search_box sample_inputs
  = Some {| in_node := 3; in_displayed := Some true; in_type := Some "text";
            in_id := None; in_class := None; in_placeholder := None |}
  /\ exists selector_type selector elements,
       In (selector_type, selector) search_selectors
       /\ sample_inputs selector_type selector = Some elements
       /\ In {| in_node := 3; in_displayed := Some true;
                in_type := Some "text"; in_id := None; in_class := None;
                in_placeholder := None |} elements
       /\ Some true = Some true
       /\ attr_eqb (Some "text") "hidden" = false
       /\ _is_likely_search_box
            {| in_node := 3; in_displayed := Some true;
               in_type := Some "text"; in_id := None; in_class := None;
               in_placeholder := None |} = true.
Proof.
  split; [reflexivity|].
  apply (proj1 (search_box_is_found_iff_present sample_inputs)).
  reflexivity.
Defined.

(* ================================================================== *)
(** * Properties of the pagination step *)
(* ================================================================== *)

Section PaginationMore.

Variables World Handle : Type.
Variable D : Driver World Handle.
Variable find_controls : World -> By -> string -> option (list Control).

Notation verdict_sound := (verdict_sound World Handle D).
Notation click_completed := (click_completed World Handle D).

(** What an attempt leaves: a sound verdict, and the button in the tried
    set, unless it was there and nothing was done. *)
Definition attempt_ok (button : Element) (current_url : string)
    (tried_buttons : list Element) (w : World)
    (success : bool) (url : string) (tried' : list Element) (w' : World)
  : Prop :=
  verdict_sound button current_url success url w'
  /\ ((existsb (same_element button) tried_buttons = true
       /\ tried' = tried_buttons /\ success = false /\ w' = w)
      \/ (existsb (same_element button) tried_buttons = false
          /\ tried' = button :: tried_buttons)).

Lemma try_next_outcome button current_url tried_buttons w :
  exists success url tried' w',
    try_next_page_button D button (Some current_url) tried_buttons w
    = Done (success, url, tried') w'
    /\ attempt_ok button current_url tried_buttons w success url tried' w'.
Proof.
  unfold try_next_page_button, attempt_ok.
  destruct (existsb (same_element button) tried_buttons) eqn:Ex.
  { exists false, current_url, tried_buttons, w.
    split; [reflexivity|]. split; [reflexivity|]. left. now repeat split. }
  assert (Hfail : forall wf,
    exists success url tried' w',
      Done (false, current_url, button :: tried_buttons) wf
      = Done (success, url, tried') w'
      /\ verdict_sound button current_url success url w'
      /\ ((false = true /\ tried' = tried_buttons /\ success = false
           /\ w' = w)
          \/ (false = false /\ tried' = button :: tried_buttons))).
  { intros wf. exists false, current_url, (button :: tried_buttons), wf.
    split; [reflexivity|]. split; [reflexivity|]. right. now split. }
  assert (Hjs : forall w1,
    exists success url tried' w',
      match drv_js_click D button w1 with
      | Done _ w2 =>
          match verify D current_url w2 with
          | Done (success, url) w' =>
              Done (success, url, button :: tried_buttons) w'
          | Throws _ w' =>
              Done (false, current_url, button :: tried_buttons) w'
          end
      | Throws _ w2 => Done (false, current_url, button :: tried_buttons) w2
      end = Done (success, url, tried') w'
      /\ verdict_sound button current_url success url w'
      /\ ((false = true /\ tried' = tried_buttons /\ success = false
           /\ w' = w)
          \/ (false = false /\ tried' = button :: tried_buttons))).
  { intros w1. destruct (drv_js_click D button w1) as [[] w2|e w2] eqn:Ej;
      [|apply Hfail].
    destruct (verdict_of_verify World Handle D button current_url
                (button :: tried_buttons) w2
                (ex_intro _ w1 (or_intror Ej)) _ eq_refl)
      as (su & u & wf & E & Hs).
    rewrite E. exists su, u, (button :: tried_buttons), wf.
    split; [reflexivity|]. split; [exact Hs|]. right. now split. }
  destruct (drv_tag_name D button w) as [tag w0|[| |] w0];
    [|apply Hfail|apply Hjs|apply Hfail].
  destruct (drv_click D button w0) as [[] w1|[| |] w1] eqn:Ec;
    [|apply Hfail|apply Hjs|apply Hfail].
  destruct (verify D current_url w1) as [[su u] wf|[| |] wf] eqn:Ev;
    [| |apply Hjs|].
  - exists su, u, (button :: tried_buttons), wf. split; [reflexivity|].
    split; [|right; now split].
    destruct su.
    + apply verify_true in Ev. destruct Ev as [E1 E2]. simpl.
      exists w1. split; [|now split]. exists w0. now left.
    + apply verify_false in Ev. exact Ev.
  - apply Hfail.
  - apply Hfail.
Qed.

(** No element twice in the tried set. *)
Definition tried_once (tried_buttons : list Element) : Prop :=
  NoDup (map node tried_buttons).

Lemma not_tried button tried_buttons :
  existsb (same_element button) tried_buttons = false ->
  ~ In (node button) (map node tried_buttons).
Proof.
  intros H Hin. apply in_map_iff in Hin. destruct Hin as (b & Hb & Hin).
  assert (existsb (same_element button) tried_buttons = true); [|congruence].
  apply existsb_exists. exists b. split; [exact Hin|].
  unfold same_element. rewrite Hb. apply Nat.eqb_refl.
Qed.

(** A successful attempt: a completed click on a button of the tried set
    after which the URL read differs from the captured one. *)
Definition advanced (current_url : string) (tried_buttons : list Element)
    (w' : World) : Prop :=
  exists button wc url,
    In button tried_buttons
    /\ click_completed button wc
    /\ drv_current_url D (drv_sleep D 3000 wc) = Done url w'
    /\ url <> current_url.

Lemma attempt_advances button current_url tried_buttons w url tried' w' :
  attempt_ok button current_url tried_buttons w true url tried' w' ->
  tried_once tried_buttons ->
  tried_once tried' /\ advanced current_url tried' w'.
Proof.
  intros [Hv [(_ & _ & Hf & _)|(Hx & ->)]] Hn; [discriminate|].
  split.
  - unfold tried_once. simpl. constructor; [now apply not_tried|exact Hn].
  - destruct Hv as (wc & Hc & Hu & Hne).
    exists button, wc, url. split; [now left|]. now repeat split.
Qed.

Lemma attempt_keeps_once button current_url tried_buttons w su url tried' w' :
  attempt_ok button current_url tried_buttons w su url tried' w' ->
  tried_once tried_buttons -> tried_once tried'.
Proof.
  intros [_ [(_ & -> & _)|(Hx & ->)]] Hn; [exact Hn|].
  unfold tried_once. simpl. constructor; [now apply not_tried|exact Hn].
Qed.

Lemma try_alternatives_outcome alternatives current_url tried_buttons w
    success tried' w' :
  try_alternatives D alternatives current_url tried_buttons w
  = Done (success, tried') w' ->
  tried_once tried_buttons ->
  tried_once tried'
  /\ (success = true -> advanced current_url tried' w').
Proof.
  revert tried_buttons w.
  induction alternatives as [|alt rest IH]; intros tried_buttons w H Hn.
  - simpl in H. inversion H; subst. split; [exact Hn|discriminate].
  - simpl in H.
    destruct (try_next_outcome alt current_url tried_buttons w)
      as (su & u & t1 & w1 & E & Hok).
    rewrite E in H. destruct su.
    + inversion H; subst.
      destruct (attempt_advances _ _ _ _ _ _ _ Hok Hn). now split.
    + apply (IH _ _ H). apply (attempt_keeps_once _ _ _ _ _ _ _ _ Hok Hn).
Qed.

(** X21: the page loop moves to a next page only after a completed click
    on a next button following which the URL read differs from the URL
    captured before the first click; and within one pagination step no
    button is in the tried set twice, so none is clicked twice. *)
Theorem pagination_advances_on_url_change
    (w w' : World) (ctl : PageCtl) (tried_buttons : list Element) :
  paginate D find_controls w = Done (ctl, tried_buttons) w' ->
  NoDup (map node tried_buttons)
  /\ (ctl = Advance ->
      exists current_url w1 button wc url,
        drv_current_url D w = Done current_url w1
        /\ In button tried_buttons
        /\ click_completed button wc
        /\ drv_current_url D (drv_sleep D 3000 wc) = Done url w'
        /\ url <> current_url).
Proof.
  unfold paginate.
  destruct (find_next_page_button (find_controls w) [] false)
    as [[next_button|]|l];
    try (intros H; inversion H; subst; split; [constructor|discriminate]).
  destruct (drv_current_url D w) as [current_url w1|e w1]; [|discriminate].
  destruct (try_next_outcome next_button current_url [] w1)
    as (su & u & t1 & w2 & E & Hok).
  rewrite E.
  assert (Hnil : tried_once []) by constructor.
  assert (Hwrap : forall tried wf,
            tried_once tried /\ advanced current_url tried wf ->
            NoDup (map node tried)
            /\ (Advance = Advance ->
                exists current_url0 w0 button wc url,
                  Done current_url w1 = Done current_url0 w0
                  /\ In button tried
                  /\ click_completed button wc
                  /\ drv_current_url D (drv_sleep D 3000 wc) = Done url wf
                  /\ url <> current_url0)).
  { intros tried wf [Hn (b & wc & url & Hin & Hc & Hu & Hne)].
    split; [exact Hn|]. intros _.
    exists current_url, w1, b, wc, url. now repeat split. }
  destruct su.
  - intros H; inversion H; subst.
    apply Hwrap. apply (attempt_advances _ _ _ _ _ _ _ Hok Hnil).
  - pose proof (attempt_keeps_once _ _ _ _ _ _ _ _ Hok Hnil) as Hn1.
    destruct (find_alternative_next_buttons (find_controls w2) t1)
      as [b|[|alt alts]];
      try (intros H; inversion H; subst; split; [exact Hn1|discriminate]).
    destruct (try_alternatives D (alt :: alts) current_url t1 w2)
      as [[su2 t2] w3|e w3] eqn:Ea; [|discriminate].
    destruct (try_alternatives_outcome _ _ _ _ _ _ _ Ea Hn1) as [Hn2 Hadv].
    destruct su2; intros H; inversion H; subst.
    + apply Hwrap. split; [exact Hn2|now apply Hadv].
    + split; [exact Hn2|discriminate].
Qed.

End PaginationMore.

(** On the pager, button 8 is found first and does not paginate; button 7
    is found among the alternatives and does. *)
Definition pager_controls (w : string) (selector_type : By)
    (selector : string) : option (list Control) :=
  match selector_type with
  | CSS_SELECTOR =>
      Some [{| ctl_element := Pager.button 8; ctl_displayed := Some true;
               ctl_enabled := Some true |};
            {| ctl_element := Pager.button 7; ctl_displayed := Some true;
               ctl_enabled := Some true |}]
  | _ => None
  end.

Lemma pagination_advances_on_url_change_witness :
  paginate Pager.driver pager_controls Pager.page1
  = Done (Advance, [Pager.button 7; Pager.button 8]) Pager.page2
  /\ NoDup (map node [Pager.button 7; Pager.button 8]).
Proof.
  split; [reflexivity|].
  apply (pagination_advances_on_url_change string nat Pager.driver
           pager_controls Pager.page1 Pager.page2 Advance
           [Pager.button 7; Pager.button 8] eq_refl).
Defined.

(* ================================================================== *)
(** * Properties of the whole session *)
(* ================================================================== *)

Section SiteFacts.

Variables World Handle : Type.
Variable D : Driver World Handle.
Variable starting_website : string.
Variable urlparse_netloc : string -> option string.
Variable open_site : World -> Outcome World unit.
Variable find_inputs : World -> By -> string -> option (list InputView).
Variable submit_search : InputView -> string -> World -> Outcome World unit.
Variable elements_to_analyze : World -> Outcome World (list PageElement).
Variable inner_height : World -> Outcome World unit.
Variable scroll_height : World -> Outcome World unit.
Variable scroll_wait : World -> Outcome World unit.
Variable css_containers : World -> string -> option (list Handle).
Variable find_controls : World -> By -> string -> option (list Control).

Notation Session := (Session World).
Notation page_turn :=
  (page_turn D starting_website elements_to_analyze inner_height
     scroll_height scroll_wait css_containers find_controls).
Notation page_loop :=
  (page_loop D starting_website elements_to_analyze inner_height
     scroll_height scroll_wait css_containers find_controls).
Notation search_and_scrape :=
  (search_and_scrape D starting_website urlparse_netloc open_site
     find_inputs submit_search elements_to_analyze inner_height
     scroll_height scroll_wait css_containers find_controls).

(** From [s] to [s'] lines of records with a url were appended, and those
    written to the end were counted. *)
Definition tally (s s' : Session) : Prop :=
  exists appended,
    sink s' = sink s ++ appended
    /\ products_count s'
       = products_count s + List.length (whole_lines appended)
    /\ Forall (fun l => attr_truthy (pi_url (written_from l)) = true)
         appended.

Lemma tally_same s s' :
  sink s' = sink s -> products_count s' = products_count s -> tally s s'.
Proof.
  intros A B. exists []. rewrite A, B, app_nil_r. simpl.
  split; [reflexivity|]. split; [lia|constructor].
Qed.

Lemma tally_trans s1 s2 s3 : tally s1 s2 -> tally s2 s3 -> tally s1 s3.
Proof.
  intros (a & A1 & A2 & A3) (b & B1 & B2 & B3). exists (a ++ b).
  rewrite B1, A1, B2, A2, whole_lines_app, length_app, app_assoc.
  split; [reflexivity|]. split; [lia|]. apply Forall_app. now split.
Qed.

Lemma scrape_page_tally product_elements selector max_products s :
  tally s (scrape_page D starting_website product_elements selector
             max_products s).
Proof.
  unfold scrape_page.
  set (s0 := {| world := world s; sink := sink s;
                products_count := products_count s;
                processed_product_hrefs_on_page := [];
                new_window := new_window s; main_window := main_window s |}).
  set (todo := Nat.min max_products (List.length product_elements)).
  destruct (record_loop_ledgered World Handle D starting_website
              product_elements selector todo 0 s0)
    as (appended & hrefs & A & B & _).
  destruct (record_loop_extends World Handle D starting_website
              product_elements selector todo 0 s0)
    as (appended' & A' & F).
  rewrite A in A'. apply app_inv_head in A'. subst appended'.
  exists appended. simpl in A, B. now repeat split.
Qed.

Lemma page_turn_tally max_pages max_products page_num s :
  tally s (final World (page_turn max_pages max_products page_num s)).
Proof.
  unfold page_turn.
  destruct (elements_to_analyze (world s)) as [elements w|e w];
    [|now apply tally_same].
  destruct (find_products (drv_look D) inner_height scroll_height
              scroll_wait css_containers w elements)
    as [[[product_elements selector]|] w']; [|now apply tally_same].
  destruct product_elements as [|l links]; [now apply tally_same|].
  set (s' := scrape_page D starting_website (l :: links) selector
               max_products (with_world s w')).
  assert (Hs' : tally s s').
  { apply (tally_trans s (with_world s w') s');
      [now apply tally_same|apply scrape_page_tally]. }
  destruct (page_num <? max_pages - 1); [|exact Hs'].
  destruct (paginate D find_controls (world s')) as [[ctl tried] w''|e w''];
    simpl; (apply (tally_trans s s' _); [exact Hs'|now apply tally_same]).
Qed.

Lemma page_loop_tally max_pages max_products todo page_num s :
  tally s (final World (page_loop max_pages max_products page_num todo s)).
Proof.
  revert page_num s. induction todo as [|todo IH]; intros page_num s; simpl.
  - now apply tally_same.
  - pose proof (page_turn_tally max_pages max_products page_num s) as H.
    destruct (page_turn max_pages max_products page_num s)
      as [[|] s'|e s']; simpl in H; try exact H.
    eapply tally_trans; [exact H|apply IH].
Qed.

(** X22: [search_and_scrape] raises out when [urlparse] rejects the
    starting website, before the browser is touched. Otherwise it returns,
    whatever the site and the driver do and also when the session ends in
    an exception, and the number it returns is the number of records whose
    line the call wrote whole to the output file: the earlier lines of the
    file are kept, every appended line, whole or torn, comes from a record
    with a non-empty url, and a line a failed write left torn is not
    counted. *)
Theorem returned_count_is_lines_written
    (search_term : string) (max_pages max_products_per_page : nat)
    (w : World) (output_file : list Written) :
  match urlparse_netloc starting_website with
  | None =>
      search_and_scrape search_term max_pages max_products_per_page w
        output_file = None
  | Some domain =>
      exists n s appended,
        search_and_scrape search_term max_pages max_products_per_page w
          output_file = Some (n, s)
        /\ sink s = output_file ++ appended
        /\ n = List.length (whole_lines appended)
        /\ n <= List.length appended
        /\ Forall (fun l => attr_truthy (pi_url (written_from l)) = true)
             appended
  end.
Proof.
  unfold search_and_scrape.
  destruct (urlparse_netloc starting_website) as [domain|]; [|reflexivity].
  set (s0 := {| world := w; sink := output_file; products_count := 0;
                processed_product_hrefs_on_page := [];
                new_window := Unbound; main_window := Unbound |}).
  assert (Hnone : forall w1,
            exists n s appended,
              Some (0, with_world s0 w1) = Some (n, s)
              /\ sink s = output_file ++ appended
              /\ n = List.length (whole_lines appended)
              /\ n <= List.length appended
              /\ Forall (fun l => attr_truthy (pi_url (written_from l))
                                  = true) appended).
  { intros w1. exists 0, (with_world s0 w1), []. simpl. rewrite app_nil_r.
    repeat split; [lia|constructor]. }
  destruct (open_site w) as [[] w1|e w1]; [|apply Hnone].
  destruct (find_search_box (find_inputs w1)) as [search_box|];
    [|apply Hnone].
  destruct (submit_search search_box search_term w1) as [[] w2|e w2];
    [|apply Hnone].
  pose proof (page_loop_tally max_pages max_products_per_page max_pages 0
                (with_world s0 w2)) as (appended & A & B & F).
  assert (Hle : List.length (whole_lines appended) <= List.length appended).
  { clear. induction appended as [|[r|r] l IH]; simpl; lia. }
  destruct (page_loop max_pages max_products_per_page 0 max_pages
              (with_world s0 w2)) as [[] s|e s]; simpl in *;
    exists (products_count s), s, appended;
    (split; [reflexivity|]); (split; [exact A|]);
    (split; [exact B|]); (split; [rewrite B; exact Hle|exact F]).
Qed.

End SiteFacts.
